(** * Lysand federation engine: inbox, reference resolution, visibility

    A shallow embedding of the federation protocol engine of the server:

    - [packages/database-interface/user.ts]  (class [User]),
    - [packages/database-interface/note.ts]  (class [Note]),
    - the inbox route [/users/:uuid/inbox].

    The relational store is a record of tables (lists of rows).  Code that
    awaits store and network operations is written in a state-and-exception
    monad over the [World]: the store, the id sequence and a trace of the
    outbound effects.  Rows written before an exception stay written, as
    in the source, which opens no transaction. *)

From Stdlib Require Import String Ascii List Bool Arith Lia.
From Stdlib Require Import DecimalString DecimalNat Permutation Sorted.
Import ListNotations.
Local Open Scope string_scope.
Local Open Scope list_scope.

Set Implicit Arguments.

(* ================================================================== *)
(** ** JavaScript strings *)

Module Js.

(** [s.startsWith(p)] *)
Definition startsWith (s p : string) : bool := String.prefix p s.

(** [s.includes(sub)] *)
Fixpoint includes (s sub : string) : bool :=
  String.prefix sub s ||
  match s with
  | EmptyString => false
  | String _ s' => includes s' sub
  end.

(** A string is truthy when it is not empty. *)
Definition truthy (s : string) : bool :=
  match s with EmptyString => false | _ => true end.

(** [s.split(sep)] for a separator that is not empty.  [skip] counts the
    characters of a separator that was just recognised, [cur] is the piece
    being read. *)
Fixpoint split_from (sep s : string) (skip : nat) (cur : string)
  : list string :=
  match s with
  | EmptyString => [cur]
  | String c s' =>
      match skip with
      | S k => split_from sep s' k cur
      | O =>
          if String.prefix sep s
          then cur :: split_from sep s' (String.length sep - 1) EmptyString
          else split_from sep s' 0 (cur ++ String c EmptyString)
      end
  end.

Definition split (s sep : string) : list string :=
  split_from sep s 0 EmptyString.

Definition dquote : ascii := ascii_of_nat 34.

(** [s.replace(re, empty)] where [re] is the global pattern of the
    double-quote character: every double quote is removed. *)
Fixpoint strip_dquotes (s : string) : string :=
  match s with
  | EmptyString => EmptyString
  | String c s' =>
      if Ascii.eqb c dquote then strip_dquotes s'
      else String c (strip_dquotes s')
  end.

(** [xs.find(p)] *)
Definition find {A} (p : A -> bool) (xs : list A) : option A :=
  List.find p xs.

(** [xs.length > 0] *)
Definition nonempty {A} (xs : list A) : bool :=
  match xs with [] => false | _ => true end.

(** [xs.findIndex(p)]; [None] stands for the index -1 of no match. *)
Fixpoint findIndex {A} (p : A -> bool) (xs : list A) : option nat :=
  match xs with
  | [] => None
  | x :: xs' => if p x then Some 0 else option_map S (findIndex p xs')
  end.

(** [xs.filter((x, index) => p(x, index))], from the index [index] on. *)
Fixpoint filter_from {A} (p : A -> nat -> bool) (index : nat) (xs : list A)
  : list A :=
  match xs with
  | [] => []
  | x :: xs' =>
      if p x index then x :: filter_from p (S index) xs'
      else filter_from p (S index) xs'
  end.

Definition filter_indexed {A} (p : A -> nat -> bool) (xs : list A) : list A :=
  filter_from p 0 xs.

End Js.

(* ================================================================== *)
(** ** The query language of the store

    Conditions and orderings are values of one type, [SQL], as in the
    query builder: [eq(column, value)] compares a column with a bound
    parameter, [eq(column, column)] compares two columns (the join of
    [User.getActiveInPeriod] is [eq(Users.id, Notes.authorId)]). *)

Inductive sql_value :=
| SqlText (s : string)
| SqlBool (b : bool)
| SqlNull.

Inductive table := Users | Notes | Relationships.

Inductive column :=
| Users_id | Users_uri | Users_instanceId
| Notes_id | Notes_uri | Notes_authorId | Notes_replyId
| Relationships_id | Relationships_ownerId | Relationships_subjectId
| Relationships_following.

Definition column_table (c : column) : table :=
  match c with
  | Users_id | Users_uri | Users_instanceId => Users
  | Notes_id | Notes_uri | Notes_authorId | Notes_replyId => Notes
  | _ => Relationships
  end.

Inductive SQL :=
| sql_column (c : column)
| sql_param (v : sql_value)
| sql_eq (a b : SQL)
| sql_and (a b : SQL)
| sql_desc (a : SQL).

Definition table_eqb (a b : table) : bool :=
  match a, b with
  | Users, Users | Notes, Notes | Relationships, Relationships => true
  | _, _ => false
  end.

(** Every column a query names must belong to the table it reads: the
    query names no other table in its FROM clause. *)
Fixpoint in_scope (t : table) (e : SQL) : bool :=
  match e with
  | sql_column c => table_eqb (column_table c) t
  | sql_param _ => true
  | sql_eq a b | sql_and a b => in_scope t a && in_scope t b
  | sql_desc a => in_scope t a
  end.

Definition sql_value_eqb (x y : sql_value) : sql_value :=
  match x, y with
  | SqlText a, SqlText b => SqlBool (String.eqb a b)
  | SqlBool a, SqlBool b => SqlBool (Bool.eqb a b)
  | SqlNull, _ | _, SqlNull => SqlNull
  | _, _ => SqlBool false
  end.

Definition sql_value_and (x y : sql_value) : sql_value :=
  match x, y with
  | SqlBool false, _ | _, SqlBool false => SqlBool false
  | SqlBool true, SqlBool true => SqlBool true
  | _, _ => SqlNull
  end.

Fixpoint eval (row : column -> sql_value) (e : SQL) : sql_value :=
  match e with
  | sql_column c => row c
  | sql_param v => v
  | sql_eq a b => sql_value_eqb (eval row a) (eval row b)
  | sql_and a b => sql_value_and (eval row a) (eval row b)
  | sql_desc a => eval row a
  end.

(** A row is selected when its condition is true (not false, not null). *)
Definition holds (row : column -> sql_value) (e : SQL) : bool :=
  match eval row e with SqlBool true => true | _ => false end.

(** Ascending order of values: false before true, text by code point,
    null last. *)
Definition sql_leb (x y : sql_value) : bool :=
  match x, y with
  | _, SqlNull => true
  | SqlNull, _ => false
  | SqlBool a, SqlBool b => implb a b
  | SqlText a, SqlText b => String.leb a b
  | SqlBool _, SqlText _ => true
  | SqlText _, SqlBool _ => false
  end.

(** [ORDER BY e] is ascending, [ORDER BY desc(e)] descending. *)
Definition order_leb (orderBy : SQL) (kx ky : sql_value) : bool :=
  match orderBy with
  | sql_desc _ => sql_leb ky kx
  | _ => sql_leb kx ky
  end.

Section Sorting.
Variable Row : Type.
Variable leb : Row -> Row -> bool.

Fixpoint insert_sorted (x : Row) (l : list Row) : list Row :=
  match l with
  | [] => [x]
  | y :: l' => if leb x y then x :: l else y :: insert_sorted x l'
  end.

Definition sort_rows (l : list Row) : list Row :=
  fold_right insert_sorted [] l.
End Sorting.

(* ================================================================== *)
(** ** Outcomes *)

Inductive Error :=
| JsError (message : string)       (* throw new Error(message) *)
| TypeError                        (* property access on null or undefined *)
| QueryError                       (* the store rejects the statement *)
| UniqueViolation                  (* unique index on a uri column *)
| FetchError                       (* fetch or response.json() rejects *)
| ValidationError (message : string).

(** [Diverges] marks a computation that used up the bound given to a
    recursion the source does not bound; no [catch] handles it. *)
Inductive Outcome (A : Type) :=
| Ok (a : A)
| Throw (e : Error)
| Diverges.

Arguments Ok {A} a.
Arguments Throw {A} e.
Arguments Diverges {A}.

(** [SELECT * FROM t WHERE cond ORDER BY orderBy LIMIT limit] *)
Definition select {Row} (t : table) (cols : Row -> column -> sql_value)
    (rows : list Row) (cond : SQL) (orderBy : option SQL)
    (limit : option nat) : Outcome (list Row) :=
  if negb (in_scope t cond &&
           match orderBy with Some o => in_scope t o | None => true end)
  then Throw QueryError
  else
    let found := filter (fun r => holds (cols r) cond) rows in
    let sorted :=
      match orderBy with
      | Some o =>
          sort_rows (fun x y => order_leb o (eval (cols x) o) (eval (cols y) o))
                    found
      | None => found
      end in
    Ok (match limit with Some n => firstn n sorted | None => sorted end).

(* ================================================================== *)
(** ** Rows of the store *)

Inductive Visibility := public | unlisted | private | direct.

Record Endpoints := {
  ep_dislikes : string; ep_featured : string; ep_likes : string;
  ep_followers : string; ep_following : string;
  ep_inbox : string; ep_outbox : string }.

Module UserRow.
Record t := make {
  id : string;
  uri : option string;            (* null for a local user *)
  username : string;
  displayName : string;
  note : string;
  avatar : string;
  header : string;
  publicKey : string;
  isLocked : bool;
  instanceId : option string;     (* null for a local user *)
  endpoints : option Endpoints }.

Definition text_or_null (o : option string) : sql_value :=
  match o with Some s => SqlText s | None => SqlNull end.

Definition col (u : t) (c : column) : sql_value :=
  match c with
  | Users_id => SqlText (id u)
  | Users_uri => text_or_null (uri u)
  | Users_instanceId => text_or_null (instanceId u)
  | _ => SqlNull
  end.
End UserRow.

Module NoteRow.
Record t := make {
  id : string;
  uri : option string;            (* null for a local note *)
  authorId : string;
  content : string;
  contentSource : string;
  visibility : Visibility;
  sensitive : bool;
  spoilerText : string;
  replyId : option string;
  quotingId : option string }.

Definition col (n : t) (c : column) : sql_value :=
  match c with
  | Notes_id => SqlText (id n)
  | Notes_uri => UserRow.text_or_null (uri n)
  | Notes_authorId => SqlText (authorId n)
  | Notes_replyId => UserRow.text_or_null (replyId n)
  | _ => SqlNull
  end.
End NoteRow.

Module RelationshipRow.
Record t := make {
  id : string;
  ownerId : string;
  subjectId : string;
  following : bool;
  requested : bool;
  showingReblogs : bool;
  notifying : bool;
  muting : bool;
  endorsed : bool }.

Definition col (r : t) (c : column) : sql_value :=
  match c with
  | Relationships_id => SqlText (id r)
  | Relationships_ownerId => SqlText (ownerId r)
  | Relationships_subjectId => SqlText (subjectId r)
  | Relationships_following => SqlBool (following r)
  | _ => SqlNull
  end.
End RelationshipRow.

Inductive NotificationType := type_follow | type_follow_request | type_mention.

Module NotificationRow.
Record t := make {
  id : string;
  accountId : string;
  notifiedId : string;
  type : NotificationType;
  noteId : option string }.
End NotificationRow.

(** Effects that leave the process. *)
Inductive Event :=
| Fetch (uri : string)                       (* fetch(uri), GET *)
| Deliver (sender target : string)           (* fetch(federationRequest) *)
| FollowAccept (follower followee : string)  (* sendFollowAccept *)
| SearchIndex (userId : string).             (* addUserToMeilisearch *)

Record World := {
  users : list UserRow.t;
  notes : list NoteRow.t;
  noteToMentions : list (string * string);   (* noteId, userId *)
  relationships : list RelationshipRow.t;
  notifications : list NotificationRow.t;
  next_id : nat;
  trace : list Event }.

Definition set_users (f : list UserRow.t -> list UserRow.t) (w : World) :=
  {| users := f (users w); notes := notes w;
     noteToMentions := noteToMentions w; relationships := relationships w;
     notifications := notifications w; next_id := next_id w;
     trace := trace w |}.

Definition set_notes (f : list NoteRow.t -> list NoteRow.t) (w : World) :=
  {| users := users w; notes := f (notes w);
     noteToMentions := noteToMentions w; relationships := relationships w;
     notifications := notifications w; next_id := next_id w;
     trace := trace w |}.

Definition set_noteToMentions
    (f : list (string * string) -> list (string * string)) (w : World) :=
  {| users := users w; notes := notes w;
     noteToMentions := f (noteToMentions w);
     relationships := relationships w;
     notifications := notifications w; next_id := next_id w;
     trace := trace w |}.

Definition set_relationships
    (f : list RelationshipRow.t -> list RelationshipRow.t) (w : World) :=
  {| users := users w; notes := notes w;
     noteToMentions := noteToMentions w;
     relationships := f (relationships w);
     notifications := notifications w; next_id := next_id w;
     trace := trace w |}.

Definition set_notifications
    (f : list NotificationRow.t -> list NotificationRow.t) (w : World) :=
  {| users := users w; notes := notes w;
     noteToMentions := noteToMentions w; relationships := relationships w;
     notifications := f (notifications w); next_id := next_id w;
     trace := trace w |}.

Definition set_next_id (f : nat -> nat) (w : World) :=
  {| users := users w; notes := notes w;
     noteToMentions := noteToMentions w; relationships := relationships w;
     notifications := notifications w; next_id := f (next_id w);
     trace := trace w |}.

Definition set_trace (f : list Event -> list Event) (w : World) :=
  {| users := users w; notes := notes w;
     noteToMentions := noteToMentions w; relationships := relationships w;
     notifications := notifications w; next_id := next_id w;
     trace := f (trace w) |}.

(* ================================================================== *)
(** ** The monad of awaited code *)

Definition M (A : Type) : Type := World -> Outcome A * World.

Definition ret {A} (a : A) : M A := fun w => (Ok a, w).

Definition bind {A B} (m : M A) (k : A -> M B) : M B :=
  fun w =>
    match m w with
    | (Ok a, w') => k a w'
    | (Throw e, w') => (Throw e, w')
    | (Diverges, w') => (Diverges, w')
    end.

Definition throw {A} (e : Error) : M A := fun w => (Throw e, w).

Definition diverge {A} : M A := fun w => (Diverges, w).

(** [try { m } catch (e) { handler(e) }] *)
Definition try_catch {A} (m : M A) (handler : Error -> M A) : M A :=
  fun w =>
    match m w with
    | (Throw e, w') => handler e w'
    | r => r
    end.

(** A query reads the store and leaves the world as it is. *)
Definition query {A} (q : World -> Outcome A) : M A := fun w => (q w, w).

Definition modify (f : World -> World) : M unit := fun w => (Ok tt, f w).

Definition emit (e : Event) : M unit :=
  modify (set_trace (fun t => t ++ [e])).

Declare Scope monad_scope.
Delimit Scope monad_scope with monad.
Notation "x <- m ;; k" := (bind m (fun x => k))
  (at level 61, m at next level, right associativity) : monad_scope.
Notation "m ;;; k" := (bind m (fun _ => k))
  (at level 61, right associativity) : monad_scope.
Local Open Scope monad_scope.

(** [for (const x of xs) { await f(x) }] *)
Fixpoint for_each {A} (xs : list A) (f : A -> M unit) : M unit :=
  match xs with
  | [] => ret tt
  | x :: xs' => f x ;;; for_each xs' f
  end.

(** The calls of [f] on the elements, each awaited before the next one
    starts, and their results in the order of the array. *)
Fixpoint map_all {A B} (xs : list A) (f : A -> M B) : M (list B) :=
  match xs with
  | [] => ret []
  | x :: xs' => y <- f x ;; ys <- map_all xs' f ;; ret (y :: ys)
  end.

(* ================================================================== *)
(** ** Federation entities and the context of a call *)

(** [EntityValidator.$User] *)
Record UserEntity := {
  ue_uri : string;
  ue_username : string;
  ue_display_name : option string;
  ue_bio : string;                    (* getBestContentType(bio).content *)
  ue_avatar : option string;
  ue_header : option string;
  ue_public_key : string;
  ue_endpoints : Endpoints }.

(** [EntityValidator.$Note] *)
Record NoteEntity := {
  ne_type : string;
  ne_uri : string;
  ne_author : string;                 (* empty when absent *)
  ne_content : option string;
  ne_visibility : Visibility;
  ne_is_sensitive : option bool;
  ne_subject : option string;
  ne_mentions : list string;          (* empty when absent *)
  ne_replies_to : string;             (* empty when absent *)
  ne_quotes : string }.               (* empty when absent *)

(** The configuration ([config.http], [config.federation]) and the
    collaborators the engine calls: libraries and modules of the server
    that are outside this development.  Each field is named after what it
    stands for. *)
Record Env := {
  base_url : string;                  (* config.http.base_url *)
  blocked : list string;              (* config.federation.blocked *)
  bridge_enabled : bool;              (* config.federation.bridge.enabled *)
  bridge_token : string;              (* config.federation.bridge.token *)
  allowed_ips : list string;          (* config.federation.bridge.allowed_ips *)
  matches : string -> string -> bool; (* ip-matching: matches(ip, address) *)
  canParse : string -> bool;          (* URL.canParse *)
  (* uri.match(idValidator): the matched text, when there is a match *)
  match_idValidator : string -> option string;
  (* fetch(uri), response.json(), validator.User(json) and the fetches of
     the custom emojis of the user, or what they throw *)
  fetch_user : string -> Error + UserEntity;
  (* fetch(uri) and response.json() read as a note, or what they throw *)
  fetch_note : string -> Error + NoteEntity;
  (* SignatureValidator.fromStringKey(key).validate(request), false when
     the validation throws *)
  signature_valid :
    forall (publicKey signature date url body : string), bool;
  gen_id : nat -> string;             (* the ids the store gives new rows *)
  addInstanceIfNotExists : string -> string;   (* the id of the instance *)
  contentToHtml : string -> string;
  sanitizedHtmlStrip : string -> string;
  localObjectURI : string -> string;
  (* Promise.all over calls of User.resolve that can affect each other:
     the runtime starts every call before it awaits any, and the order in
     which it resumes them decides their results and what they write *)
  resolved_together : list string -> M (list (option UserRow.t));
  (* e.message of what the runtime, the store and fetch throw *)
  thrown_message : Error -> string }.

(* ================================================================== *)
(** ** Statements of the store *)

Module Db.

Definition uri_is (u : string) (o : option string) : bool :=
  match o with Some s => String.eqb s u | None => false end.

Definition uri_free {Row} (get : Row -> option string) (rows : list Row)
    (o : option string) : bool :=
  match o with
  | Some u => negb (existsb (fun r => uri_is u (get r)) rows)
  | None => true
  end.

(** Modelled from the spec: the schema ([drizzle/schema]) is not part of
    the sources at hand; a new row gets its id from the store, and "the
    store's uniqueness constraint on uri" refuses a second row with the
    uri of a stored one. *)
Definition insert_user (E : Env) (values : string -> UserRow.t)
  : M UserRow.t :=
  fun w =>
    let row := values (gen_id E (next_id w)) in
    if uri_free UserRow.uri (users w) (UserRow.uri row)
    then (Ok row, set_users (fun l => l ++ [row]) (set_next_id S w))
    else (Throw UniqueViolation, w).

(** Modelled from the spec: as [insert_user], for the table of notes. *)
Definition insert_note (E : Env) (values : string -> NoteRow.t)
  : M NoteRow.t :=
  fun w =>
    let row := values (gen_id E (next_id w)) in
    if uri_free NoteRow.uri (notes w) (NoteRow.uri row)
    then (Ok row, set_notes (fun l => l ++ [row]) (set_next_id S w))
    else (Throw UniqueViolation, w).

Definition insert_relationship (E : Env)
    (values : string -> RelationshipRow.t) : M RelationshipRow.t :=
  fun w =>
    let row := values (gen_id E (next_id w)) in
    (Ok row, set_relationships (fun l => l ++ [row]) (set_next_id S w)).

Definition insert_notification (E : Env)
    (values : string -> NotificationRow.t) : M unit :=
  fun w =>
    let row := values (gen_id E (next_id w)) in
    (Ok tt, set_notifications (fun l => l ++ [row]) (set_next_id S w)).

Definition insert_mention (noteId userId : string) : M unit :=
  modify (set_noteToMentions (fun l => l ++ [(noteId, userId)])).

Definition delete_mentions (noteId : string) : M unit :=
  modify (set_noteToMentions
            (filter (fun p => negb (String.eqb (fst p) noteId)))).

(** [UPDATE t SET ... WHERE cond RETURNING *]: the rows that match are
    rewritten in place; the rewritten rows are returned. *)
Definition update_rows {Row} (t : table) (cols : Row -> column -> sql_value)
    (cond : SQL) (set : Row -> Row) (rows : list Row)
  : option (list Row * list Row) :=
  if in_scope t cond
  then Some (map (fun r => if holds (cols r) cond then set r else r) rows,
             map set (filter (fun r => holds (cols r) cond) rows))
  else None.

(** [DELETE FROM t WHERE cond RETURNING *] *)
Definition delete_rows {Row} (t : table) (cols : Row -> column -> sql_value)
    (cond : SQL) (rows : list Row) : option (list Row * list Row) :=
  if in_scope t cond
  then Some (filter (fun r => negb (holds (cols r) cond)) rows,
             filter (fun r => holds (cols r) cond) rows)
  else None.

Definition update_users (cond : SQL) (set : UserRow.t -> UserRow.t)
  : M (list UserRow.t) :=
  fun w =>
    match update_rows Users UserRow.col cond set (users w) with
    | Some (rows, returning) => (Ok returning, set_users (fun _ => rows) w)
    | None => (Throw QueryError, w)
    end.

Definition update_notes (cond : SQL) (set : NoteRow.t -> NoteRow.t)
  : M (list NoteRow.t) :=
  fun w =>
    match update_rows Notes NoteRow.col cond set (notes w) with
    | Some (rows, returning) => (Ok returning, set_notes (fun _ => rows) w)
    | None => (Throw QueryError, w)
    end.

Definition update_relationships (cond : SQL)
    (set : RelationshipRow.t -> RelationshipRow.t)
  : M (list RelationshipRow.t) :=
  fun w =>
    match update_rows Relationships RelationshipRow.col cond set
            (relationships w) with
    | Some (rows, returning) =>
        (Ok returning, set_relationships (fun _ => rows) w)
    | None => (Throw QueryError, w)
    end.

Definition delete_users (cond : SQL) : M (list UserRow.t) :=
  fun w =>
    match delete_rows Users UserRow.col cond (users w) with
    | Some (rows, returning) => (Ok returning, set_users (fun _ => rows) w)
    | None => (Throw QueryError, w)
    end.

Definition delete_notes (cond : SQL) : M (list NoteRow.t) :=
  fun w =>
    match delete_rows Notes NoteRow.col cond (notes w) with
    | Some (rows, returning) => (Ok returning, set_notes (fun _ => rows) w)
    | None => (Throw QueryError, w)
    end.

End Db.

(** [eq(column, value)] with a text parameter. *)
Definition eq_text (c : column) (s : string) : SQL :=
  sql_eq (sql_column c) (sql_param (SqlText s)).

(** JavaScript truthiness of optional values. *)
Definition truthy_text (o : option string) : bool :=
  match o with Some s => Js.truthy s | None => false end.

Definition truthy_object {A} (o : option A) : bool :=
  match o with Some _ => true | None => false end.

(* ================================================================== *)
(** ** class User *)

Module User.

Definition t := UserRow.t.

(** [Partial<typeof Users.$inferSelect>], with the columns that the
    callers of [update] set. *)
Record Partial := {
  set_displayName : option string;
  set_note : option string;
  set_avatar : option string;
  set_header : option string;
  set_publicKey : option string;
  set_endpoints : option Endpoints }.

Definition or_keep {A} (o : option A) (old : A) : A :=
  match o with Some v => v | None => old end.

Definition apply_partial (data : Partial) (u : t) : t :=
  {| UserRow.id := UserRow.id u;
     UserRow.uri := UserRow.uri u;
     UserRow.username := UserRow.username u;
     UserRow.displayName := or_keep (set_displayName data) (UserRow.displayName u);
     UserRow.note := or_keep (set_note data) (UserRow.note u);
     UserRow.avatar := or_keep (set_avatar data) (UserRow.avatar u);
     UserRow.header := or_keep (set_header data) (UserRow.header u);
     UserRow.publicKey := or_keep (set_publicKey data) (UserRow.publicKey u);
     UserRow.isLocked := UserRow.isLocked u;
     UserRow.instanceId := UserRow.instanceId u;
     UserRow.endpoints :=
       match set_endpoints data with
       | Some e => Some e
       | None => UserRow.endpoints u
       end |}.

Definition default_order : SQL := sql_desc (sql_column Users_id).

(** Modelled from the spec: [findFirstUser] ([database/entities/User]) is
    not part of the sources at hand; the store is "consumed through
    defined read operations", here the first row of the selection. *)
Definition findFirstUser (cond orderBy : SQL) : M (option t) :=
  found <- query (fun w => select Users UserRow.col (users w) cond
                             (Some orderBy) (Some 1)) ;;
  ret (hd_error found).

Definition fromSql (sql orderBy : SQL) : M (option t) :=
  found <- findFirstUser sql orderBy ;;
  match found with
  | None => ret None
  | Some u => ret (Some u)
  end.

Definition fromId (id : option string) : M (option t) :=
  if negb (truthy_text id) then ret None
  else
    match id with
    | Some i => fromSql (eq_text Users_id i) default_order
    | None => ret None
    end.

Definition isLocal (this : t) : bool :=
  match UserRow.instanceId this with None => true | Some _ => false end.

Definition isRemote (this : t) : bool := negb (isLocal this).

Definition delete (this : t) : M (option t) :=
  deleted <- Db.delete_users (eq_text Users_id (UserRow.id this)) ;;
  ret (hd_error deleted).

(** [toLysand] builds the federated form of a local user; what the form
    holds is the row. *)
Definition toLysand (this : t) : M t :=
  if isRemote this
  then throw (JsError "Cannot convert remote user to Lysand format")
  else ret this.

(** The selection of [federateToFollowers]: remote users that own a
    relationship with [following = true] whose subject is [id], by
    descending id. *)
Definition remote_followers (id : string) (w : World) : list t :=
  sort_rows
    (fun x y => order_leb default_order (eval (UserRow.col x) default_order)
                                        (eval (UserRow.col y) default_order))
    (filter
       (fun u =>
          existsb (fun r =>
                     String.eqb (RelationshipRow.subjectId r) id &&
                     String.eqb (RelationshipRow.ownerId r) (UserRow.id u) &&
                     RelationshipRow.following r)
                  (relationships w)
          && negb (isLocal u))
       (users w)).

Definition federateToFollowers (this : t) (object : t) : M unit :=
  followers <- query (fun w => Ok (remote_followers (UserRow.id this) w)) ;;
  for_each followers
    (fun follower => emit (Deliver (UserRow.id this) (UserRow.id follower))).

Definition update (this : t) (data : Partial) : M t :=
  rows <- Db.update_users (eq_text Users_id (UserRow.id this))
            (apply_partial data) ;;
  match hd_error rows with
  | None => throw TypeError
  | Some updated =>
      newUser <- fromId (Some (UserRow.id updated)) ;;
      match newUser with
      | None => throw (JsError "User not found after update")
      | Some this' =>
          (* If something important is updated, federate it *)
          if truthy_text (set_displayName data) || truthy_text (set_note data)
             || truthy_text (set_avatar data) || truthy_text (set_header data)
             || truthy_text (set_publicKey data)
             || truthy_object (set_endpoints data)
          then object <- toLysand this' ;;
               federateToFollowers this' object ;;;
               ret this'
          else ret this'
      end
  end.

Definition unparsable (uri : string) : Error :=
  JsError ("URI " ++ uri ++ " is of a local user, but it could not be parsed").

Section WithEnv.
Variable E : Env.

Definition content_of (o : option string) : string :=
  match o with Some s => s | None => EmptyString end.

Definition saveFromRemote (uri : string) : M (option t) :=
  if negb (canParse E uri)
  then throw (JsError ("Invalid URI to parse " ++ uri))
  else
    emit (Fetch uri) ;;;
    match fetch_user E uri with
    | inl e => throw e
    | inr data =>
        let instance := addInstanceIfNotExists E (ue_uri data) in
        (* Check if new user already exists *)
        foundUser <- fromSql (eq_text Users_uri (ue_uri data))
                       default_order ;;
        match foundUser with
        | Some foundUser =>
            updated <- update foundUser
              {| set_displayName :=
                   Some (content_of (ue_display_name data));
                 set_note := Some (ue_bio data);
                 set_avatar := Some (content_of (ue_avatar data));
                 set_header := Some (content_of (ue_header data));
                 set_publicKey := Some (ue_public_key data);
                 set_endpoints := Some (ue_endpoints data) |} ;;
            ret (Some updated)
        | None =>
            newUser <- Db.insert_user E (fun id =>
              {| UserRow.id := id;
                 UserRow.uri := Some (ue_uri data);
                 UserRow.username := ue_username data;
                 UserRow.displayName := content_of (ue_display_name data);
                 UserRow.note := ue_bio data;
                 UserRow.avatar := content_of (ue_avatar data);
                 UserRow.header := content_of (ue_header data);
                 UserRow.publicKey := ue_public_key data;
                 UserRow.isLocked := false;
                 UserRow.instanceId := Some instance;
                 UserRow.endpoints := Some (ue_endpoints data) |}) ;;
            finalUser <- fromId (Some (UserRow.id newUser)) ;;
            match finalUser with
            | None => ret None
            | Some finalUser =>
                (* Add to Meilisearch *)
                emit (SearchIndex (UserRow.id finalUser)) ;;;
                ret (Some finalUser)
            end
        end
    end.

Definition resolve (uri : string) : M (option t) :=
  (* Check if user not already in database *)
  foundUser <- fromSql (eq_text Users_uri uri) default_order ;;
  match foundUser with
  | Some foundUser => ret (Some foundUser)
  | None =>
      (* Check if URI is of a local user *)
      if Js.startsWith uri (base_url E)
      then
        match match_idValidator E uri with
        | Some uuid =>
            if Js.truthy uuid then fromId (Some uuid)
            else throw (unparsable uri)
        | None => throw (unparsable uri)
        end
      else saveFromRemote uri
  end.

End WithEnv.

End User.

(* ================================================================== *)
(** ** Values of JavaScript that reach a condition *)

Inductive JsValue :=
| js_undefined
| js_null
| js_bool (b : bool)
| js_relationship (r : RelationshipRow.t)
| js_user (u : UserRow.t).

(** What a call hands to a condition: a value, or the promise of an async
    call that was not awaited, with the outcome the promise settles to. *)
Inductive Returned :=
| js_value (v : JsValue)
| js_promise (settled : Outcome JsValue).

(** [ToBoolean]: an object is true, and a promise is an object. *)
Definition ToBoolean (r : Returned) : bool :=
  match r with
  | js_value (js_undefined | js_null) => false
  | js_value (js_bool b) => b
  | js_value (js_relationship _ | js_user _) => true
  | js_promise _ => true
  end.

(* ================================================================== *)
(** ** class Note *)

Module Note.

(** [StatusWithRelations]: the row and its joined mentions.  The joined
    author is the row of [authorId]; of [getAuthor()] the class reads the
    id. *)
Record t := make { status : NoteRow.t; mentions : list UserRow.t }.

Definition id (this : t) : string := NoteRow.id (status this).

Definition getAuthor_id (this : t) : string := NoteRow.authorId (status this).

Definition default_order : SQL := sql_desc (sql_column Notes_id).

Definition joined_mentions (w : World) (noteId : string) : list UserRow.t :=
  flat_map
    (fun p =>
       if String.eqb (fst p) noteId
       then filter (fun u => String.eqb (UserRow.id u) (snd p)) (users w)
       else [])
    (noteToMentions w).

(** Modelled from the spec: [findManyNotes] ([database/entities/Status])
    is not part of the sources at hand; it reads the rows of the selection
    and joins the mentioned users.  [userId] only decorates the rows for
    their reader. *)
Definition findManyNotes (cond orderBy : SQL) (limit : option nat)
    (userId : option string) : M (list t) :=
  query (fun w =>
    match select Notes NoteRow.col (notes w) cond (Some orderBy) limit with
    | Ok rows =>
        Ok (map (fun r => make r (joined_mentions w (NoteRow.id r))) rows)
    | Throw e => Throw e
    | Diverges => Diverges
    end).

Definition or_default (orderBy : option SQL) : SQL :=
  match orderBy with Some o => o | None => default_order end.

Definition fromSql (sql : SQL) (orderBy : option SQL)
    (userId : option string) : M (option t) :=
  found <- findManyNotes sql (or_default orderBy) (Some 1) userId ;;
  match found with
  | [] => ret None
  | n :: _ => ret (Some n)
  end.

Definition manyFromSql (sql : SQL) (orderBy : option SQL)
    (limit : option nat) (userId : option string) : M (list t) :=
  findManyNotes sql (or_default orderBy) limit userId.

Definition fromId (id : option string) (userId : option string)
  : M (option t) :=
  if negb (truthy_text id) then ret None
  else
    match id with
    | Some i => fromSql (eq_text Notes_id i) None userId
    | None => ret None
    end.

Definition getReplyChildren (this : t) (userId : option string)
  : M (list t) :=
  manyFromSql (eq_text Notes_replyId (id this)) None None userId.

(** Modelled from the spec: [findManyUsers] ([database/entities/User]),
    which [User.manyFromSql] calls, is not part of the sources at hand; as
    [findFirstUser] it reads the rows of the selection.  Here the
    selections of [getUsersToFederateTo], by descending id: the users with
    [isNotNull(Users.instanceId)] that [p] selects.  The [with] of the
    second selection joins relationships to the rows it returns. *)
Definition remote_users (p : User.t -> bool) (w : World) : list User.t :=
  sort_rows
    (fun x y => order_leb User.default_order
                  (eval (UserRow.col x) User.default_order)
                  (eval (UserRow.col y) User.default_order))
    (filter (fun u => negb (User.isLocal u) && p u) (users w)).

(** [inArray(Users.id, ids)] *)
Definition inArray (ids : list string) (u : User.t) : bool :=
  existsb (String.eqb (UserRow.id u)) ids.

Definition getUsersToFederateTo (this : t) : M (list User.t) :=
  (* Mentioned users *)
  mentionedUsers <-
    (if Js.nonempty (mentions this)
     then query (fun w =>
            Ok (remote_users (inArray (map UserRow.id (mentions this))) w))
     else ret []) ;;
  usersThatCanSeePost <- query (fun w => Ok (remote_users (fun _ => true) w)) ;;
  let fusedUsers := mentionedUsers ++ usersThatCanSeePost in
  let deduplicatedUsersById :=
    Js.filter_indexed
      (fun user index =>
         match Js.findIndex
                 (fun t => String.eqb (UserRow.id t) (UserRow.id user))
                 fusedUsers with
         | Some found => Nat.eqb index found
         | None => false
         end)
      fusedUsers in
  ret deduplicatedUsersById.

Definition delete (this : t) : M (option NoteRow.t) :=
  deleted <- Db.delete_notes (eq_text Notes_id (id this)) ;;
  ret (hd_error deleted).

(** [Partial<Status>]: an absent field is not written. *)
Record Partial := {
  set_content : option string;
  set_contentSource : option string;
  set_visibility : option Visibility;
  set_sensitive : option bool;
  set_spoilerText : option string;
  set_replyId : option string;
  set_quotingId : option string }.

Definition or_keep_opt (o : option string) (old : option string)
  : option string :=
  match o with Some v => Some v | None => old end.

Definition apply_partial (p : Partial) (n : NoteRow.t) : NoteRow.t :=
  {| NoteRow.id := NoteRow.id n;
     NoteRow.uri := NoteRow.uri n;
     NoteRow.authorId := NoteRow.authorId n;
     NoteRow.content := User.or_keep (set_content p) (NoteRow.content n);
     NoteRow.contentSource :=
       User.or_keep (set_contentSource p) (NoteRow.contentSource n);
     NoteRow.visibility :=
       User.or_keep (set_visibility p) (NoteRow.visibility n);
     NoteRow.sensitive := User.or_keep (set_sensitive p) (NoteRow.sensitive n);
     NoteRow.spoilerText :=
       User.or_keep (set_spoilerText p) (NoteRow.spoilerText n);
     NoteRow.replyId := or_keep_opt (set_replyId p) (NoteRow.replyId n);
     NoteRow.quotingId := or_keep_opt (set_quotingId p) (NoteRow.quotingId n)
  |}.

Definition update (this : t) (newStatus : Partial)
  : M (option NoteRow.t) :=
  rows <- Db.update_notes (eq_text Notes_id (id this))
            (apply_partial newStatus) ;;
  ret (hd_error rows).

(** *** Visibility *)

(** The condition of the private branch:
    [and(eq(relationship.ownerId, user.id),
         eq(relationship.subjectId, Notes.authorId),
         eq(relationship.following, true))].
    The second operand of the middle [eq] is the column [authorId] of the
    table of notes, as in the join of [User.getActiveInPeriod]; it is not
    the id of the author of this note. *)
Definition follows_author (userId : string) : SQL :=
  sql_and (eq_text Relationships_ownerId userId)
    (sql_and (sql_eq (sql_column Relationships_subjectId)
                     (sql_column Notes_authorId))
             (sql_eq (sql_column Relationships_following)
                     (sql_param (SqlBool true)))).

(** The value an awaited [isViewableByUser] gives. *)
Definition isViewableByUser (this : t) (user : option User.t)
  : M JsValue :=
  if match user with
     | Some u => String.eqb (getAuthor_id this) (UserRow.id u)
     | None => false
     end
  then ret (js_bool true)
  else
    match NoteRow.visibility (status this) with
    | public => ret (js_bool true)
    | unlisted => ret (js_bool true)
    | private =>
        match user with
        | Some u =>
            (* db.query.Relationships.findFirst *)
            found <- query (fun w =>
              select Relationships RelationshipRow.col (relationships w)
                     (follows_author (UserRow.id u)) None (Some 1)) ;;
            match found with
            | r :: _ => ret (js_relationship r)
            | [] => ret js_undefined
            end
        | None => ret (js_bool false)
        end
    | direct =>
        match user with
        | Some u =>
            match Js.find (fun m => String.eqb (UserRow.id m) (UserRow.id u))
                          (mentions this) with
            | Some m => ret (js_user m)
            | None => ret js_undefined
            end
        | None => ret js_null
        end
    end.

(** What the callback of [filter] returns: the call of the async method
    is not awaited, the callback hands the promise to [filter]. *)
Definition isViewableByUser_promise (w : World) (this : t)
    (user : option User.t) : Returned :=
  js_promise (fst (isViewableByUser this user w)).

(** *** Threads *)

Definition fetcher_id (fetcher : option User.t) : option string :=
  match fetcher with Some u => Some (UserRow.id u) | None => None end.

(** The [while] loop of [getAncestors]; the source gives it no bound, here
    [fuel] bounds its iterations. *)
Fixpoint getAncestors_loop (fuel : nat) (currentStatus : t)
    (fetcher : option User.t) (ancestors : list t) : M (list t) :=
  match fuel with
  | O => diverge
  | S fuel' =>
      if truthy_text (NoteRow.replyId (status currentStatus))
      then
        parent <- fromId (NoteRow.replyId (status currentStatus))
                    (fetcher_id fetcher) ;;
        match parent with
        | None => ret ancestors
        | Some parent =>
            getAncestors_loop fuel' parent fetcher (ancestors ++ [parent])
        end
      else ret ancestors
  end.

Definition getAncestors (fuel : nat) (this : t) (fetcher : option User.t)
  : M (list t) :=
  ancestors <- getAncestors_loop fuel this fetcher [] ;;
  (* Filter for posts that are viewable by the user *)
  viewableAncestors <- query (fun w =>
    Ok (filter (fun ancestor =>
                  ToBoolean (isViewableByUser_promise w ancestor fetcher))
               ancestors)) ;;
  (* Reverse the order so that the oldest posts are first *)
  ret (rev viewableAncestors).

(** The [for] loop of [getDescendants] over the reply children: each child
    is pushed, then what [descend] finds below it. *)
Fixpoint getDescendants_loop (descend : t -> M (list t))
    (children : list t) : M (list t) :=
  match children with
  | [] => ret []
  | child :: rest =>
      childDescendants <- descend child ;;
      others <- getDescendants_loop descend rest ;;
      ret (child :: childDescendants ++ others)
  end.

(** [getDescendants(fetcher, depth)].  The recursion of the source ends
    because [depth] grows up to 20; [fuel] is the structural measure that
    carries this, [getDescendants] starts it high enough. *)
Fixpoint getDescendants_from (fuel : nat) (this : t)
    (fetcher : option User.t) (depth : nat) : M (list t) :=
  match fuel with
  | O => diverge
  | S fuel' =>
      children <- getReplyChildren this (fetcher_id fetcher) ;;
      descendants <-
        getDescendants_loop
          (fun child =>
             if Nat.ltb depth 20
             then getDescendants_from fuel' child fetcher (depth + 1)
             else ret [])
          children ;;
      (* Filter for posts that are viewable by the user *)
      query (fun w =>
        Ok (filter (fun descendant =>
                      ToBoolean (isViewableByUser_promise w descendant fetcher))
                   descendants))
  end.

Definition getDescendants (this : t) (fetcher : option User.t)
    (depth : nat) : M (list t) :=
  getDescendants_from (S (20 - depth)) this fetcher depth.

(** *** Creation and update *)

Definition unparsable (uri : string) : Error :=
  JsError ("URI " ++ uri ++ " is of a local note, but it could not be parsed").

Section WithEnv.
Variable E : Env.

Definition getURI (this : t) : string := localObjectURI E (id this).

Definition insert (values : string -> NoteRow.t) : M NoteRow.t :=
  Db.insert_note E values.

(** [uri || null] *)
Definition text_or_null (s : string) : option string :=
  if Js.truthy s then Some s else None.

(** [mention.id], where a mention may be null. *)
Definition mention_id (mention : option User.t) : M string :=
  match mention with
  | Some u => ret (UserRow.id u)
  | None => throw TypeError
  end.

Definition fromData (author : User.t) (content : string)
    (visibility : Visibility) (is_sensitive : bool) (spoiler_text : string)
    (uri : string) (mentions : list (option User.t))
    (replyId quoteId : option string) : M (option t) :=
  let htmlContent := contentToHtml E content in
  newNote <- insert (fun id =>
    {| NoteRow.id := id;
       NoteRow.uri := text_or_null uri;
       NoteRow.authorId := UserRow.id author;
       NoteRow.content := htmlContent;
       NoteRow.contentSource := content;
       NoteRow.visibility := visibility;
       NoteRow.sensitive := is_sensitive;
       NoteRow.spoilerText := sanitizedHtmlStrip E spoiler_text;
       NoteRow.replyId := replyId;
       NoteRow.quotingId := quoteId |}) ;;
  (* Connect mentions *)
  for_each mentions (fun mention =>
    userId <- mention_id mention ;;
    Db.insert_mention (NoteRow.id newNote) userId) ;;;
  (* Send notifications for mentioned local users *)
  for_each mentions (fun mention =>
    match mention with
    | None => throw TypeError
    | Some m =>
        if User.isLocal m
        then Db.insert_notification E (fun id =>
               {| NotificationRow.id := id;
                  NotificationRow.accountId := UserRow.id author;
                  NotificationRow.notifiedId := UserRow.id m;
                  NotificationRow.type := type_mention;
                  NotificationRow.noteId := Some (NoteRow.id newNote) |})
        else ret tt
    end) ;;;
  fromId (Some (NoteRow.id newNote)) (Some (NoteRow.authorId newNote)).

Definition updateFromData (this : t) (content : string)
    (visibility : Visibility) (is_sensitive : bool) (spoiler_text : string)
    (mentions : list (option User.t))
    (replyId quoteId : option string) : M (option t) :=
  let htmlContent := contentToHtml E content in
  newNote <- update this
    {| set_content := Some htmlContent;
       set_contentSource := Some content;
       set_visibility := Some visibility;
       set_sensitive := Some is_sensitive;
       set_spoilerText := Some spoiler_text;
       set_replyId := replyId;
       set_quotingId := quoteId |} ;;
  (* Connect mentions *)
  Db.delete_mentions (id this) ;;;
  for_each mentions (fun mention =>
    userId <- mention_id mention ;;
    Db.insert_mention (id this) userId) ;;;
  match newNote with
  | None => throw TypeError
  | Some newNote =>
      fromId (Some (NoteRow.id newNote)) (Some (NoteRow.authorId newNote))
  end.

(** The first lookup of [User.resolve] finds a stored user of the uri. *)
Definition stored_user (uri : string) (w : World) : bool :=
  match fst (User.fromSql (eq_text Users_uri uri) User.default_order w) with
  | Ok (Some _) => true
  | _ => false
  end.

(** [await Promise.all(mentions.map((mention) => User.resolve(mention)))]:
    every call is started before any is awaited.  When there is at most
    one call, or when every uri is that of a stored user, so that each call
    is one read of the store, the calls cannot affect each other and the
    result is that of the calls one after another.  Otherwise the result
    is what the runtime makes of them, [resolved_together]; whatever the
    order, calls of [User.resolve] write the table of users, take ids and
    leave events, and nothing else. *)
Definition resolve_all (uris : list string) : M (list (option User.t)) :=
  fun w =>
    if Nat.leb (List.length uris) 1
       || forallb (fun uri => stored_user uri w) uris
    then map_all uris (User.resolve E) w
    else
      let (result, w') := resolved_together E uris w in
      (result,
       {| users := users w'; notes := notes w;
          noteToMentions := noteToMentions w;
          relationships := relationships w;
          notifications := notifications w; next_id := next_id w';
          trace := trace w' |}).

(** [uri ?? providedNote?.uri ?? empty] *)
Definition lookup_uri (uri : option string)
    (providedNote : option NoteEntity) : string :=
  match uri, providedNote with
  | Some u, _ => u
  | None, Some n => ne_uri n
  | None, None => EmptyString
  end.

(** [target ? (await Note.resolve(target))?.getStatus().id : undefined] *)
Definition resolved_id
    (resolve : option string -> option NoteEntity -> M (option t))
    (target : string) : M (option string) :=
  if Js.truthy target
  then found <- resolve (Some target) None ;;
       ret (match found with Some n => Some (id n) | None => None end)
  else ret None.

(** [saveFromRemote], given the [Note.resolve] it calls for the reply
    and quote targets.  The loops over the attachments and the custom
    emojis of the note catch what they throw and write tables that are
    not part of [World]. *)
Definition saveFromRemote_with
    (resolve : option string -> option NoteEntity -> M (option t))
    (uri : option string) (providedNote : option NoteEntity)
  : M (option t) :=
  if negb (truthy_text uri) && negb (truthy_object providedNote)
  then throw (JsError "No URI or note provided")
  else
    foundStatus <- fromSql (eq_text Notes_uri (lookup_uri uri providedNote))
                     None None ;;
    note <-
      (if truthy_text uri
       then
         let u := User.content_of uri in
         if negb (canParse E u)
         then throw (JsError ("Invalid URI to parse " ++ u))
         else emit (Fetch u) ;;;
              match fetch_note E u with
              | inl e => throw e
              | inr fetched => ret (Some fetched)
              end
       else ret providedNote) ;;
    match note with
    | None => throw (JsError "No note was able to be fetched")
    | Some note =>
        if negb (String.eqb (ne_type note) "Note")
        then throw (JsError "Invalid object type")
        else if negb (Js.truthy (ne_author note))
        then throw (JsError "Invalid object author")
        else
          author <- User.resolve E (ne_author note) ;;
          match author with
          | None => throw (JsError "Invalid object author")
          | Some author =>
              let content := User.content_of (ne_content note) in
              let is_sensitive :=
                match ne_is_sensitive note with
                | Some b => b
                | None => false
                end in
              let subject := User.content_of (ne_subject note) in
              match foundStatus with
              | Some foundStatus =>
                  mentions <- resolve_all (ne_mentions note) ;;
                  replyId <- resolved_id resolve (ne_replies_to note) ;;
                  quoteId <- resolved_id resolve (ne_quotes note) ;;
                  updateFromData foundStatus content (ne_visibility note)
                    is_sensitive subject mentions replyId quoteId
              | None =>
                  mentions <- resolve_all (ne_mentions note) ;;
                  replyId <- resolved_id resolve (ne_replies_to note) ;;
                  quoteId <- resolved_id resolve (ne_quotes note) ;;
                  createdNote <- fromData author content
                    (ne_visibility note) is_sensitive subject (ne_uri note)
                    mentions replyId quoteId ;;
                  match createdNote with
                  | None => throw (JsError "Failed to create status")
                  | Some createdNote => ret (Some createdNote)
                  end
              end
          end
    end.

(** [resolve], given the [saveFromRemote] it ends with. *)
Definition resolve_with
    (saveFromRemote : option string -> option NoteEntity -> M (option t))
    (uri : option string) (providedNote : option NoteEntity)
  : M (option t) :=
  (* Check if note not already in database *)
  foundNote <-
    (if truthy_text uri
     then fromSql (eq_text Notes_uri (User.content_of uri)) None None
     else ret None) ;;
  match foundNote with
  | Some foundNote => ret (Some foundNote)
  | None =>
      (* Check if URI is of a local note *)
      if match uri with
         | Some u => Js.startsWith u (base_url E)
         | None => false
         end
      then
        let u := User.content_of uri in
        match match_idValidator E u with
        | Some uuid =>
            if Js.truthy uuid then fromId (Some uuid) None
            else throw (unparsable u)
        | None => throw (unparsable u)
        end
      else saveFromRemote uri providedNote
  end.

(** [Note.resolve] and [Note.saveFromRemote] call each other along the
    reply and quote targets of the fetched notes; the source gives this
    no bound, here [fuel] bounds the depth of the nested calls. *)
Fixpoint resolve (fuel : nat) (uri : option string)
    (providedNote : option NoteEntity) : M (option t) :=
  match fuel with
  | O => diverge
  | S fuel' =>
      resolve_with (saveFromRemote_with (resolve fuel')) uri providedNote
  end.

Definition saveFromRemote (fuel : nat) (uri : option string)
    (providedNote : option NoteEntity) : M (option t) :=
  saveFromRemote_with (resolve fuel) uri providedNote.

(** [isRemote] is async: [this.getAuthor().isRemote()], on the author
    the row is joined with. *)
Definition isRemote (this : t) : M JsValue :=
  author <- User.fromId (Some (getAuthor_id this)) ;;
  match author with
  | Some author => ret (js_bool (User.isRemote author))
  | None => throw TypeError
  end.

(** [if (!this.isRemote()) throw ...]: the condition negates the promise
    of the call, which is not awaited. *)
Definition updateFromRemote (fuel : nat) (this : t) : M t :=
  notRemote <- query (fun w =>
    Ok (negb (ToBoolean (js_promise (fst (isRemote this w)))))) ;;
  if (notRemote : bool)
  then throw (JsError "Cannot refetch a local note (it is not remote)")
  else
    updated <- saveFromRemote fuel (Some (getURI this)) None ;;
    match updated with
    | None => throw (JsError "Note not found after update")
    | Some updated => ret updated
    end.

End WithEnv.

End Note.

(* ================================================================== *)
(** ** The inbox route [/users/:uuid/inbox] *)

Module Inbox.

Inductive Response :=
| response (body : option string) (status : nat)
| errorResponse (error : string) (status : nat)
| jsonResponse (error message : string) (status : nat).

Definition status_of (r : Response) : nat :=
  match r with
  | response _ s | errorResponse _ s | jsonResponse _ _ s => s
  end.

(** The body, as [RequestParserHandler] reads it. *)
Inductive Entity :=
| Note_ (note : NoteEntity)
| Follow_ (author : string)
| FollowAccept_ (author : string)
| FollowReject_ (author : string)
| Undo_ (object : string)
| User_ (uri : string)
| Patch_ (patched_id : string)
| Other_                              (* an entity no callback is given for *)
| Invalid_ (message : string).        (* the validator refuses the body *)

Record Request := {
  uuid : string;                      (* param *)
  signature : string;                 (* headers *)
  date : string;
  authorization : option string;
  origin : string;
  url : string;
  text : string;                      (* the raw body *)
  body : Entity;
  request_ip : option string }.       (* context.env?.ip?.address *)

(** [(e as Error).message] *)
Definition message_of (E : Env) (e : Error) : string :=
  match e with
  | JsError m | ValidationError m => m
  | _ => thrown_message E e
  end.

(** Modelled from the spec: [getRelationshipToOtherUser]
    ([database/entities/User]) is not part of the sources at hand.  A
    relationship is "unique per (owner, subject)" and the Follow step
    "upserts" it: the row of the pair is read, and created with every flag
    unset when there is none. *)
Definition getRelationshipToOtherUser (E : Env) (owner subject : User.t)
  : M RelationshipRow.t :=
  found <- query (fun w =>
    select Relationships RelationshipRow.col (relationships w)
      (sql_and (eq_text Relationships_ownerId (UserRow.id owner))
               (eq_text Relationships_subjectId (UserRow.id subject)))
      None (Some 1)) ;;
  match found with
  | r :: _ => ret r
  | [] =>
      Db.insert_relationship E (fun id =>
        {| RelationshipRow.id := id;
           RelationshipRow.ownerId := UserRow.id owner;
           RelationshipRow.subjectId := UserRow.id subject;
           RelationshipRow.following := false;
           RelationshipRow.requested := false;
           RelationshipRow.showingReblogs := false;
           RelationshipRow.notifying := false;
           RelationshipRow.muting := false;
           RelationshipRow.endorsed := false |})
  end.

(** Modelled from the spec: [sendFollowAccept] ([database/entities/User])
    is not part of the sources at hand; it "triggers the Outbound
    Federator's accept", a delivery to the follower. *)
Definition sendFollowAccept (follower followee : User.t) : M unit :=
  emit (FollowAccept (UserRow.id follower) (UserRow.id followee)).

Definition invalid_token : string :=
  "An invalid token was passed in the Authorization header. Please use the correct token, or remove the Authorization header.".

Section WithEnv.
Variable E : Env.

(** [config.federation.blocked.find(...)], as the condition reads it: the
    condition is the entry that [find] returns, and an entry is truthy
    when it is not the empty string. *)
Definition origin_blocked (origin : string) : bool :=
  truthy_text
    (Js.find (fun blocked =>
                Js.includes blocked origin || Js.includes origin blocked)
             (blocked E)).

(** [authorization?.split(prefix)[1]], the prefix being the word Bearer
    and a space. *)
Definition bearer_token (authorization : option string) : option string :=
  match authorization with
  | Some a => nth_error (Js.split a "Bearer ") 1
  | None => None
  end.

(** The [for] loop over [allowed_ips], with its [break]. *)
Fixpoint allowed_ips_loop (ips : list string) (address : string)
    (checkSignature : bool) : bool :=
  match ips with
  | [] => checkSignature
  | ip :: rest =>
      if matches E ip address then false
      else allowed_ips_loop rest address checkSignature
  end.

Inductive Bridge :=
| bridge_return (r : Response)
| bridge_continue (checkSignature : bool).

Definition bridge (req : Request) : Bridge :=
  let checkSignature := true in
  if bridge_enabled E
  then
    let token := bearer_token (authorization req) in
    if truthy_text token
    then
      (* Request is bridge request *)
      if negb (String.eqb (User.content_of token) (bridge_token E))
      then bridge_return (errorResponse invalid_token 401)
      else
        if truthy_text (request_ip req)
        then
          let address := User.content_of (request_ip req) in
          let checkSignature :=
            if Js.nonempty (allowed_ips E) then false else checkSignature in
          bridge_continue
            (allowed_ips_loop (allowed_ips E) address checkSignature)
        else bridge_return (errorResponse
               "Request IP address is not available" 500)
    else bridge_continue checkSignature
  else bridge_continue checkSignature.

(** [signature.split(k)[1].split(comma)[0]] without its double quotes,
    [k] being the text [keyId=]. *)
Definition keyId_of (signature : string) : M string :=
  match nth_error (Js.split signature "keyId=") 1 with
  | None => throw TypeError
  | Some rest =>
      match Js.split rest "," with
      | first :: _ => ret (Js.strip_dquotes first)
      | [] => throw TypeError
      end
  end.

(** Verify request signature: [None] when the request goes on.  The
    rewriting of the protocol of the URL is part of [signature_valid]. *)
Definition verify_signature (req : Request) : M (option Response) :=
  keyId <- keyId_of (signature req) ;;
  sender <- User.resolve E keyId ;;
  match sender with
  | None => ret (Some (errorResponse "Could not resolve keyId" 400))
  | Some sender =>
      let isValid :=
        signature_valid E (UserRow.publicKey sender) (signature req)
          (date req) (url req) (text req) in
      if negb isValid
      then ret (Some (errorResponse "Invalid signature" 400))
      else ret None
  end.

Definition on_note (fuel : nat) (user : User.t) (note : NoteEntity)
  : M Response :=
  account <- User.resolve E (ne_author note) ;;
  match account with
  | None => ret (errorResponse "Author not found" 404)
  | Some account =>
      newStatus <- try_catch (Note.resolve E fuel None (Some note))
                     (fun e => ret None) ;;
      match newStatus with
      | None => ret (errorResponse "Failed to add status" 500)
      | Some _ => ret (response (Some "Note created") 201)
      end
  end.

Definition on_follow (user : User.t) (author : string) : M Response :=
  account <- User.resolve E author ;;
  match account with
  | None => ret (errorResponse "Author not found" 400)
  | Some account =>
      foundRelationship <- getRelationshipToOtherUser E account user ;;
      if RelationshipRow.following foundRelationship
      then ret (response (Some "Already following") 200)
      else
        Db.update_relationships
          (eq_text Relationships_id (RelationshipRow.id foundRelationship))
          (fun r =>
             {| RelationshipRow.id := RelationshipRow.id r;
                RelationshipRow.ownerId := RelationshipRow.ownerId r;
                RelationshipRow.subjectId := RelationshipRow.subjectId r;
                RelationshipRow.following := negb (UserRow.isLocked user);
                RelationshipRow.requested := UserRow.isLocked user;
                RelationshipRow.showingReblogs := true;
                RelationshipRow.notifying := true;
                RelationshipRow.muting := RelationshipRow.muting r;
                RelationshipRow.endorsed := RelationshipRow.endorsed r |}) ;;;
        Db.insert_notification E (fun id =>
          {| NotificationRow.id := id;
             NotificationRow.accountId := UserRow.id account;
             NotificationRow.type :=
               if UserRow.isLocked user then type_follow_request
               else type_follow;
             NotificationRow.notifiedId := UserRow.id user;
             NotificationRow.noteId := None |}) ;;;
        (if negb (UserRow.isLocked user)
         then sendFollowAccept account user
         else ret tt) ;;;
        ret (response (Some "Follow request sent") 200)
  end.

(** [followAccept] and [followReject] differ in the flag they set and in
    their messages. *)
Definition on_follow_answer (accept : bool) (user : User.t)
    (author : string) : M Response :=
  account <- User.resolve E author ;;
  match account with
  | None => ret (errorResponse "Author not found" 400)
  | Some account =>
      foundRelationship <- getRelationshipToOtherUser E user account ;;
      if negb (RelationshipRow.requested foundRelationship)
      then ret (response
             (Some (if accept then "There is no follow request to accept"
                    else "There is no follow request to reject")) 200)
      else
        Db.update_relationships
          (eq_text Relationships_id (RelationshipRow.id foundRelationship))
          (fun r =>
             {| RelationshipRow.id := RelationshipRow.id r;
                RelationshipRow.ownerId := RelationshipRow.ownerId r;
                RelationshipRow.subjectId := RelationshipRow.subjectId r;
                RelationshipRow.following := accept;
                RelationshipRow.requested := false;
                RelationshipRow.showingReblogs :=
                  RelationshipRow.showingReblogs r;
                RelationshipRow.notifying := RelationshipRow.notifying r;
                RelationshipRow.muting := RelationshipRow.muting r;
                RelationshipRow.endorsed := RelationshipRow.endorsed r |}) ;;;
        ret (response
               (Some (if accept then "Follow request accepted"
                      else "Follow request rejected")) 200)
  end.

Definition on_undo (user : User.t) (toDelete : string) : M Response :=
  (* Delete the specified object from database, if it exists and belongs
     to the user *)
  (* Note: the second argument of Note.fromSql is its orderBy *)
  note <- Note.fromSql (eq_text Notes_uri toDelete)
            (Some (eq_text Notes_authorId (UserRow.id user))) None ;;
  match note with
  | Some note =>
      Note.delete note ;;;
      ret (response (Some "Note deleted") 200)
  | None =>
      (* User *)
      otherUser <- User.resolve E toDelete ;;
      match otherUser with
      | Some otherUser =>
          if String.eqb (UserRow.id otherUser) (UserRow.id user)
          then
            (* Delete own account *)
            User.delete user ;;;
            ret (response (Some "Account deleted") 200)
          else ret (errorResponse "Cannot delete other users than self" 400)
      | None =>
          ret (errorResponse
                 ("Deletion of object " ++ toDelete ++ " not implemented")
                 400)
      end
  end.

Definition on_user (uri : string) : M Response :=
  (* Refetch user to ensure we have the latest data *)
  updatedAccount <- User.saveFromRemote E uri ;;
  match updatedAccount with
  | None => ret (errorResponse "Failed to update user" 500)
  | Some _ => ret (response (Some "User refreshed") 200)
  end.

Definition on_patch (fuel : nat) (user : User.t) (toPatch : string)
  : M Response :=
  note <- Note.fromSql (eq_text Notes_uri toPatch)
            (Some (eq_text Notes_authorId (UserRow.id user))) None ;;
  match note with
  | None => ret (errorResponse "Note not found" 404)
  | Some note =>
      Note.updateFromRemote E fuel note ;;;
      ret (response (Some "Note updated") 200)
  end.

(** Modelled from the spec: [RequestParserHandler.parseBody]
    ([packages/lysand-api/federation]) is not part of the sources at
    hand.  The body is "one JSON object discriminated by a type field";
    the callback of its kind is called on the validated entity, a body
    the validator refuses throws its validation error, and a kind
    without callback gives no result. *)
Definition parseBody (fuel : nat) (user : User.t) (entity : Entity)
  : M (option Response) :=
  match entity with
  | Note_ note => r <- on_note fuel user note ;; ret (Some r)
  | Follow_ author => r <- on_follow user author ;; ret (Some r)
  | FollowAccept_ author =>
      r <- on_follow_answer true user author ;; ret (Some r)
  | FollowReject_ author =>
      r <- on_follow_answer false user author ;; ret (Some r)
  | Undo_ object => r <- on_undo user object ;; ret (Some r)
  | User_ uri => r <- on_user uri ;; ret (Some r)
  | Patch_ patched_id => r <- on_patch fuel user patched_id ;; ret (Some r)
  | Other_ => ret None
  | Invalid_ message => throw (ValidationError message)
  end.

(** The [try] block of the handler and its [catch]. *)
Definition dispatch (fuel : nat) (user : User.t) (entity : Entity)
  : M Response :=
  try_catch
    (result <- parseBody fuel user entity ;;
     match result with
     | Some result => ret result
     | None => ret (errorResponse "Object has not been implemented" 400)
     end)
    (fun e =>
       match e with
       | ValidationError message => ret (errorResponse message 400)
       | _ => ret (jsonResponse "Failed to process request"
                     (message_of E e) 500)
       end).

(** The bridge check and the signature check: [None] when the request
    goes on to the dispatch. *)
Definition authenticate (req : Request) : M (option Response) :=
  match bridge req with
  | bridge_return r => ret (Some r)
  | bridge_continue checkSignature =>
      if checkSignature then verify_signature req else ret None
  end.

(** The handler.  An outcome [Throw] is an exception that leaves it.
    With [config.debug.federation] the handler also logs the request. *)
Definition inbox (fuel : nat) (req : Request) : M Response :=
  (* Check if Origin is defederated *)
  if origin_blocked (origin req)
  then
    (* Pretend to accept request *)
    ret (response None 201)
  else
    user <- User.fromId (Some (uuid req)) ;;
    match user with
    | None => ret (errorResponse "User not found" 404)
    | Some user =>
        refused <- authenticate req ;;
        match refused with
        | Some r => ret r
        | None => dispatch fuel user (body req)
        end
    end.

End WithEnv.

End Inbox.

(* ================================================================== *)
(** ** Notions the statements use *)

(** The rows of a table of notes that carry the uri [u]. *)
Definition rows_with_uri (u : string) (rows : list NoteRow.t)
  : list NoteRow.t :=
  filter (fun r => Db.uri_is u (NoteRow.uri r)) rows.

(** [reply_path w a k n]: the row [n] is [k] reply links below the note of
    id [a], along rows of the store [w]. *)
Inductive reply_path (w : World) (a : string) : nat -> NoteRow.t -> Prop :=
| reply_child n :
    In n (notes w) -> NoteRow.replyId n = Some a -> reply_path w a 1 n
| reply_below k m n :
    reply_path w a k m -> In n (notes w) ->
    NoteRow.replyId n = Some (NoteRow.id m) -> reply_path w a (S k) n.

(** The relationship row [getRelationshipToOtherUser] reads for a pair. *)
Definition relationship_of (w : World) (owner subject : string)
  : option RelationshipRow.t :=
  hd_error
    (filter (fun r => String.eqb (RelationshipRow.ownerId r) owner &&
                      String.eqb (RelationshipRow.subjectId r) subject)
            (relationships w)).

(** A computation keeps a property of the table of notes. *)
Definition keeps_notes {A} (Q : list NoteRow.t -> Prop) (m : M A) : Prop :=
  forall w o w', Q (notes w) -> m w = (o, w') -> Q (notes w').

(** A computation only reads: it leaves the world as it found it. *)
Definition reads_only {A} (m : M A) : Prop :=
  forall w, snd (m w) = w.

(** A request the handler lets through to the dispatch in the world [w]: its
    origin is not silenced, the inbox is the inbox of [user], and the
    bridge and signature checks let it pass and write nothing. *)
Definition authenticated (E : Env) (req : Inbox.Request) (w : World)
    (user : User.t) : Prop :=
  Inbox.origin_blocked E (Inbox.origin req) = false /\
  fst (User.fromId (Some (Inbox.uuid req)) w) = Ok (Some user) /\
  Inbox.authenticate E req w = (Ok None, w).

(** [actor] is the stored actor of the uri. *)
Definition known_actor (w : World) (uri : string) (actor : User.t) : Prop :=
  fst (User.fromSql (eq_text Users_uri uri) User.default_order w)
  = Ok (Some actor).

Definition pair_is (owner subject : string) (r : RelationshipRow.t) : bool :=
  String.eqb (RelationshipRow.ownerId r) owner &&
  String.eqb (RelationshipRow.subjectId r) subject.

(** What the Follow branch writes on the relationship it found. *)
Definition accept_follow (user : User.t) (r : RelationshipRow.t)
  : RelationshipRow.t :=
  RelationshipRow.make (RelationshipRow.id r) (RelationshipRow.ownerId r)
    (RelationshipRow.subjectId r) (negb (UserRow.isLocked user))
    (UserRow.isLocked user) true true (RelationshipRow.muting r)
    (RelationshipRow.endorsed r).

(** The table holds one row of uri [u], and its id is [i]. *)
Definition the_row (u i : string) (ns : list NoteRow.t) : Prop :=
  exists r, rows_with_uri u ns = [r] /\ NoteRow.id r = i.

(** Properties of the table that an insertion the store accepts, and an
    update of the mutable fields, leave standing. *)
Definition insert_closed (Q : list NoteRow.t -> Prop) : Prop :=
  forall ns row, Q ns ->
    Db.uri_free NoteRow.uri ns (NoteRow.uri row) = true -> Q (ns ++ [row]).

Definition update_closed (Q : list NoteRow.t -> Prop) : Prop :=
  forall ns cond p, Q ns ->
    Q (map (fun r => if holds (NoteRow.col r) cond
                     then Note.apply_partial p r else r) ns).

(** The store of [w'] is the store of [w]: the worlds differ at most in
    the trace of what left the process. *)
Definition same_store (w w' : World) : Prop :=
  users w' = users w /\ notes w' = notes w /\
  noteToMentions w' = noteToMentions w /\
  relationships w' = relationships w /\
  notifications w' = notifications w /\ next_id w' = next_id w.

(** [parents w c ps]: the notes [ps] are the note [c] replies to, the one
    that one replies to, and so on, rows of the store [w]. *)
Inductive parents (w : World) : NoteRow.t -> list Note.t -> Prop :=
| parents_nil c : parents w c []
| parents_cons c p more :
    In (Note.status p) (notes w) ->
    NoteRow.replyId c = Some (Note.id p) ->
    parents w (Note.status p) more -> parents w c (p :: more).

(** What [User.saveFromRemote] writes on the row of a user it finds. *)
Definition refreshed (data : UserEntity) (u : User.t) : User.t :=
  User.apply_partial
    {| User.set_displayName :=
         Some (User.content_of (ue_display_name data));
       User.set_note := Some (ue_bio data);
       User.set_avatar := Some (User.content_of (ue_avatar data));
       User.set_header := Some (User.content_of (ue_header data));
       User.set_publicKey := Some (ue_public_key data);
       User.set_endpoints := Some (ue_endpoints data) |} u.

(** What the FollowAccept and FollowReject branches write on the
    relationship they found. *)
Definition answer_follow (accept : bool) (r : RelationshipRow.t)
  : RelationshipRow.t :=
  RelationshipRow.make (RelationshipRow.id r) (RelationshipRow.ownerId r)
    (RelationshipRow.subjectId r) accept false
    (RelationshipRow.showingReblogs r) (RelationshipRow.notifying r)
    (RelationshipRow.muting r) (RelationshipRow.endorsed r).

(** The body of the loop of [Note.fromData] that notifies the mentioned
    local users. *)
Definition mention_notification (E : Env) (author : User.t) (noteId : string)
    (mention : option User.t) : M unit :=
  match mention with
  | None => throw TypeError
  | Some m =>
      if User.isLocal m
      then Db.insert_notification E (fun id =>
             {| NotificationRow.id := id;
                NotificationRow.accountId := UserRow.id author;
                NotificationRow.notifiedId := UserRow.id m;
                NotificationRow.type := type_mention;
                NotificationRow.noteId := Some noteId |})
      else ret tt
  end.

(** The callback of the deduplication of [getUsersToFederateTo]: the index
    is the first one of a user with this id. *)
Definition first_of_its_id (xs : list UserRow.t) (user : UserRow.t)
    (index : nat) : bool :=
  match Js.findIndex (fun t => String.eqb (UserRow.id t) (UserRow.id user)) xs
  with
  | Some found => Nat.eqb index found
  | None => false
  end.

(** The origin matches the entry of the block-list, as the handler
    compares them: one of the two texts includes the other. *)
Definition origin_matches (origin entry : string) : bool :=
  Js.includes entry origin || Js.includes origin entry.

(** In the words of the specification, "URI origin matches own base
    URL": the origin of a URL is its scheme, host and port, without regard
    to the case of the letters; here the text before the first slash that
    follows the [://], in lower case. *)
Definition lower (c : ascii) : ascii :=
  let n := nat_of_ascii c in
  if Nat.leb 65 n && Nat.leb n 90 then ascii_of_nat (n + 32) else c.

Fixpoint lower_case (s : string) : string :=
  match s with
  | EmptyString => EmptyString
  | String c s' => String (lower c) (lower_case s')
  end.

Fixpoint before_slash (s : string) : string :=
  match s with
  | EmptyString => EmptyString
  | String c s' =>
      if Ascii.eqb c "/" then EmptyString else String c (before_slash s')
  end.

Definition url_origin (url : string) : string :=
  match Js.split url "://" with
  | scheme :: rest :: _ => lower_case (scheme ++ "://" ++ before_slash rest)
  | _ => lower_case url
  end.

Definition same_origin (uri base : string) : bool :=
  String.eqb (url_origin uri) (url_origin base).

(** In the words of the specification, "parse trailing path segment as
    the fixed local-ID syntax": the segment is what follows the last
    slash, and it is the id when it has the syntax [local_id]. *)
Definition trailing_segment (uri : string) : string :=
  last (Js.split uri "/") EmptyString.

Definition trailing_id (local_id : string -> bool) (uri : string)
  : option string :=
  if local_id (trailing_segment uri) then Some (trailing_segment uri)
  else None.

(** A payload that is saved without a further fetch: a note whose author
    and whose mentions are stored actors, and that names no note it
    replies to or quotes. *)
Definition plain_payload (w : World) (p : NoteEntity) : Prop :=
  ne_type p = "Note" /\ Js.truthy (ne_author p) = true /\
  (exists author, known_actor w (ne_author p) author) /\
  (forall m, In m (ne_mentions p) -> exists a, known_actor w m a) /\
  ne_replies_to p = EmptyString /\ ne_quotes p = EmptyString.

(* ================================================================== *)
(** ** Scenarios *)

Module Scenario.

Definition decimal (n : nat) : string :=
  NilEmpty.string_of_uint (Nat.to_uint n).

Definition a_user (id : string) (uri instance : option string)
    (key : string) (locked : bool) : UserRow.t :=
  {| UserRow.id := id; UserRow.uri := uri; UserRow.username := id;
     UserRow.displayName := id; UserRow.note := EmptyString;
     UserRow.avatar := EmptyString; UserRow.header := EmptyString;
     UserRow.publicKey := key; UserRow.isLocked := locked;
     UserRow.instanceId := instance; UserRow.endpoints := None |}.

Definition a_note (id : string) (uri : option string) (author : string)
    (v : Visibility) (reply : option string) : NoteRow.t :=
  {| NoteRow.id := id; NoteRow.uri := uri; NoteRow.authorId := author;
     NoteRow.content := "hello"; NoteRow.contentSource := "hello";
     NoteRow.visibility := v; NoteRow.sensitive := false;
     NoteRow.spoilerText := EmptyString;
     NoteRow.replyId := reply; NoteRow.quotingId := None |}.

Definition no_notes : string -> Error + NoteEntity :=
  fun _ => inl FetchError.

(** A server at [https://lysand.example].  Its stand-ins: an id is what
    follows [/users/] in a uri, an address matches an entry it is equal
    to, and a signature is valid when it holds the key of its signer.  No
    scenario has mentions whose resolutions run together and can affect
    each other; the stand-in for them is a refusal of the store. *)
Definition env (blocked_origins : list string) (bridge : bool)
    (ips : list string) (remote_notes : string -> Error + NoteEntity)
  : Env :=
  {| base_url := "https://lysand.example";
     blocked := blocked_origins;
     bridge_enabled := bridge;
     bridge_token := "secret";
     allowed_ips := ips;
     matches := String.eqb;
     canParse := fun _ => true;
     match_idValidator := fun uri => nth_error (Js.split uri "/users/") 1;
     fetch_user := fun _ => inl FetchError;
     fetch_note := remote_notes;
     signature_valid := fun key signature _ _ _ => Js.includes signature key;
     gen_id := fun n => ("id-" ++ decimal n)%string;
     addInstanceIfNotExists := fun _ => "instance-1";
     contentToHtml := fun s => s;
     sanitizedHtmlStrip := fun s => s;
     localObjectURI :=
       fun id => ("https://lysand.example/objects/" ++ id)%string;
     resolved_together := fun _ => throw UniqueViolation;
     thrown_message :=
       fun e =>
         match e with
         | JsError m | ValidationError m => m
         | TypeError => "undefined is not an object"
         | QueryError => "syntax error in the statement"
         | UniqueViolation => "duplicate key value violates unique constraint"
         | FetchError => "fetch failed"
         end |}.

Definition alice : UserRow.t :=
  a_user "alice" None None "key-alice" false.
Definition bob : UserRow.t :=
  a_user "bob" (Some "https://remote.example/users/bob")
         (Some "instance-1") "key-bob" false.
Definition carol : UserRow.t :=
  a_user "carol" (Some "https://remote.example/users/carol")
         (Some "instance-1") "key-carol" false.

Definition world (us : list UserRow.t) (ns : list NoteRow.t)
    (ms : list (string * string)) (rs : list RelationshipRow.t) : World :=
  {| users := us; notes := ns; noteToMentions := ms; relationships := rs;
     notifications := []; next_id := 0; trace := [] |}.

(** A request to the inbox of alice. *)
Definition request (origin : string) (authorization : option string)
    (signature : string) (ip : option string) (body : Inbox.Entity)
  : Inbox.Request :=
  {| Inbox.uuid := "alice"; Inbox.signature := signature;
     Inbox.date := "Tue, 03 Nov 2026 10:00:00 GMT";
     Inbox.authorization := authorization; Inbox.origin := origin;
     Inbox.url := "https://lysand.example/users/alice/inbox";
     Inbox.text := "{}"; Inbox.body := body; Inbox.request_ip := ip |}.

Definition signed_by_bob : string :=
  "keyId=https://remote.example/users/bob,signature=key-bob".

Definition bob_follows : Inbox.Entity :=
  Inbox.Follow_ "https://remote.example/users/bob".

(** Bridge with the allow-list of one address; the caller is elsewhere,
    presents the token and no signature. *)
Definition bridge_env : Env := env [] true ["10.0.0.1"] no_notes.
Definition bridge_request : Inbox.Request :=
  request "https://remote.example" (Some "Bearer secret") "unsigned"
          (Some "203.0.113.9") bob_follows.

(** A blocked origin that presents a wrong bridge token. *)
Definition blocking_env : Env := env ["spam.example"] true [] no_notes.
Definition blocked_request : Inbox.Request :=
  request "https://spam.example" (Some "Bearer wrong") "unsigned"
          (Some "203.0.113.9") bob_follows.
Definition wrong_token_request : Inbox.Request :=
  request "https://remote.example" (Some "Bearer wrong") "unsigned"
          (Some "203.0.113.9") bob_follows.

(** A Follow that bob signs. *)
Definition signed_follow : Inbox.Request :=
  request "https://remote.example" None signed_by_bob None bob_follows.

(** An Undo, signed by bob and sent to the inbox of alice, of a note that
    carol wrote. *)
Definition plain_env : Env := env [] false [] no_notes.
Definition carols_note : NoteRow.t :=
  a_note "n1" (Some "https://remote.example/notes/1") "carol" public None.
Definition undo_carols_note : Inbox.Request :=
  request "https://remote.example" None signed_by_bob None
          (Inbox.Undo_ "https://remote.example/notes/1").
Definition undo_alice : Inbox.Request :=
  request "https://remote.example" None signed_by_bob None
          (Inbox.Undo_ "https://lysand.example/users/alice").

(** A private note of alice, and bob who follows her. *)
Definition bob_follows_alice : RelationshipRow.t :=
  {| RelationshipRow.id := "r1"; RelationshipRow.ownerId := "bob";
     RelationshipRow.subjectId := "alice"; RelationshipRow.following := true;
     RelationshipRow.requested := false;
     RelationshipRow.showingReblogs := true;
     RelationshipRow.notifying := false; RelationshipRow.muting := false;
     RelationshipRow.endorsed := false |}.
Definition private_note : Note.t :=
  Note.make (a_note "p1" None "alice" private None) [].
Definition followers_world : World :=
  world [alice; bob] [Note.status private_note] [] [bob_follows_alice].

(** A thread: a private note of alice, the public reply of bob, the
    private reply of carol to bob. *)
Definition thread_top : NoteRow.t := a_note "t0" None "alice" private None.
Definition thread_mid : NoteRow.t :=
  a_note "t1" None "bob" public (Some "t0").
Definition thread_end : NoteRow.t :=
  a_note "t2" None "carol" private (Some "t1").
Definition thread_world : World :=
  world [alice; bob; carol] [thread_top; thread_mid; thread_end] [] [].

(** A linear chain of replies: the note [k] replies to the note [k - 1]. *)
Definition chain_id (k : nat) : string := ("n" ++ decimal k)%string.
Definition chain_note (k : nat) : NoteRow.t :=
  a_note (chain_id k) None "alice" public
         (match k with O => None | S j => Some (chain_id j) end).
Definition chain_world (n : nat) : World :=
  world [alice] (map chain_note (seq 0 (S n))) [] [].
Definition chain_root : Note.t := Note.make (chain_note 0) [].

(** A remote note of bob, served first with one content, then another. *)
Definition note_uri : string := "https://remote.example/notes/1".
Definition served (content : string) : NoteEntity :=
  {| ne_type := "Note"; ne_uri := note_uri;
     ne_author := "https://remote.example/users/bob";
     ne_content := Some content; ne_visibility := public;
     ne_is_sensitive := None; ne_subject := None; ne_mentions := [];
     ne_replies_to := EmptyString; ne_quotes := EmptyString |}.
Definition serving (content : string) : Env :=
  env [] false []
      (fun uri => if String.eqb uri note_uri then inr (served content)
                  else inl FetchError).
Definition before_resolution : World := world [alice; bob] [] [] [].
(** The remote serves, for another uri, the note that carries [note_uri]. *)
Definition other_uri : string := "https://remote.example/notes/2".
Definition serving_elsewhere : Env :=
  env [] false []
      (fun uri => if String.eqb uri other_uri then inr (served "first")
                  else inl FetchError).
Definition after_resolution : World :=
  snd (Note.resolve (serving "first") 1 (Some note_uri) None
                    before_resolution).

(** Two notes that reply to each other. *)
Definition loop_a : NoteRow.t := a_note "a" None "alice" public (Some "b").
Definition loop_b : NoteRow.t := a_note "b" None "bob" public (Some "a").
Definition loop_world : World := world [alice; bob] [loop_a; loop_b] [] [].

(** The remote serves the actor dave. *)
Definition dave_uri : string := "https://remote.example/users/dave".
Definition no_endpoints : Endpoints :=
  {| ep_dislikes := EmptyString; ep_featured := EmptyString;
     ep_likes := EmptyString; ep_followers := EmptyString;
     ep_following := EmptyString; ep_inbox := EmptyString;
     ep_outbox := EmptyString |}.
Definition served_user (uri key : string) : UserEntity :=
  {| ue_uri := uri; ue_username := "someone"; ue_display_name := None;
     ue_bio := "hello"; ue_avatar := None; ue_header := None;
     ue_public_key := key; ue_endpoints := no_endpoints |}.
Definition serving_users (users : string -> Error + UserEntity) : Env :=
  {| base_url := base_url plain_env;
     blocked := blocked plain_env;
     bridge_enabled := bridge_enabled plain_env;
     bridge_token := bridge_token plain_env;
     allowed_ips := allowed_ips plain_env;
     matches := matches plain_env;
     canParse := canParse plain_env;
     match_idValidator := match_idValidator plain_env;
     fetch_user := users;
     fetch_note := fetch_note plain_env;
     signature_valid := signature_valid plain_env;
     gen_id := gen_id plain_env;
     addInstanceIfNotExists := addInstanceIfNotExists plain_env;
     contentToHtml := contentToHtml plain_env;
     sanitizedHtmlStrip := sanitizedHtmlStrip plain_env;
     localObjectURI := localObjectURI plain_env;
     resolved_together := resolved_together plain_env;
     thrown_message := thrown_message plain_env |}.
Definition serving_dave : Env :=
  serving_users (fun uri => if String.eqb uri dave_uri
                            then inr (served_user dave_uri "key-dave")
                            else inl FetchError).

(** The remote serves bob with a new key. *)
Definition bob_uri : string := "https://remote.example/users/bob".
Definition serving_bob : Env :=
  serving_users (fun uri => if String.eqb uri bob_uri
                            then inr (served_user bob_uri "key-bob-2")
                            else inl FetchError).
Definition bob_refreshes : Inbox.Request :=
  request "https://remote.example" None signed_by_bob None
          (Inbox.User_ bob_uri).

(** Activities that bob signs. *)
Definition signed (body : Inbox.Entity) : Inbox.Request :=
  request "https://remote.example" None signed_by_bob None body.
Definition locked_alice : UserRow.t :=
  a_user "alice" None None "key-alice" true.
Definition alice_asked_bob : RelationshipRow.t :=
  {| RelationshipRow.id := "r2"; RelationshipRow.ownerId := "alice";
     RelationshipRow.subjectId := "bob"; RelationshipRow.following := false;
     RelationshipRow.requested := true;
     RelationshipRow.showingReblogs := true;
     RelationshipRow.notifying := false; RelationshipRow.muting := false;
     RelationshipRow.endorsed := false |}.

(** The block-list holds an empty entry before the entry of the origin of
    a Follow that bob signs. *)
Definition empty_entry_env : Env :=
  env [EmptyString; "spam.example"] false [] no_notes.
Definition spam_follow : Inbox.Request :=
  request "https://spam.example" None signed_by_bob None bob_follows.

(** The server reads ids as the specification words it: an id is a word
    of lower-case letters, digits and hyphens, and the id of a uri is its
    trailing path segment. *)
Definition id_char (c : ascii) : bool :=
  let n := nat_of_ascii c in
  (Nat.leb 97 n && Nat.leb n 122) || (Nat.leb 48 n && Nat.leb n 57)
  || Nat.eqb n 45.
Fixpoint id_chars (s : string) : bool :=
  match s with
  | EmptyString => true
  | String c s' => id_char c && id_chars s'
  end.
Definition is_id (s : string) : bool := Js.truthy s && id_chars s.
Definition reading_ids : Env :=
  {| base_url := base_url plain_env;
     blocked := blocked plain_env;
     bridge_enabled := bridge_enabled plain_env;
     bridge_token := bridge_token plain_env;
     allowed_ips := allowed_ips plain_env;
     matches := matches plain_env;
     canParse := canParse plain_env;
     match_idValidator := trailing_id is_id;
     fetch_user := fetch_user plain_env;
     fetch_note := fetch_note plain_env;
     signature_valid := signature_valid plain_env;
     gen_id := gen_id plain_env;
     addInstanceIfNotExists := addInstanceIfNotExists plain_env;
     contentToHtml := contentToHtml plain_env;
     sanitizedHtmlStrip := sanitizedHtmlStrip plain_env;
     localObjectURI := localObjectURI plain_env;
     resolved_together := resolved_together plain_env;
     thrown_message := thrown_message plain_env |}.

(** An object of bob that is not a note. *)
Definition a_like : NoteEntity :=
  {| ne_type := "Like"; ne_uri := note_uri; ne_author := bob_uri;
     ne_content := None; ne_visibility := public;
     ne_is_sensitive := None; ne_subject := None; ne_mentions := [];
     ne_replies_to := EmptyString; ne_quotes := EmptyString |}.
End Scenario.

(* ================================================================== *)
(** * Properties *)

Unset Implicit Arguments.

(** ** The definitions at work *)

Example split_bearer :
  Js.split "Bearer secret" "Bearer " = [EmptyString; "secret"].
Proof. reflexivity. Qed.

Example split_without_separator :
  Js.split "secret" "Bearer " = ["secret"].
Proof. reflexivity. Qed.

Example split_commas :
  Js.split "a,b,,c" "," = ["a"; "b"; EmptyString; "c"].
Proof. reflexivity. Qed.

Example bearer_token_of_header :
  Inbox.bearer_token (Some "Bearer secret") = Some "secret" /\
  Inbox.bearer_token (Some "Basic secret") = None /\
  Inbox.bearer_token None = None.
Proof. repeat split. Qed.

Example keyId_of_signature :
  fst (Inbox.keyId_of Scenario.signed_by_bob
         (Scenario.world [] [] [] []))
  = Ok "https://remote.example/users/bob".
Proof. reflexivity. Qed.

Example origin_blocked_either_way :
  Inbox.origin_blocked Scenario.blocking_env "https://spam.example" = true /\
  Inbox.origin_blocked Scenario.blocking_env "spam" = true /\
  Inbox.origin_blocked Scenario.blocking_env "https://remote.example" = false.
Proof. repeat split. Qed.

(** For the chain A, B, C of replies the ancestors of C are A and B, the
    descendants of A are B and C. *)
Example chain_of_three :
  fst (Note.getAncestors 3 (Note.make (Scenario.chain_note 2) []) None
         (Scenario.chain_world 2))
  = Ok [Note.make (Scenario.chain_note 0) [];
        Note.make (Scenario.chain_note 1) []] /\
  fst (Note.getDescendants Scenario.chain_root None 0 (Scenario.chain_world 2))
  = Ok [Note.make (Scenario.chain_note 1) [];
        Note.make (Scenario.chain_note 2) []].
Proof. split; reflexivity. Qed.

(** A signed Follow to the inbox of a locked user asks for the follow. *)
Example follow_of_locked_user :
  exists w',
    Inbox.inbox Scenario.plain_env 1 Scenario.signed_follow
      (Scenario.world [Scenario.a_user "alice" None None "key-alice" true;
                       Scenario.bob] [] [] [])
    = (Ok (Inbox.response (Some "Follow request sent") 200), w') /\
    map RelationshipRow.following (relationships w') = [false] /\
    map RelationshipRow.requested (relationships w') = [true] /\
    map NotificationRow.type (notifications w') = [type_follow_request] /\
    trace w' = [].
Proof. eexists. split; [vm_compute; reflexivity|]. repeat split. Qed.

(** A request whose signature does not hold the key of its signer. *)
Example invalid_signature_refused :
  Inbox.inbox Scenario.plain_env 1
    (Scenario.request "https://remote.example" None
       "keyId=https://remote.example/users/bob,signature=forged" None
       Scenario.bob_follows)
    (Scenario.world [Scenario.alice; Scenario.bob] [] [] [])
  = (Ok (Inbox.errorResponse "Invalid signature" 400),
     Scenario.world [Scenario.alice; Scenario.bob] [] [] []).
Proof. reflexivity. Qed.

(** ** Lists, sorting and selections *)

Lemma filter_none {A} (f : A -> bool) (l : list A) :
  (forall x, In x l -> f x = false) -> filter f l = [].
Proof.
  induction l as [|a l IH]; intros H; simpl; [reflexivity|].
  rewrite (H a (or_introl eq_refl)). apply IH. intros x Hx. apply H. now right.
Qed.

Lemma in_insert_sorted {A} (leb : A -> A -> bool) (x y : A) (l : list A) :
  In y (insert_sorted leb x l) <-> y = x \/ In y l.
Proof.
  induction l as [|a l IH]; simpl.
  - intuition.
  - destruct (leb x a); simpl; rewrite ?IH; intuition.
Qed.

Lemma in_sort_rows {A} (leb : A -> A -> bool) (y : A) (l : list A) :
  In y (sort_rows leb l) <-> In y l.
Proof.
  induction l as [|a l IH]; simpl; [tauto|].
  unfold sort_rows in *. simpl. rewrite in_insert_sorted, IH. intuition.
Qed.

Lemma uri_is_true (s : string) (o : option string) :
  Db.uri_is s o = true <-> o = Some s.
Proof.
  destruct o as [t|]; simpl.
  - rewrite String.eqb_eq. split; congruence.
  - split; discriminate.
Qed.

Lemma holds_users_uri (u : UserRow.t) (s : string) :
  holds (UserRow.col u) (eq_text Users_uri s) = Db.uri_is s (UserRow.uri u).
Proof.
  unfold holds, eq_text. simpl. destruct (UserRow.uri u) as [t|]; simpl; [|reflexivity].
  destruct (String.eqb t s); reflexivity.
Qed.

Lemma holds_notes_uri (n : NoteRow.t) (s : string) :
  holds (NoteRow.col n) (eq_text Notes_uri s) = Db.uri_is s (NoteRow.uri n).
Proof.
  unfold holds, eq_text. simpl. destruct (NoteRow.uri n) as [t|]; simpl; [|reflexivity].
  destruct (String.eqb t s); reflexivity.
Qed.

(** ** Reads *)

Lemma reads_only_query {A} (q : World -> Outcome A) : reads_only (query q).
Proof. intros w. reflexivity. Qed.

Lemma reads_only_ret {A} (a : A) : reads_only (ret a).
Proof. intros w. reflexivity. Qed.

Lemma reads_only_throw {A} (e : Error) : reads_only (@throw A e).
Proof. intros w. reflexivity. Qed.

Lemma reads_only_bind {A B} (m : M A) (k : A -> M B) :
  reads_only m -> (forall a, reads_only (k a)) -> reads_only (bind m k).
Proof.
  intros Hm Hk w. unfold bind. specialize (Hm w).
  destruct (m w) as [[a|e|] w']; simpl in *; subst; try reflexivity. apply Hk.
Qed.

Lemma reads_only_run {A} (m : M A) (w : World) :
  reads_only m -> m w = (fst (m w), w).
Proof. intros H. rewrite <- (H w) at 3. apply surjective_pairing. Qed.

Lemma User_fromSql_reads cond orderBy : reads_only (User.fromSql cond orderBy).
Proof.
  unfold User.fromSql, User.findFirstUser.
  repeat (apply reads_only_bind; [|intros]); try apply reads_only_query;
    try apply reads_only_ret.
  destruct a; apply reads_only_ret.
Qed.

Lemma User_fromId_reads id : reads_only (User.fromId id).
Proof.
  unfold User.fromId. destruct (negb (truthy_text id)); [apply reads_only_ret|].
  destruct id; [apply User_fromSql_reads | apply reads_only_ret].
Qed.

Lemma Note_fromSql_reads cond orderBy userId :
  reads_only (Note.fromSql cond orderBy userId).
Proof.
  unfold Note.fromSql, Note.findManyNotes.
  apply reads_only_bind; [apply reads_only_query|].
  intros [|n l]; apply reads_only_ret.
Qed.

Lemma Note_fromId_reads id userId : reads_only (Note.fromId id userId).
Proof.
  unfold Note.fromId. destruct (negb (truthy_text id)); [apply reads_only_ret|].
  destruct id; [apply Note_fromSql_reads | apply reads_only_ret].
Qed.

Lemma User_fromSql_not_stored (w : World) (uri : string) :
  (forall u, In u (users w) -> UserRow.uri u <> Some uri) ->
  User.fromSql (eq_text Users_uri uri) User.default_order w = (Ok None, w).
Proof.
  intros H. unfold User.fromSql, User.findFirstUser, bind, query, select.
  simpl. rewrite filter_none; [reflexivity|].
  intros u Hu. rewrite holds_users_uri.
  destruct (Db.uri_is uri (UserRow.uri u)) eqn:Eu; [|reflexivity].
  apply uri_is_true in Eu. now apply H in Hu.
Qed.

Lemma Note_fromSql_not_stored (w : World) (uri : string) orderBy userId :
  in_scope Notes (Note.or_default orderBy) = true ->
  (forall n, In n (notes w) -> NoteRow.uri n <> Some uri) ->
  Note.fromSql (eq_text Notes_uri uri) orderBy userId w = (Ok None, w).
Proof.
  intros Hs H. unfold Note.fromSql, Note.findManyNotes, bind, query, select.
  simpl. rewrite Hs. simpl. rewrite filter_none; [reflexivity|].
  intros n Hn. rewrite holds_notes_uri.
  destruct (Db.uri_is uri (NoteRow.uri n)) eqn:En; [|reflexivity].
  apply uri_is_true in En. now apply H in Hn.
Qed.

Lemma holds_notes_id (n : NoteRow.t) (s : string) :
  holds (NoteRow.col n) (eq_text Notes_id s) = String.eqb (NoteRow.id n) s.
Proof.
  unfold holds, eq_text. simpl. destruct (String.eqb (NoteRow.id n) s); reflexivity.
Qed.

Lemma holds_users_id (u : UserRow.t) (s : string) :
  holds (UserRow.col u) (eq_text Users_id s) = String.eqb (UserRow.id u) s.
Proof.
  unfold holds, eq_text. simpl. destruct (String.eqb (UserRow.id u) s); reflexivity.
Qed.

Lemma holds_relationships_id (r : RelationshipRow.t) (s : string) :
  holds (RelationshipRow.col r) (eq_text Relationships_id s)
  = String.eqb (RelationshipRow.id r) s.
Proof.
  unfold holds, eq_text. simpl.
  destruct (String.eqb (RelationshipRow.id r) s); reflexivity.
Qed.

Lemma rows_with_uri_holds (u : string) (rows : list NoteRow.t) :
  filter (fun r => holds (NoteRow.col r) (eq_text Notes_uri u)) rows
  = rows_with_uri u rows.
Proof. apply filter_ext. intros r. apply holds_notes_uri. Qed.

Lemma Note_fromSql_by_uri (w : World) (u : string) (orderBy : option SQL)
    (userId : option string) (row : NoteRow.t) :
  in_scope Notes (Note.or_default orderBy) = true ->
  rows_with_uri u (notes w) = [row] ->
  Note.fromSql (eq_text Notes_uri u) orderBy userId w =
  (Ok (Some (Note.make row (Note.joined_mentions w (NoteRow.id row)))), w).
Proof.
  intros Hs H. unfold Note.fromSql, Note.findManyNotes, bind, query, select.
  rewrite Hs. change (in_scope Notes (eq_text Notes_uri u)) with true.
  cbn [andb negb]. rewrite rows_with_uri_holds, H. reflexivity.
Qed.

Lemma in_firstn {A} (n : nat) (l : list A) (x : A) :
  In x (firstn n l) -> In x l.
Proof.
  revert l. induction n as [|n IH]; intros [|y l]; simpl; try tauto.
  intros [H|H]; [left; exact H | right; apply IH, H].
Qed.

Lemma select_in {Row} (t : table) (cols : Row -> column -> sql_value)
    (rows : list Row) (cond : SQL) (orderBy : option SQL) (limit : option nat)
    (l : list Row) :
  select t cols rows cond orderBy limit = Ok l ->
  forall x, In x l -> In x rows /\ holds (cols x) cond = true.
Proof.
  unfold select. destruct (negb _); [discriminate|]. intros [= <-] x Hx.
  apply (filter_In (fun r => holds (cols r) cond)).
  destruct limit as [n|]; [apply in_firstn in Hx|];
    (destruct orderBy as [o|]; [apply in_sort_rows in Hx|]); exact Hx.
Qed.

Lemma select_first_none {Row} (t : table) (cols : Row -> column -> sql_value)
    (rows : list Row) (cond : SQL) (orderBy : option SQL) (l : list Row) :
  select t cols rows cond orderBy (Some 1) = Ok l -> hd_error l = None ->
  forall x, In x rows -> holds (cols x) cond = false.
Proof.
  unfold select. destruct (negb _); [discriminate|]. intros [= <-] Hh x Hx.
  destruct (holds (cols x) cond) eqn:Eh; [|reflexivity]. exfalso.
  assert (Hf : In x (filter (fun r => holds (cols r) cond) rows))
    by (apply filter_In; auto).
  destruct orderBy as [o|].
  - apply (in_sort_rows (fun x y => order_leb o (eval (cols x) o) (eval (cols y) o)))
      in Hf.
    destruct (sort_rows _ _) as [|y l']; [exact Hf | discriminate Hh].
  - destruct (filter _ rows) as [|y l']; [exact Hf | discriminate Hh].
Qed.

Lemma User_fromId_cases (i : string) (w : World) :
  exists r, User.fromId (Some i) w = (Ok r, w) /\
    match r with
    | Some u => In u (users w) /\ UserRow.id u = i /\ i <> EmptyString
    | None => i = EmptyString \/
              forall u, In u (users w) -> UserRow.id u <> i
    end.
Proof.
  unfold User.fromId. destruct i as [|c i'] eqn:Ei.
  { exists None. split; [reflexivity | left; reflexivity]. }
  rewrite <- Ei. assert (Hne : i <> EmptyString) by (subst; discriminate).
  replace (negb (truthy_text (Some i))) with false by (subst; reflexivity).
  unfold User.fromSql, User.findFirstUser, bind, query.
  destruct (select Users UserRow.col (users w) (eq_text Users_id i)
              (Some User.default_order) (Some 1)) as [l|e|] eqn:Es;
    [|unfold select in Es; simpl in Es; discriminate..].
  unfold ret. destruct (hd_error l) as [u|] eqn:Eh.
  + exists (Some u). split; [reflexivity|].
    destruct l as [|x l']; [discriminate|]. injection Eh as ->.
    destruct (select_in _ _ _ _ _ _ _ Es u (or_introl eq_refl)) as [Hin Hh].
    rewrite holds_users_id in Hh. apply String.eqb_eq in Hh. auto.
  + exists None. split; [reflexivity|]. right. intros u Hu Hid.
    pose proof (select_first_none _ _ _ _ _ _ Es Eh u Hu) as Hh.
    rewrite holds_users_id, Hid, String.eqb_refl in Hh. discriminate.
Qed.

Lemma Note_fromId_cases (i : string) (userId : option string) (w : World) :
  exists r, Note.fromId (Some i) userId w = (Ok r, w) /\
    match r with
    | Some n => In (Note.status n) (notes w) /\ Note.id n = i /\
                Note.mentions n = Note.joined_mentions w i /\
                i <> EmptyString
    | None => i = EmptyString \/
              forall n, In n (notes w) -> NoteRow.id n <> i
    end.
Proof.
  unfold Note.fromId. destruct i as [|c i'] eqn:Ei.
  { exists None. split; [reflexivity | left; reflexivity]. }
  rewrite <- Ei. assert (Hne : i <> EmptyString) by (subst; discriminate).
  replace (negb (truthy_text (Some i))) with false by (subst; reflexivity).
  unfold Note.fromSql, Note.findManyNotes, bind, query.
  destruct (select Notes NoteRow.col (notes w) (eq_text Notes_id i)
              (Some (Note.or_default None)) (Some 1)) as [l|e|] eqn:Es;
    [|unfold select in Es; simpl in Es; discriminate..].
  destruct l as [|x l']; simpl.
  + exists None. split; [reflexivity|]. right. intros n Hn Hid.
    pose proof (select_first_none _ _ _ _ _ _ Es eq_refl n Hn) as Hh.
    rewrite holds_notes_id, Hid, String.eqb_refl in Hh. discriminate.
  + eexists (Some _). split; [reflexivity|].
    destruct (select_in _ _ _ _ _ _ _ Es x (or_introl eq_refl)) as [Hin Hh].
    rewrite holds_notes_id in Hh. apply String.eqb_eq in Hh.
    unfold Note.id. simpl. rewrite Hh. auto.
Qed.




(** ** The inbox: block-list and bridge *)

Lemma find_first_match {A} (f : A -> bool) (before after : list A) (x : A) :
  (forall b, In b before -> f b = false) -> f x = true ->
  List.find f (before ++ x :: after) = Some x.
Proof.
  intros Hb Hx. induction before as [|b before IH]; simpl.
  - now rewrite Hx.
  - rewrite (Hb b (or_introl eq_refl)). apply IH. intros c Hc. apply Hb.
    now right.
Qed.

(** C7, as amended.  A request whose origin matches an entry of the
    block-list, the first entry it matches not being the empty text, is
    answered with 201 and an empty body, and the world is left as it was:
    no user is looked up, no signature is verified, nothing is resolved or
    fetched, no row is written.  This holds whatever the inbox, the
    headers and the body of the request are. *)
Theorem blocked_origin_silenced (E : Env) (fuel : nat) (req : Inbox.Request)
    (w : World) (before after : list string) (entry : string) :
  blocked E = before ++ entry :: after ->
  (forall b, In b before -> origin_matches (Inbox.origin req) b = false) ->
  origin_matches (Inbox.origin req) entry = true ->
  entry <> EmptyString ->
  Inbox.inbox E fuel req w = (Ok (Inbox.response None 201), w).
Proof.
  intros Hl Hb He Hne. unfold Inbox.inbox.
  change (Inbox.origin_blocked E (Inbox.origin req))
    with (truthy_text (List.find (origin_matches (Inbox.origin req))
                                 (blocked E))).
  rewrite Hl, (find_first_match _ before after entry Hb He).
  destruct entry; [congruence | reflexivity].
Qed.

Lemma blocked_origin_silenced_witness :
  Inbox.inbox Scenario.blocking_env 1
    (Scenario.request "https://spam.example" None "unsigned" None
       (Inbox.Undo_ "https://lysand.example/users/alice"))
    (Scenario.world [Scenario.alice; Scenario.bob] [] [] [])
  = (Ok (Inbox.response None 201),
     Scenario.world [Scenario.alice; Scenario.bob] [] [] []).
Proof.
  apply (blocked_origin_silenced Scenario.blocking_env 1
           (Scenario.request "https://spam.example" None "unsigned" None
              (Inbox.Undo_ "https://lysand.example/users/alice"))
           (Scenario.world [Scenario.alice; Scenario.bob] [] [] [])
           [] [] "spam.example").
  - reflexivity.
  - intros b [].
  - reflexivity.
  - discriminate.
Defined.

(** C7 as stated fails.  The block-list holds the empty text before the
    entry [spam.example]: the origin [https://spam.example] matches that
    entry, and the Follow is processed all the same, the relationship is
    written and the acceptance sent.  And the answer to a silenced request
    is told from an acceptance: the same Follow is answered with 201 and
    an empty body where the origin is blocked, with 200 and a message
    where it is not. *)
Lemma empty_entry_unblocks_origin :
  (In "spam.example" (blocked Scenario.empty_entry_env) /\
   origin_matches (Inbox.origin Scenario.spam_follow) "spam.example" = true /\
   exists r w',
     Inbox.inbox Scenario.empty_entry_env 1 Scenario.spam_follow
       (Scenario.world [Scenario.alice; Scenario.bob] [] [] [])
     = (Ok (Inbox.response (Some "Follow request sent") 200), w') /\
     relationships w' = [r] /\
     RelationshipRow.ownerId r = "bob" /\
     RelationshipRow.subjectId r = "alice" /\
     RelationshipRow.following r = true /\
     trace w' = [FollowAccept "bob" "alice"]) /\
  (Inbox.inbox Scenario.blocking_env 1 Scenario.spam_follow
     (Scenario.world [Scenario.alice; Scenario.bob] [] [] [])
   = (Ok (Inbox.response None 201),
      Scenario.world [Scenario.alice; Scenario.bob] [] [] []) /\
   fst (Inbox.inbox Scenario.plain_env 1 Scenario.spam_follow
          (Scenario.world [Scenario.alice; Scenario.bob] [] [] []))
   = Ok (Inbox.response (Some "Follow request sent") 200)).
Proof.
  split; [split; [right; left; reflexivity|split; [reflexivity|]]|].
  - do 2 eexists. split; [vm_compute; reflexivity|]. repeat split.
  - split; reflexivity.
Qed.

(** On a block-list without empty entries the check matches exactly when
    some entry includes the origin or is included in it. *)
Lemma origin_blocked_iff (E : Env) (origin : string) :
  (forall b, In b (blocked E) -> b <> EmptyString) ->
  (Inbox.origin_blocked E origin = true <->
   exists b, In b (blocked E) /\
             (Js.includes b origin || Js.includes origin b) = true).
Proof.
  intros Hne. unfold Inbox.origin_blocked, Js.find. split.
  - destruct (List.find _ (blocked E)) as [x|] eqn:Ef; [|discriminate].
    intros _. apply find_some in Ef. exists x. exact Ef.
  - intros [b [Hb Hm]].
    destruct (List.find _ (blocked E)) as [x|] eqn:Ef.
    + apply find_some in Ef. destruct Ef as [Hx _].
      specialize (Hne x Hx). destruct x; [congruence | reflexivity].
    + apply (find_none _ _ Ef) in Hb. simpl in Hb. congruence.
Qed.

Lemma inbox_reaches_checks (E : Env) (fuel : nat) (req : Inbox.Request)
    (w : World) (user : User.t) :
  Inbox.origin_blocked E (Inbox.origin req) = false ->
  fst (User.fromId (Some (Inbox.uuid req)) w) = Ok (Some user) ->
  Inbox.inbox E fuel req w =
  bind (Inbox.authenticate E req)
       (fun refused => match refused with
                       | Some r => ret r
                       | None => Inbox.dispatch E fuel user (Inbox.body req)
                       end) w.
Proof.
  intros Hb Hu. unfold Inbox.inbox. rewrite Hb.
  unfold bind at 1. rewrite (reads_only_run _ w (User_fromId_reads _)), Hu.
  reflexivity.
Qed.

(** C10, as amended.  For a request whose origin the block-list does not
    silence and whose inbox is the inbox of a stored user: with the bridge
    enabled, a bearer token that is not the bridge token is answered with
    401, whatever the signature and the body are, and the world is left as
    it was. *)
Theorem wrong_bridge_token_rejected (E : Env) (fuel : nat)
    (req : Inbox.Request) (w : World) (user : User.t) (token : string) :
  Inbox.origin_blocked E (Inbox.origin req) = false ->
  fst (User.fromId (Some (Inbox.uuid req)) w) = Ok (Some user) ->
  bridge_enabled E = true ->
  Inbox.bearer_token (Inbox.authorization req) = Some token ->
  Js.truthy token = true ->
  token <> bridge_token E ->
  Inbox.inbox E fuel req w =
  (Ok (Inbox.errorResponse Inbox.invalid_token 401), w).
Proof.
  intros Hb Hu He Ht Hne Hneq.
  rewrite (inbox_reaches_checks E fuel req w user Hb Hu).
  unfold bind, Inbox.authenticate, Inbox.bridge. rewrite He, Ht. simpl. rewrite Hne.
  apply String.eqb_neq in Hneq. rewrite Hneq. reflexivity.
Qed.

Lemma wrong_bridge_token_rejected_witness :
  Inbox.inbox Scenario.blocking_env 1 Scenario.wrong_token_request
    (Scenario.world [Scenario.alice; Scenario.bob] [] [] []) =
  (Ok (Inbox.errorResponse Inbox.invalid_token 401),
   Scenario.world [Scenario.alice; Scenario.bob] [] [] []).
Proof.
  apply (wrong_bridge_token_rejected Scenario.blocking_env 1
           Scenario.wrong_token_request
           (Scenario.world [Scenario.alice; Scenario.bob] [] [] [])
           Scenario.alice "wrong").
  - reflexivity.
  - reflexivity.
  - reflexivity.
  - reflexivity.
  - reflexivity.
  - discriminate.
Defined.

(** C10 as stated fails: a request from a blocked origin that presents a
    wrong bearer token, the bridge being enabled, is answered with 201. *)
Lemma blocked_origin_with_wrong_token_gets_201 :
  bridge_enabled Scenario.blocking_env = true /\
  Inbox.bearer_token (Inbox.authorization Scenario.blocked_request)
    = Some "wrong" /\
  "wrong" <> bridge_token Scenario.blocking_env /\
  Inbox.inbox Scenario.blocking_env 1 Scenario.blocked_request
    (Scenario.world [Scenario.alice; Scenario.bob] [] [] []) =
  (Ok (Inbox.response None 201),
   Scenario.world [Scenario.alice; Scenario.bob] [] [] []).
Proof.
  repeat split; try reflexivity. discriminate.
Qed.

Lemma allowed_ips_loop_false (E : Env) (ips : list string) (address : string) :
  Inbox.allowed_ips_loop E ips address false = false.
Proof.
  induction ips as [|ip ips IH]; simpl; [reflexivity|].
  destruct (matches E ip address); [reflexivity | exact IH].
Qed.

Lemma allowed_ips_loop_match (E : Env) (ips : list string) (address : string)
    (c : bool) :
  (exists ip, In ip ips /\ matches E ip address = true) ->
  Inbox.allowed_ips_loop E ips address c = false.
Proof.
  intros [ip [Hin Hm]]. induction ips as [|x ips IH]; [destruct Hin|].
  simpl. destruct (matches E x address) eqn:Ex; [reflexivity|].
  destruct Hin as [->|Hin]; [congruence | auto].
Qed.

(** With the bridge token and an address on the allow-list the signature
    is not looked at. *)
Lemma bridge_allow_listed (E : Env) (req : Inbox.Request) (w : World)
    (address : string) :
  bridge_enabled E = true ->
  Inbox.bearer_token (Inbox.authorization req) = Some (bridge_token E) ->
  Js.truthy (bridge_token E) = true ->
  Inbox.request_ip req = Some address -> Js.truthy address = true ->
  (exists ip, In ip (allowed_ips E) /\ matches E ip address = true) ->
  Inbox.authenticate E req w = (Ok None, w).
Proof.
  intros He Ht Htt Hip Hat Hm. unfold Inbox.authenticate, Inbox.bridge.
  rewrite He, Ht. simpl. rewrite Htt, String.eqb_refl. simpl.
  rewrite Hip. simpl. rewrite Hat.
  rewrite (allowed_ips_loop_match E _ address _ Hm). reflexivity.
Qed.

(** It is not looked at either when the address is on no entry of an
    allow-list that has entries. *)
Lemma bridge_nonempty_allow_list (E : Env) (req : Inbox.Request) (w : World)
    (address : string) :
  bridge_enabled E = true ->
  Inbox.bearer_token (Inbox.authorization req) = Some (bridge_token E) ->
  Js.truthy (bridge_token E) = true ->
  Inbox.request_ip req = Some address -> Js.truthy address = true ->
  allowed_ips E <> [] ->
  Inbox.authenticate E req w = (Ok None, w).
Proof.
  intros He Ht Htt Hip Hat Hne. unfold Inbox.authenticate, Inbox.bridge.
  rewrite He, Ht. simpl. rewrite Htt, String.eqb_refl. simpl.
  rewrite Hip. simpl. rewrite Hat.
  destruct (allowed_ips E) as [|ip ips] eqn:Ea; [congruence|].
  cbn [Js.nonempty]. rewrite allowed_ips_loop_false. reflexivity.
Qed.

(** C1, at the failing input.  The bridge is enabled with an allow-list
    of one address; the caller is at another address, presents the bridge
    token, and its Signature header does not verify (checking it throws).
    The request is not rejected: the Follow it carries is processed. *)
Lemma bridge_outside_allow_list_not_rejected :
  (forall ip, In ip (allowed_ips Scenario.bridge_env) ->
              matches Scenario.bridge_env ip "203.0.113.9" = false) /\
  fst (Inbox.verify_signature Scenario.bridge_env Scenario.bridge_request
         (Scenario.world [Scenario.alice; Scenario.bob] [] [] []))
    = Throw TypeError /\
  fst (Inbox.inbox Scenario.bridge_env 1 Scenario.bridge_request
         (Scenario.world [Scenario.alice; Scenario.bob] [] [] []))
    = Ok (Inbox.response (Some "Follow request sent") 200).
Proof.
  split; [|split].
  - intros ip [<-|[]]. reflexivity.
  - reflexivity.
  - reflexivity.
Qed.

(** ** Visibility *)

Lemma isViewableByUser_reads (this : Note.t) (user : option User.t) :
  reads_only (Note.isViewableByUser this user).
Proof.
  unfold Note.isViewableByUser.
  destruct (match user with Some u => _ | None => false end);
    [apply reads_only_ret|].
  destruct (NoteRow.visibility (Note.status this)); try apply reads_only_ret.
  - destruct user; [|apply reads_only_ret].
    apply reads_only_bind; [apply reads_only_query|].
    intros [|r l]; apply reads_only_ret.
  - destruct user; [|apply reads_only_ret].
    destruct (Js.find _ _); apply reads_only_ret.
Qed.

(** The lookup of the private branch names a column of the table of notes
    in a query over the relationships: the store refuses it. *)
Lemma isViewableByUser_private_not_author (this : Note.t) (u : User.t)
    (w : World) :
  NoteRow.visibility (Note.status this) = private ->
  Note.getAuthor_id this <> UserRow.id u ->
  Note.isViewableByUser this (Some u) w = (Throw QueryError, w).
Proof.
  intros Hv Ha. unfold Note.isViewableByUser.
  apply String.eqb_neq in Ha. rewrite Ha, Hv. reflexivity.
Qed.

(** Outside that branch the awaited value is true exactly for the author,
    for a public or unlisted note, and for a mentioned reader of a direct
    note. *)
Lemma isViewableByUser_other_branches (this : Note.t) (user : option User.t)
    (w : World) :
  NoteRow.visibility (Note.status this) <> private \/ user = None \/
  (exists u, user = Some u /\ Note.getAuthor_id this = UserRow.id u) ->
  exists v,
    Note.isViewableByUser this user w = (Ok v, w) /\
    ToBoolean (js_value v) =
    (match user with
     | Some u => String.eqb (Note.getAuthor_id this) (UserRow.id u)
     | None => false
     end
     || match NoteRow.visibility (Note.status this) with
        | public | unlisted => true
        | private => false
        | direct =>
            match user with
            | Some u => existsb (fun m => String.eqb (UserRow.id m) (UserRow.id u))
                                (Note.mentions this)
            | None => false
            end
        end).
Proof.
  intros H. unfold Note.isViewableByUser.
  destruct user as [u|].
  - destruct (String.eqb (Note.getAuthor_id this) (UserRow.id u)) eqn:Ea.
    + eexists. split; reflexivity.
    + destruct H as [H|[H|[u' [Hu Hau]]]]; try discriminate.
      * destruct (NoteRow.visibility (Note.status this)) eqn:Ev;
          try congruence; try (eexists; split; reflexivity).
        unfold Js.find.
        destruct (List.find _ (Note.mentions this)) as [m|] eqn:Ef.
        -- eexists. split; [reflexivity|]. simpl. symmetry.
           apply existsb_exists. apply find_some in Ef. exists m. exact Ef.
        -- eexists. split; [reflexivity|]. simpl. symmetry.
           apply not_true_iff_false. intros Hex. apply existsb_exists in Hex.
           destruct Hex as [m [Hm Hp]].
           apply (find_none _ _ Ef) in Hm. simpl in Hm. congruence.
      * injection Hu as <-. apply String.eqb_eq in Hau. congruence.
  - destruct (NoteRow.visibility (Note.status this));
      eexists; split; reflexivity.
Qed.

(** C2, at the failing input.  The note is private, the reader is not its
    author and owns a relationship with [following = true] to the author:
    the awaited call does not give a true value, the lookup is refused. *)
Lemma private_note_hidden_from_follower :
  NoteRow.visibility (Note.status Scenario.private_note) = private /\
  (exists r, In r (relationships Scenario.followers_world) /\
             RelationshipRow.ownerId r = UserRow.id Scenario.bob /\
             RelationshipRow.subjectId r
               = Note.getAuthor_id Scenario.private_note /\
             RelationshipRow.following r = true) /\
  Note.isViewableByUser Scenario.private_note (Some Scenario.bob)
    Scenario.followers_world = (Throw QueryError, Scenario.followers_world).
Proof.
  split; [reflexivity|]. split.
  - exists Scenario.bob_follows_alice. repeat split. left. reflexivity.
  - reflexivity.
Qed.

(** ** Threads *)

(** The callback of [filter] hands over a promise: nothing is left out. *)
Lemma filter_viewable_keeps_all (w : World) (fetcher : option User.t)
    (l : list Note.t) :
  filter (fun n => ToBoolean (Note.isViewableByUser_promise w n fetcher)) l = l.
Proof.
  induction l as [|a l IH]; [reflexivity|].
  change (a :: filter (fun n => ToBoolean (Note.isViewableByUser_promise w n fetcher)) l
          = a :: l).
  now rewrite IH.
Qed.

(** C3, at the failing input.  For an anonymous reader, the ancestors of
    the middle note of the thread hold the private note above it, and its
    descendants hold the private note below it, although
    [isViewableByUser] gives false for both. *)
Lemma thread_shows_hidden_notes :
  fst (Note.getAncestors 3 (Note.make Scenario.thread_mid []) None
         Scenario.thread_world) = Ok [Note.make Scenario.thread_top []] /\
  fst (Note.isViewableByUser (Note.make Scenario.thread_top []) None
         Scenario.thread_world) = Ok (js_bool false) /\
  fst (Note.getDescendants (Note.make Scenario.thread_mid []) None 0
         Scenario.thread_world) = Ok [Note.make Scenario.thread_end []] /\
  fst (Note.isViewableByUser (Note.make Scenario.thread_end []) None
         Scenario.thread_world) = Ok (js_bool false).
Proof. repeat split. Qed.

Lemma holds_notes_replyId (n : NoteRow.t) (s : string) :
  holds (NoteRow.col n) (eq_text Notes_replyId s) = true ->
  NoteRow.replyId n = Some s.
Proof.
  unfold holds, eq_text. simpl. destruct (NoteRow.replyId n) as [t|]; simpl;
    [|discriminate].
  destruct (String.eqb t s) eqn:Et; [|discriminate].
  apply String.eqb_eq in Et. now subst.
Qed.

Lemma getReplyChildren_spec (this : Note.t) (userId : option string)
    (w : World) :
  exists children,
    Note.getReplyChildren this userId w = (Ok children, w) /\
    forall c, In c children ->
      In (Note.status c) (notes w) /\
      NoteRow.replyId (Note.status c) = Some (Note.id this).
Proof.
  unfold Note.getReplyChildren, Note.manyFromSql, Note.findManyNotes, query,
    select. simpl. eexists. split; [reflexivity|].
  intros c Hc. apply in_map_iff in Hc. destruct Hc as [r [<- Hr]]. simpl.
  apply in_sort_rows in Hr. apply filter_In in Hr. destruct Hr as [Hin Hh].
  split; [exact Hin | now apply holds_notes_replyId].
Qed.

Lemma getDescendants_loop_spec (R : Note.t -> Note.t -> Prop)
    (descend : Note.t -> M (list Note.t)) (children : list Note.t)
    (w : World) :
  (forall c, In c children ->
     exists lc, descend c w = (Ok lc, w) /\ forall n, In n lc -> R c n) ->
  exists l,
    Note.getDescendants_loop descend children w = (Ok l, w) /\
    forall n, In n l ->
      In n children \/ exists c, In c children /\ R c n.
Proof.
  induction children as [|c rest IH]; intros H.
  - exists []. split; [reflexivity | intros n []].
  - destruct (H c (or_introl eq_refl)) as [lc [Hc HR]].
    destruct IH as [l [Hl Hin]]. { intros c' Hc'. apply H. now right. }
    exists (c :: lc ++ l). split.
    + simpl. unfold bind. rewrite Hc, Hl. reflexivity.
    + intros n [<-|Hn]; [left; now left|].
      apply in_app_or in Hn. destruct Hn as [Hn|Hn].
      * right. exists c. split; [now left | auto].
      * destruct (Hin n Hn) as [Hn'|[c' [Hc' Hr]]].
        -- left. now right.
        -- right. exists c'. split; [now right | exact Hr].
Qed.

Lemma reply_path_under_child (w : World) (a : string) (c : NoteRow.t)
    (k : nat) (n : NoteRow.t) :
  In c (notes w) -> NoteRow.replyId c = Some a ->
  reply_path w (NoteRow.id c) k n -> reply_path w a (S k) n.
Proof.
  intros Hc Hr Hp. induction Hp as [n Hn Hrn | k m n Hp IH Hn Hrn].
  - apply reply_below with (m := c); [now apply reply_child | exact Hn | exact Hrn].
  - apply reply_below with (m := m); assumption.
Qed.

Lemma getDescendants_from_levels (fuel : nat) :
  forall (this : Note.t) (fetcher : option User.t) (depth : nat) (w : World),
    20 - depth < fuel ->
    exists l,
      Note.getDescendants_from fuel this fetcher depth w = (Ok l, w) /\
      forall n, In n l ->
        exists k, 1 <= k <= S (20 - depth) /\
                  reply_path w (Note.id this) k (Note.status n).
Proof.
  induction fuel as [|fuel IH]; intros this fetcher depth w Hf; [lia|].
  destruct (getReplyChildren_spec this (Note.fetcher_id fetcher) w)
    as [children [Hch Hspec]].
  destruct (getDescendants_loop_spec
              (fun c n => exists k, 1 <= k <= 20 - depth /\
                                    reply_path w (Note.id c) k (Note.status n))
              (fun child =>
                 if Nat.ltb depth 20
                 then Note.getDescendants_from fuel child fetcher (depth + 1)
                 else ret [])
              children w) as [l [Hl Hin]].
  { intros c Hc. destruct (Nat.ltb depth 20) eqn:Ed.
    - apply Nat.ltb_lt in Ed.
      destruct (IH c fetcher (depth + 1) w) as [lc [Hlc Hk]]; [lia|].
      exists lc. split; [exact Hlc|]. intros n Hn.
      destruct (Hk n Hn) as [k [Hb Hp]]. exists k. split; [lia | exact Hp].
    - exists []. split; [reflexivity | intros n []]. }
  exists l. split.
  - cbn [Note.getDescendants_from]. unfold bind. rewrite Hch, Hl.
    unfold query. now rewrite filter_viewable_keeps_all.
  - intros n Hn. destruct (Hin n Hn) as [Hc|[c [Hc [k [Hb Hp]]]]].
    + exists 1. split; [lia|]. destruct (Hspec n Hc) as [Hnw Hr].
      now apply reply_child.
    + exists (S k). split; [lia|]. destruct (Hspec c Hc) as [Hcw Hr].
      now apply reply_path_under_child with (c := Note.status c).
Qed.

Lemma decimal_inj (m n : nat) : Scenario.decimal m = Scenario.decimal n -> m = n.
Proof.
  unfold Scenario.decimal. intros H.
  apply DecimalNat.Unsigned.to_uint_inj.
  assert (Hs : Some (Nat.to_uint m) = Some (Nat.to_uint n))
    by (rewrite <- !NilEmpty.usu; now rewrite H).
  now injection Hs.
Qed.

Lemma chain_id_inj (m n : nat) : Scenario.chain_id m = Scenario.chain_id n -> m = n.
Proof.
  unfold Scenario.chain_id. simpl. intros H. injection H as H.
  now apply decimal_inj.
Qed.

Lemma in_chain_world (n : nat) (r : NoteRow.t) :
  In r (notes (Scenario.chain_world n)) ->
  exists j, j <= n /\ r = Scenario.chain_note j.
Proof.
  unfold Scenario.chain_world, Scenario.world, notes. intros H.
  apply in_map_iff in H. destruct H as [j [<- Hj]].
  apply in_seq in Hj. exists j. split; [lia | reflexivity].
Qed.

Lemma chain_reply_path (n k : nat) (r : NoteRow.t) :
  reply_path (Scenario.chain_world n) (Scenario.chain_id 0) k r ->
  r = Scenario.chain_note k.
Proof.
  induction 1 as [r Hr Hp | k m r Hp IH Hr Hrm].
  - apply in_chain_world in Hr. destruct Hr as [j [_ ->]].
    destruct j as [|j]; [discriminate|]. simpl in Hp.
    injection Hp as Hp. apply decimal_inj in Hp. now subst.
  - apply in_chain_world in Hr. destruct Hr as [j [_ ->]]. subst m.
    destruct j as [|j]; [discriminate|]. simpl in Hrm.
    injection Hrm as Hrm. apply decimal_inj in Hrm. now subst.
Qed.

Lemma chain_reply_path_exists (n k : nat) :
  1 <= k <= n ->
  reply_path (Scenario.chain_world n) (Scenario.chain_id 0) k
             (Scenario.chain_note k).
Proof.
  intros [H1 Hn]. induction k as [|k IH]; [lia|].
  assert (Hin : In (Scenario.chain_note (S k)) (notes (Scenario.chain_world n))).
  { unfold Scenario.chain_world, Scenario.world, notes.
    apply in_map_iff. exists (S k). split; [reflexivity|].
    apply in_seq. lia. }
  destruct k as [|k].
  - now apply reply_child.
  - apply reply_below with (m := Scenario.chain_note (S k));
      [apply IH; lia | exact Hin | reflexivity].
Qed.

(** C8 as stated fails: on a linear chain of 25 replies the returned list
    holds the note that is 21 reply links below the root, and no shorter
    path leads to it. *)
Lemma chain_of_25_reaches_level_21 :
  exists l,
    Note.getDescendants Scenario.chain_root None 0 (Scenario.chain_world 25)
      = (Ok l, Scenario.chain_world 25) /\
    In (Note.make (Scenario.chain_note 21) []) l /\
    reply_path (Scenario.chain_world 25) (Note.id Scenario.chain_root) 21
               (Scenario.chain_note 21) /\
    ~ (exists k, k <= 20 /\
         reply_path (Scenario.chain_world 25) (Note.id Scenario.chain_root) k
                    (Scenario.chain_note 21)).
Proof.
  eexists. split; [vm_compute; reflexivity|]. split; [|split].
  - do 20 right. left. reflexivity.
  - apply chain_reply_path_exists. lia.
  - intros [k [Hk Hp]]. apply chain_reply_path in Hp.
    assert (H : Scenario.chain_id 21 = Scenario.chain_id k)
      by (change (NoteRow.id (Scenario.chain_note 21)
                  = NoteRow.id (Scenario.chain_note k)); now rewrite <- Hp).
    apply chain_id_inj in H. lia.
Qed.

(** C8, as amended.  [getDescendants] returns, for every note, reader and
    store: every returned note is between 1 and 21 reply links below the
    queried note.  On a linear chain of 25 replies the list is the notes
    of the levels 1 to 21. *)
Theorem descendants_within_21_levels :
  (forall (this : Note.t) (fetcher : option User.t) (w : World),
     exists l,
       Note.getDescendants this fetcher 0 w = (Ok l, w) /\
       forall n, In n l ->
         exists k, 1 <= k <= 21 /\
                   reply_path w (Note.id this) k (Note.status n)) /\
  fst (Note.getDescendants Scenario.chain_root None 0
         (Scenario.chain_world 25))
  = Ok (map (fun k => Note.make (Scenario.chain_note k) []) (seq 1 21)).
Proof.
  split.
  - intros this fetcher w. unfold Note.getDescendants.
    apply getDescendants_from_levels. simpl. lia.
  - vm_compute. reflexivity.
Qed.

(** ** The inbox: dispatch *)

Lemma inbox_authenticated (E : Env) (fuel : nat) (req : Inbox.Request)
    (w : World) (user : User.t) :
  authenticated E req w user ->
  Inbox.inbox E fuel req w = Inbox.dispatch E fuel user (Inbox.body req) w.
Proof.
  intros [Hb [Hu Hg]]. rewrite (inbox_reaches_checks E fuel req w user Hb Hu).
  unfold bind. rewrite Hg. reflexivity.
Qed.

Lemma dispatch_result (E : Env) (fuel : nat) (user : User.t)
    (entity : Inbox.Entity) (w w' : World) (r : Inbox.Response) :
  Inbox.parseBody E fuel user entity w = (Ok (Some r), w') ->
  Inbox.dispatch E fuel user entity w = (Ok r, w').
Proof.
  intros H. unfold Inbox.dispatch, try_catch, bind. rewrite H. reflexivity.
Qed.

Lemma resolve_known_actor (E : Env) (w : World) (uri : string)
    (actor : User.t) :
  known_actor w uri actor -> User.resolve E uri w = (Ok (Some actor), w).
Proof.
  intros H. unfold User.resolve, bind.
  rewrite (reads_only_run _ w (User_fromSql_reads _ _)). unfold known_actor in H.
  rewrite H. reflexivity.
Qed.

(** The note an Undo names is looked up by its uri alone: the condition
    on the author is the ordering of the selection. *)
Lemma on_undo_note_of_anyone (E : Env) (user : User.t) (toDelete : string)
    (w : World) (row : NoteRow.t) :
  rows_with_uri toDelete (notes w) = [row] ->
  Inbox.on_undo E user toDelete w =
  (Ok (Inbox.response (Some "Note deleted") 200),
   set_notes (filter (fun r => negb (String.eqb (NoteRow.id r) (NoteRow.id row))))
             w).
Proof.
  intros Hrow. unfold Inbox.on_undo, bind at 1.
  rewrite (Note_fromSql_by_uri w toDelete
             (Some (eq_text Notes_authorId (UserRow.id user))) None row
             eq_refl Hrow).
  unfold Note.delete, bind, Db.delete_notes, Db.delete_rows.
  cbn [in_scope eq_text column_table table_eqb andb]. unfold ret.
  f_equal. unfold set_notes. f_equal. apply filter_ext. intros r.
  now rewrite holds_notes_id.
Qed.

Lemma on_undo_own_actor (E : Env) (user actor : User.t) (toDelete : string)
    (w : World) :
  (forall n, In n (notes w) -> NoteRow.uri n <> Some toDelete) ->
  User.resolve E toDelete w = (Ok (Some actor), w) ->
  UserRow.id actor = UserRow.id user ->
  Inbox.on_undo E user toDelete w =
  (Ok (Inbox.response (Some "Account deleted") 200),
   set_users (filter (fun u => negb (String.eqb (UserRow.id u) (UserRow.id user))))
             w).
Proof.
  intros Hn Hr Hid. unfold Inbox.on_undo, bind at 1.
  rewrite (Note_fromSql_not_stored w toDelete
             (Some (eq_text Notes_authorId (UserRow.id user))) None
             eq_refl Hn).
  unfold bind at 1. rewrite Hr. rewrite Hid, String.eqb_refl.
  unfold User.delete, bind, Db.delete_users, Db.delete_rows.
  cbn [in_scope eq_text column_table table_eqb andb]. unfold ret.
  f_equal. unfold set_users. f_equal. apply filter_ext. intros u.
  now rewrite holds_users_id.
Qed.

Lemma on_undo_other_actor (E : Env) (user actor : User.t) (toDelete : string)
    (w w' : World) :
  (forall n, In n (notes w) -> NoteRow.uri n <> Some toDelete) ->
  User.resolve E toDelete w = (Ok (Some actor), w') ->
  UserRow.id actor <> UserRow.id user ->
  Inbox.on_undo E user toDelete w =
  (Ok (Inbox.errorResponse "Cannot delete other users than self" 400), w').
Proof.
  intros Hn Hr Hid. unfold Inbox.on_undo, bind at 1.
  rewrite (Note_fromSql_not_stored w toDelete
             (Some (eq_text Notes_authorId (UserRow.id user))) None
             eq_refl Hn).
  unfold bind at 1. rewrite Hr. apply String.eqb_neq in Hid. rewrite Hid.
  reflexivity.
Qed.

(** C6, at the failing input.  An authenticated Undo, sent to the inbox of
    alice, names a note that carol wrote: the note is deleted and the
    answer is 200. *)
Lemma undo_deletes_note_of_another_actor :
  authenticated Scenario.plain_env Scenario.undo_carols_note
    (Scenario.world [Scenario.alice; Scenario.bob; Scenario.carol]
                    [Scenario.carols_note] [] []) Scenario.alice /\
  Inbox.body Scenario.undo_carols_note
    = Inbox.Undo_ "https://remote.example/notes/1" /\
  NoteRow.uri Scenario.carols_note = Some "https://remote.example/notes/1" /\
  NoteRow.authorId Scenario.carols_note <> UserRow.id Scenario.alice /\
  Inbox.inbox Scenario.plain_env 1 Scenario.undo_carols_note
    (Scenario.world [Scenario.alice; Scenario.bob; Scenario.carol]
                    [Scenario.carols_note] [] []) =
  (Ok (Inbox.response (Some "Note deleted") 200),
   Scenario.world [Scenario.alice; Scenario.bob; Scenario.carol] [] [] []).
Proof.
  split; [repeat split|]. repeat split. discriminate.
Qed.

Lemma undo_of_own_account :
  Inbox.inbox Scenario.plain_env 1 Scenario.undo_alice
    (Scenario.world [Scenario.alice; Scenario.bob; Scenario.carol]
                    [Scenario.carols_note] [] []) =
  (Ok (Inbox.response (Some "Account deleted") 200),
   Scenario.world [Scenario.bob; Scenario.carol] [Scenario.carols_note] [] []).
Proof. reflexivity. Qed.

(** ** Follow *)

Lemma holds_pair (r : RelationshipRow.t) (owner subject : string) :
  holds (RelationshipRow.col r)
        (sql_and (eq_text Relationships_ownerId owner)
                 (eq_text Relationships_subjectId subject))
  = pair_is owner subject r.
Proof.
  unfold holds, pair_is, eq_text. simpl.
  destruct (String.eqb (RelationshipRow.ownerId r) owner),
           (String.eqb (RelationshipRow.subjectId r) subject); reflexivity.
Qed.

Lemma getRelationship_found (E : Env) (owner subject : User.t) (w : World)
    (r : RelationshipRow.t) :
  relationship_of w (UserRow.id owner) (UserRow.id subject) = Some r ->
  Inbox.getRelationshipToOtherUser E owner subject w = (Ok r, w).
Proof.
  unfold relationship_of, Inbox.getRelationshipToOtherUser, bind, query, select.
  cbn [in_scope eq_text column_table table_eqb andb negb].
  intros H.
  rewrite (filter_ext _ (pair_is (UserRow.id owner) (UserRow.id subject)))
    by (intros x; apply holds_pair).
  unfold pair_is.
  destruct (filter _ (relationships w)) as [|x l]; [discriminate|].
  simpl in H. injection H as ->. reflexivity.
Qed.

Lemma getRelationship_absent (E : Env) (owner subject : User.t) (w : World) :
  relationship_of w (UserRow.id owner) (UserRow.id subject) = None ->
  Inbox.getRelationshipToOtherUser E owner subject w =
  Db.insert_relationship E (fun id =>
    RelationshipRow.make id (UserRow.id owner) (UserRow.id subject)
      false false false false false false) w.
Proof.
  unfold relationship_of, Inbox.getRelationshipToOtherUser, bind, query, select.
  cbn [in_scope eq_text column_table table_eqb andb negb].
  intros H.
  rewrite (filter_ext _ (pair_is (UserRow.id owner) (UserRow.id subject)))
    by (intros x; apply holds_pair).
  unfold pair_is.
  destruct (filter _ (relationships w)) as [|x l]; [reflexivity | discriminate].
Qed.

Lemma filter_map_pair (owner subject i : string) (user : User.t)
    (l : list RelationshipRow.t) :
  filter (pair_is owner subject)
    (map (fun r => if holds (RelationshipRow.col r) (eq_text Relationships_id i)
                   then accept_follow user r else r) l)
  = map (fun r => if holds (RelationshipRow.col r) (eq_text Relationships_id i)
                  then accept_follow user r else r)
        (filter (pair_is owner subject) l).
Proof.
  induction l as [|x l IH]; [reflexivity|]. simpl.
  assert (Hp : pair_is owner subject
                 (if holds (RelationshipRow.col x) (eq_text Relationships_id i)
                  then accept_follow user x else x)
               = pair_is owner subject x)
    by (destruct (holds _ _); reflexivity).
  rewrite Hp. destruct (pair_is owner subject x); simpl; now rewrite IH.
Qed.

Lemma on_follow_first (E : Env) (user account : User.t) (author : string)
    (w : World) :
  known_actor w author account ->
  UserRow.isLocked user = false ->
  (forall r, relationship_of w (UserRow.id account) (UserRow.id user) = Some r ->
             RelationshipRow.following r = false) ->
  exists w' r n,
    Inbox.on_follow E user author w
      = (Ok (Inbox.response (Some "Follow request sent") 200), w') /\
    users w' = users w /\
    relationship_of w' (UserRow.id account) (UserRow.id user) = Some r /\
    RelationshipRow.following r = true /\
    RelationshipRow.requested r = false /\
    notifications w' = notifications w ++ [n] /\
    NotificationRow.accountId n = UserRow.id account /\
    NotificationRow.notifiedId n = UserRow.id user /\
    NotificationRow.type n = type_follow /\
    trace w' = trace w ++ [FollowAccept (UserRow.id account) (UserRow.id user)].
Proof.
  intros Hk Hl Hnf. unfold Inbox.on_follow, bind at 1.
  rewrite (resolve_known_actor E w author account Hk). unfold bind at 1.
  destruct (relationship_of w (UserRow.id account) (UserRow.id user))
    as [r0|] eqn:Er.
  - rewrite (getRelationship_found E account user w r0 Er).
    rewrite (Hnf r0 eq_refl), Hl.
    do 3 eexists. split; [reflexivity|]. split; [reflexivity|]. split.
    { unfold relationship_of in *. cbn -[holds].
      change (fun r => (RelationshipRow.ownerId r =? UserRow.id account)%string &&
                       (RelationshipRow.subjectId r =? UserRow.id user)%string)
        with (pair_is (UserRow.id account) (UserRow.id user)) in *.
      pose proof (filter_map_pair (UserRow.id account) (UserRow.id user)
                    (RelationshipRow.id r0) user (relationships w)) as Hfm.
      unfold accept_follow in Hfm. rewrite Hl in Hfm. cbn [negb] in Hfm.
      rewrite Hfm.
      destruct (filter _ (relationships w)) as [|x l]; [discriminate|].
      simpl in Er. injection Er as ->. cbn -[holds].
      rewrite holds_relationships_id, String.eqb_refl. reflexivity. }
    repeat split.
  - rewrite (getRelationship_absent E account user w Er).
    unfold Db.insert_relationship. cbn [RelationshipRow.following].
    rewrite Hl.
    do 3 eexists. split; [reflexivity|]. split; [reflexivity|]. split.
    { unfold relationship_of in *. cbn -[holds].
      change (fun r => (RelationshipRow.ownerId r =? UserRow.id account)%string &&
                       (RelationshipRow.subjectId r =? UserRow.id user)%string)
        with (pair_is (UserRow.id account) (UserRow.id user)) in *.
      pose proof (filter_map_pair (UserRow.id account) (UserRow.id user)
                    (gen_id E (next_id w)) user
                    (relationships w ++
                     [RelationshipRow.make (gen_id E (next_id w))
                        (UserRow.id account) (UserRow.id user)
                        false false false false false false])) as Hfm.
      unfold accept_follow in Hfm. rewrite Hl in Hfm. cbn [negb] in Hfm.
      rewrite Hfm. rewrite filter_app.
      destruct (filter _ (relationships w)) as [|x l]; [|discriminate].
      cbn -[holds]. unfold pair_is. cbn -[holds]. rewrite !String.eqb_refl.
      cbn -[holds]. rewrite holds_relationships_id. cbn.
      rewrite String.eqb_refl. reflexivity. }
    repeat split.
Qed.

Lemma on_follow_again (E : Env) (user account : User.t) (author : string)
    (w : World) (r : RelationshipRow.t) :
  known_actor w author account ->
  relationship_of w (UserRow.id account) (UserRow.id user) = Some r ->
  RelationshipRow.following r = true ->
  Inbox.on_follow E user author w
  = (Ok (Inbox.response (Some "Already following") 200), w).
Proof.
  intros Hk Hr Hf. unfold Inbox.on_follow, bind at 1.
  rewrite (resolve_known_actor E w author account Hk). unfold bind.
  rewrite (getRelationship_found E account user w r Hr), Hf. reflexivity.
Qed.

Lemma known_actor_same_users (w w' : World) (uri : string) (actor : User.t) :
  users w' = users w -> known_actor w uri actor -> known_actor w' uri actor.
Proof.
  intros Hu H.
  unfold known_actor, User.fromSql, User.findFirstUser, bind, query in *.
  rewrite Hu.
  destruct (select Users UserRow.col (users w) (eq_text Users_uri uri)
              (Some User.default_order) (Some 1)) as [l|e|]; try discriminate.
  unfold ret in *. destruct (hd_error l); exact H.
Qed.

Lemma inbox_follow (E : Env) (fuel : nat) (req : Inbox.Request) (w : World)
    (user : User.t) (author : string) (r : Inbox.Response) (w' : World) :
  authenticated E req w user ->
  Inbox.body req = Inbox.Follow_ author ->
  Inbox.on_follow E user author w = (Ok r, w') ->
  Inbox.inbox E fuel req w = (Ok r, w').
Proof.
  intros Ha Hb Hf. rewrite (inbox_authenticated E fuel req w user Ha), Hb.
  apply dispatch_result. simpl. unfold bind. rewrite Hf. reflexivity.
Qed.



(** ** What a computation keeps of the table of notes *)

Lemma bind_ok {A B} (m : M A) (k : A -> M B) (w w' : World) (b : B) :
  bind m k w = (Ok b, w') ->
  exists a w1, m w = (Ok a, w1) /\ k a w1 = (Ok b, w').
Proof.
  unfold bind. destruct (m w) as [[a|e|] w1]; intros H; try discriminate.
  exists a, w1. split; [reflexivity | exact H].
Qed.

Lemma bind_run {A B} (m : M A) (k : A -> M B) (w w1 : World) (a : A) :
  m w = (Ok a, w1) -> bind m k w = k a w1.
Proof. intros H. unfold bind. now rewrite H. Qed.

Section Keeps.
Variable Q : list NoteRow.t -> Prop.

Lemma keeps_ret {A} (a : A) : keeps_notes Q (ret a).
Proof. intros w o w' H [= <- <-]. exact H. Qed.

Lemma keeps_throw {A} (e : Error) : keeps_notes Q (@throw A e).
Proof. intros w o w' H [= <- <-]. exact H. Qed.

Lemma keeps_diverge {A} : keeps_notes Q (@diverge A).
Proof. intros w o w' H [= <- <-]. exact H. Qed.

Lemma keeps_reads {A} (m : M A) : reads_only m -> keeps_notes Q m.
Proof.
  intros Hr w o w' H Hm. specialize (Hr w). rewrite Hm in Hr. simpl in Hr.
  now subst.
Qed.

Lemma keeps_query {A} (q : World -> Outcome A) : keeps_notes Q (query q).
Proof. apply keeps_reads, reads_only_query. Qed.

Lemma keeps_bind {A B} (m : M A) (k : A -> M B) :
  keeps_notes Q m -> (forall a, keeps_notes Q (k a)) ->
  keeps_notes Q (bind m k).
Proof.
  intros Hm Hk w o w' H. unfold bind.
  destruct (m w) as [[a|e|] w1] eqn:Em; intros Hr.
  - apply (Hk a w1 o w'); [apply (Hm w _ w1 H Em) | exact Hr].
  - injection Hr as <- <-. apply (Hm w _ w1 H Em).
  - injection Hr as <- <-. apply (Hm w _ w1 H Em).
Qed.

Lemma keeps_try_catch {A} (m : M A) (handler : Error -> M A) :
  keeps_notes Q m -> (forall e, keeps_notes Q (handler e)) ->
  keeps_notes Q (try_catch m handler).
Proof.
  intros Hm Hh w o w' H. unfold try_catch.
  destruct (m w) as [[a|e|] w1] eqn:Em; intros Hr.
  - injection Hr as <- <-. apply (Hm w _ w1 H Em).
  - apply (Hh e w1 o w'); [apply (Hm w _ w1 H Em) | exact Hr].
  - injection Hr as <- <-. apply (Hm w _ w1 H Em).
Qed.

Lemma keeps_modify (f : World -> World) :
  (forall w, notes (f w) = notes w) -> keeps_notes Q (modify f).
Proof. intros Hf w o w' H [= <- <-]. now rewrite Hf. Qed.

Lemma keeps_emit (e : Event) : keeps_notes Q (emit e).
Proof. apply keeps_modify. reflexivity. Qed.

Lemma keeps_for_each {A} (xs : list A) (f : A -> M unit) :
  (forall x, keeps_notes Q (f x)) -> keeps_notes Q (for_each xs f).
Proof.
  intros Hf. induction xs as [|x xs IH]; simpl.
  - apply keeps_ret.
  - apply keeps_bind; [apply Hf | intros _; exact IH].
Qed.

Lemma keeps_map_all {A B} (xs : list A) (f : A -> M B) :
  (forall x, keeps_notes Q (f x)) -> keeps_notes Q (map_all xs f).
Proof.
  intros Hf. induction xs as [|x xs IH]; simpl.
  - apply keeps_ret.
  - apply keeps_bind; [apply Hf | intros y].
    apply keeps_bind; [exact IH | intros ys; apply keeps_ret].
Qed.

Lemma keeps_insert_user (E : Env) (values : string -> UserRow.t) :
  keeps_notes Q (Db.insert_user E values).
Proof.
  intros w o w' H. unfold Db.insert_user.
  destruct (Db.uri_free _ _ _); intros [= <- <-]; exact H.
Qed.

Lemma keeps_update_users (cond : SQL) (set : UserRow.t -> UserRow.t) :
  keeps_notes Q (Db.update_users cond set).
Proof.
  intros w o w' H. unfold Db.update_users.
  destruct (Db.update_rows _ _ _ _ _) as [[rows returning]|];
    intros [= <- <-]; exact H.
Qed.

Lemma keeps_insert_notification (E : Env)
    (values : string -> NotificationRow.t) :
  keeps_notes Q (Db.insert_notification E values).
Proof. intros w o w' H [= <- <-]. exact H. Qed.

Lemma keeps_insert_mention (noteId userId : string) :
  keeps_notes Q (Db.insert_mention noteId userId).
Proof. apply keeps_modify. reflexivity. Qed.

Lemma keeps_delete_mentions (noteId : string) :
  keeps_notes Q (Db.delete_mentions noteId).
Proof. apply keeps_modify. reflexivity. Qed.

End Keeps.

Create HintDb keeps_db.

#[local] Hint Resolve keeps_ret keeps_throw keeps_diverge keeps_query keeps_emit
  keeps_insert_user keeps_update_users keeps_insert_notification
  keeps_insert_mention keeps_delete_mentions : keeps_db.

Lemma keeps_User_fromSql Q cond orderBy :
  keeps_notes Q (User.fromSql cond orderBy).
Proof. apply keeps_reads, User_fromSql_reads. Qed.

Lemma keeps_User_fromId Q id : keeps_notes Q (User.fromId id).
Proof. apply keeps_reads, User_fromId_reads. Qed.

Lemma keeps_Note_fromSql Q cond orderBy userId :
  keeps_notes Q (Note.fromSql cond orderBy userId).
Proof. apply keeps_reads, Note_fromSql_reads. Qed.

Lemma keeps_Note_fromId Q id userId : keeps_notes Q (Note.fromId id userId).
Proof. apply keeps_reads, Note_fromId_reads. Qed.

#[local] Hint Resolve keeps_User_fromSql keeps_User_fromId keeps_Note_fromSql
  keeps_Note_fromId : keeps_db.

(** Walks a computation along its binds, loops and branches. *)
Ltac keeps :=
  repeat first
    [ assumption
    | solve [auto 1 with keeps_db nocore]
    | apply keeps_bind; [|intro]
    | apply keeps_for_each; intro
    | apply keeps_map_all; intro
    | match goal with
      | |- keeps_notes _ (match ?x with _ => _ end) => destruct x
      end ].

Lemma keeps_User_toLysand Q (this : User.t) : keeps_notes Q (User.toLysand this).
Proof. unfold User.toLysand. keeps. Qed.

Lemma keeps_User_federateToFollowers Q (this object : User.t) :
  keeps_notes Q (User.federateToFollowers this object).
Proof. unfold User.federateToFollowers. keeps. Qed.

#[local] Hint Resolve keeps_User_toLysand keeps_User_federateToFollowers
  : keeps_db.

Lemma keeps_User_update (Q : list NoteRow.t -> Prop) (this : User.t)
    (data : User.Partial) : keeps_notes Q (User.update this data).
Proof. unfold User.update. keeps. Qed.

#[local] Hint Resolve keeps_User_update : keeps_db.

Lemma keeps_User_saveFromRemote (Q : list NoteRow.t -> Prop) (E : Env)
    (uri : string) : keeps_notes Q (User.saveFromRemote E uri).
Proof. unfold User.saveFromRemote. keeps. Qed.

#[local] Hint Resolve keeps_User_saveFromRemote : keeps_db.

Lemma keeps_User_resolve (Q : list NoteRow.t -> Prop) (E : Env)
    (uri : string) : keeps_notes Q (User.resolve E uri).
Proof. unfold User.resolve. keeps. Qed.

#[local] Hint Resolve keeps_User_resolve : keeps_db.

Lemma keeps_resolve_all (Q : list NoteRow.t -> Prop) (E : Env)
    (uris : list string) : keeps_notes Q (Note.resolve_all E uris).
Proof.
  intros w o w' H. unfold Note.resolve_all.
  destruct (Nat.leb (List.length uris) 1
            || forallb (fun uri => Note.stored_user uri w) uris).
  - apply (keeps_map_all Q uris (User.resolve E)); [|exact H].
    intros x. apply keeps_User_resolve.
  - destruct (resolved_together E uris w) as [result w1].
    intros [= <- <-]. exact H.
Qed.

#[local] Hint Resolve keeps_resolve_all : keeps_db.

Section KeepsNotes.
Variable Q : list NoteRow.t -> Prop.
Hypothesis Q_insert : insert_closed Q.
Hypothesis Q_update : update_closed Q.
Variable E : Env.

Lemma keeps_insert_note (values : string -> NoteRow.t) :
  keeps_notes Q (Db.insert_note E values).
Proof.
  intros w o w' H. unfold Db.insert_note.
  destruct (Db.uri_free _ _ _) eqn:Ef; intros [= <- <-]; [|exact H].
  simpl. now apply Q_insert.
Qed.

Lemma keeps_Note_update (this : Note.t) (p : Note.Partial) :
  keeps_notes Q (Note.update this p).
Proof.
  unfold Note.update. apply keeps_bind; [|intros; apply keeps_ret].
  intros w o w' H. unfold Db.update_notes, Db.update_rows.
  destruct (in_scope _ _); intros [= <- <-]; [|exact H].
  simpl. now apply Q_update.
Qed.

Lemma keeps_fromData author content visibility is_sensitive spoiler_text
    uri mentions replyId quoteId :
  keeps_notes Q (Note.fromData E author content visibility is_sensitive
                   spoiler_text uri mentions replyId quoteId).
Proof.
  unfold Note.fromData, Note.insert, Note.mention_id.
  apply keeps_bind; [apply keeps_insert_note | intro]. keeps.
Qed.

Lemma keeps_updateFromData this content visibility is_sensitive spoiler_text
    mentions replyId quoteId :
  keeps_notes Q (Note.updateFromData E this content visibility is_sensitive
                   spoiler_text mentions replyId quoteId).
Proof.
  unfold Note.updateFromData, Note.mention_id.
  apply keeps_bind; [apply keeps_Note_update | intro]. keeps.
Qed.

Lemma keeps_resolved_id resolve target :
  (forall u p, keeps_notes Q (resolve u p)) ->
  keeps_notes Q (Note.resolved_id resolve target).
Proof. intros Hr. unfold Note.resolved_id. keeps. Qed.

Lemma keeps_saveFromRemote_with resolve uri providedNote :
  (forall u p, keeps_notes Q (resolve u p)) ->
  keeps_notes Q (Note.saveFromRemote_with E resolve uri providedNote).
Proof.
  intros Hr. pose proof (keeps_resolved_id resolve) as Hid.
  pose proof keeps_updateFromData as Hup.
  pose proof keeps_fromData as Hfd.
  unfold Note.saveFromRemote_with.
  repeat first
    [ solve [auto 1 with keeps_db nocore]
    | apply Hid; exact Hr | apply Hup | apply Hfd
    | apply keeps_bind; [|intro]
    | apply keeps_map_all; intro
    | match goal with
      | |- keeps_notes _ (match ?x with _ => _ end) => destruct x
      end ].
Qed.

Lemma keeps_resolve (fuel : nat) :
  forall uri providedNote,
    keeps_notes Q (Note.resolve E fuel uri providedNote).
Proof.
  induction fuel as [|fuel IH]; intros uri providedNote; simpl.
  - apply keeps_diverge.
  - pose proof (fun u p => keeps_saveFromRemote_with (Note.resolve E fuel)
                             u p IH) as Hs.
    unfold Note.resolve_with.
    repeat first
      [ solve [auto 1 with keeps_db nocore]
      | apply Hs
      | apply keeps_bind; [|intro]
      | match goal with
        | |- keeps_notes _ (match ?x with _ => _ end) => destruct x
        end ].
Qed.

End KeepsNotes.

(** ** Resolving a remote note *)

Lemma rows_with_uri_app (u : string) (a b : list NoteRow.t) :
  rows_with_uri u (a ++ b) = rows_with_uri u a ++ rows_with_uri u b.
Proof. apply filter_app. Qed.

Lemma rows_with_uri_free (u : string) (ns : list NoteRow.t) :
  Db.uri_free NoteRow.uri ns (Some u) = true -> rows_with_uri u ns = [].
Proof.
  unfold Db.uri_free, rows_with_uri. intros H. apply negb_true_iff in H.
  apply filter_none. intros r Hr.
  destruct (Db.uri_is u (NoteRow.uri r)) eqn:Er; [|reflexivity].
  assert (existsb (fun r => Db.uri_is u (NoteRow.uri r)) ns = true)
    by (apply existsb_exists; now exists r).
  congruence.
Qed.

Lemma rows_with_uri_map (u : string) (g : NoteRow.t -> NoteRow.t)
    (ns : list NoteRow.t) :
  (forall r, NoteRow.uri (g r) = NoteRow.uri r) ->
  rows_with_uri u (map g ns) = map g (rows_with_uri u ns).
Proof.
  intros Hg. unfold rows_with_uri. induction ns as [|r ns IH]; [reflexivity|].
  simpl. rewrite Hg. destruct (Db.uri_is u (NoteRow.uri r)); simpl;
    now rewrite IH.
Qed.

Lemma the_row_insert_closed (u i : string) : insert_closed (the_row u i).
Proof.
  intros ns row [r [Hr Hi]] Hfree. exists r. split; [|exact Hi].
  rewrite rows_with_uri_app, Hr. unfold rows_with_uri at 1. simpl.
  destruct (Db.uri_is u (NoteRow.uri row)) eqn:Eu; [|reflexivity].
  apply uri_is_true in Eu. rewrite Eu in Hfree.
  apply rows_with_uri_free in Hfree. rewrite Hfree in Hr. discriminate.
Qed.

Lemma the_row_update_closed (u i : string) : update_closed (the_row u i).
Proof.
  intros ns cond p [r [Hr Hi]]. unfold the_row.
  rewrite rows_with_uri_map by (intros x; destruct (holds _ _); reflexivity).
  rewrite Hr. simpl. eexists. split; [reflexivity|].
  destruct (holds _ _); exact Hi.
Qed.

Lemma fromData_inserts (E : Env) author content visibility is_sensitive
    spoiler_text uri mentions replyId quoteId
    (w w' : World) (created : option Note.t) (u : string) :
  Note.text_or_null uri = Some u ->
  Note.fromData E author content visibility is_sensitive spoiler_text uri
    mentions replyId quoteId w = (Ok created, w') ->
  exists row,
    rows_with_uri u (notes w') = [row] /\
    notes w' = notes w ++ [row] /\
    NoteRow.content row = contentToHtml E content /\
    NoteRow.visibility row = visibility.
Proof.
  intros Hu H. unfold Note.fromData in H.
  apply bind_ok in H. destruct H as [newNote [w1 [Hins Hrest]]].
  unfold Note.insert, Db.insert_note in Hins. cbn [NoteRow.uri] in Hins.
  rewrite Hu in Hins.
  destruct (Db.uri_free NoteRow.uri (notes w) (Some u)) eqn:Hfree;
    [|discriminate].
  injection Hins as <- <-.
  match type of Hrest with
  | ?k ?w1 = _ =>
      assert (Hk : keeps_notes (eq (notes w1)) k)
        by (unfold Note.mention_id; keeps)
  end.
  specialize (Hk _ _ _ eq_refl Hrest). cbn [notes set_notes set_next_id] in Hk.
  eexists. split; [|split; [symmetry; exact Hk|split; reflexivity]].
  rewrite <- Hk, rows_with_uri_app, (rows_with_uri_free u _ Hfree).
  unfold rows_with_uri. simpl. now rewrite String.eqb_refl.
Qed.

Lemma first_resolution_inserts (E : Env) (fuel : nat) (u : string)
    (w0 w1 : World) (n : option Note.t) (p : NoteEntity) :
  Js.truthy u = true ->
  Js.startsWith u (base_url E) = false ->
  (forall r, In r (notes w0) -> NoteRow.uri r <> Some u) ->
  fetch_note E u = inr p ->
  ne_uri p = u ->
  Note.resolve E fuel (Some u) None w0 = (Ok n, w1) ->
  exists row,
    rows_with_uri u (notes w1) = [row] /\
    NoteRow.content row = contentToHtml E (User.content_of (ne_content p)) /\
    NoteRow.visibility row = ne_visibility p.
Proof.
  intros Ht Hremote Hnew Hp Hpu H.
  destruct fuel as [|fuel]; [discriminate|]. simpl in H.
  unfold Note.resolve_with in H. cbn [truthy_text User.content_of] in H.
  rewrite Ht in H. apply bind_ok in H. destruct H as [found [wa [Hf H]]].
  rewrite (Note_fromSql_not_stored w0 u None None eq_refl Hnew) in Hf.
  injection Hf as <- <-. rewrite Hremote in H.
  unfold Note.saveFromRemote_with in H.
  cbn [truthy_text truthy_object negb andb Note.lookup_uri User.content_of] in H.
  rewrite Ht in H. cbn [negb andb] in H.
  apply bind_ok in H. destruct H as [found [wa [Hf H]]].
  rewrite (Note_fromSql_not_stored w0 u None None eq_refl Hnew) in Hf.
  injection Hf as <- <-.
  apply bind_ok in H. destruct H as [note [wb [Hfetch H]]].
  destruct (canParse E u); [|discriminate]. cbn [negb] in Hfetch.
  rewrite Hp in Hfetch. unfold bind, emit, modify, ret in Hfetch.
  injection Hfetch as <- <-.
  destruct (String.eqb (ne_type p) "Note"); [|discriminate]. cbn [negb] in H.
  destruct (Js.truthy (ne_author p)); [|discriminate]. cbn [negb] in H.
  apply bind_ok in H. destruct H as [author [wc [Hauthor H]]].
  destruct author as [author|]; [|discriminate].
  apply bind_ok in H. destruct H as [mentions [wd [Hm H]]].
  apply bind_ok in H. destruct H as [replyId [we [Hr H]]].
  apply bind_ok in H. destruct H as [quoteId [wf [Hq H]]].
  apply bind_ok in H. destruct H as [created [wg [Hc H]]].
  assert (Hn : wg = w1) by (destruct created; [now injection H | discriminate]).
  subst wg.
  assert (Hu : Note.text_or_null (ne_uri p) = Some u)
    by (rewrite Hpu; unfold Note.text_or_null; now rewrite Ht).
  destruct (fromData_inserts E _ _ _ _ _ _ _ _ _ _ _ _ u Hu Hc)
    as [row [Hrow [Hnotes [Hcontent Hvis]]]].
  exists row. repeat split; assumption.
Qed.

Lemma updateFromData_updates (E : Env) this content visibility is_sensitive
    spoiler_text mentions replyId quoteId
    (w w' : World) (updated : option Note.t) (u : string) :
  the_row u (Note.id this) (notes w) ->
  Note.updateFromData E this content visibility is_sensitive spoiler_text
    mentions replyId quoteId w = (Ok updated, w') ->
  exists row,
    rows_with_uri u (notes w') = [row] /\
    length (notes w') = length (notes w) /\
    NoteRow.id row = Note.id this /\
    NoteRow.content row = contentToHtml E content /\
    NoteRow.visibility row = visibility /\
    NoteRow.sensitive row = is_sensitive /\
    NoteRow.spoilerText row = spoiler_text.
Proof.
  intros [r [Hr Hi]] H. unfold Note.updateFromData in H.
  apply bind_ok in H. destruct H as [newNote [w1 [Hup Hrest]]].
  unfold Note.update in Hup. apply bind_ok in Hup.
  destruct Hup as [rows [w2 [Hup Hret]]]. injection Hret as _ <-.
  unfold Db.update_notes, Db.update_rows in Hup.
  change (in_scope Notes (eq_text Notes_id (Note.id this))) with true in Hup.
  injection Hup as _ <-.
  match type of Hrest with
  | ?k ?w1 = _ =>
      assert (Hk : keeps_notes (eq (notes w1)) k)
        by (unfold Note.mention_id; keeps)
  end.
  specialize (Hk _ _ _ eq_refl Hrest). cbn [notes set_notes] in Hk.
  rewrite <- Hk.
  rewrite rows_with_uri_map by (intros x; destruct (holds _ _); reflexivity).
  rewrite Hr. cbn [map]. rewrite holds_notes_id, Hi, String.eqb_refl.
  eexists. split; [reflexivity|]. split; [apply length_map|].
  repeat split. exact Hi.
Qed.

Lemma second_resolution_by_payload (E : Env) (fuel : nat) (u : string)
    (row : NoteRow.t) (w1 w2 : World) (p : NoteEntity) (n : option Note.t) :
  rows_with_uri u (notes w1) = [row] ->
  ne_uri p = u ->
  Note.resolve E fuel None (Some p) w1 = (Ok n, w2) ->
  exists row',
    rows_with_uri u (notes w2) = [row'] /\
    NoteRow.id row' = NoteRow.id row /\
    NoteRow.content row' = contentToHtml E (User.content_of (ne_content p)) /\
    NoteRow.visibility row' = ne_visibility p /\
    NoteRow.sensitive row'
      = match ne_is_sensitive p with Some b => b | None => false end /\
    NoteRow.spoilerText row' = User.content_of (ne_subject p).
Proof.
  intros Hrow Hpu H.
  destruct fuel as [|fuel]; [discriminate|]. simpl in H.
  unfold Note.resolve_with in H. cbn [truthy_text] in H.
  apply bind_ok in H. destruct H as [found [wa [Hf H]]].
  injection Hf as <- <-.
  unfold Note.saveFromRemote_with in H.
  cbn [truthy_text truthy_object negb andb Note.lookup_uri] in H.
  apply bind_ok in H. destruct H as [found [wa [Hf H]]].
  rewrite Hpu, (Note_fromSql_by_uri w1 u None None row eq_refl Hrow) in Hf.
  injection Hf as <- <-.
  apply bind_ok in H. destruct H as [note [wb [Hn H]]].
  injection Hn as <- <-.
  destruct (String.eqb (ne_type p) "Note"); [|discriminate]. cbn [negb] in H.
  destruct (Js.truthy (ne_author p)); [|discriminate]. cbn [negb] in H.
  pose proof (the_row_insert_closed u (NoteRow.id row)) as Qi.
  pose proof (the_row_update_closed u (NoteRow.id row)) as Qu.
  assert (Q1 : the_row u (NoteRow.id row) (notes w1))
    by (exists row; split; [exact Hrow | reflexivity]).
  apply bind_ok in H. destruct H as [author [wc [Hauthor H]]].
  pose proof (keeps_User_resolve (the_row u (NoteRow.id row)) E _ _ _ _ Q1
                Hauthor) as Qc.
  destruct author as [author|]; [|discriminate].
  apply bind_ok in H. destruct H as [mentions [wd [Hm H]]].
  assert (Qd : the_row u (NoteRow.id row) (notes wd)).
  { exact (keeps_resolve_all (the_row u (NoteRow.id row)) E _ _ _ _ Qc Hm). }
  apply bind_ok in H. destruct H as [replyId [we [Hr H]]].
  assert (Qe : the_row u (NoteRow.id row) (notes we)).
  { assert (K : keeps_notes (the_row u (NoteRow.id row))
                   (Note.resolved_id (Note.resolve E fuel) (ne_replies_to p)))
      by (apply keeps_resolved_id; intros; apply keeps_resolve; assumption).
    exact (K _ _ _ Qd Hr). }
  apply bind_ok in H. destruct H as [quoteId [wf [Hq H]]].
  assert (Qf : the_row u (NoteRow.id row) (notes wf)).
  { assert (K : keeps_notes (the_row u (NoteRow.id row))
                   (Note.resolved_id (Note.resolve E fuel) (ne_quotes p)))
      by (apply keeps_resolved_id; intros; apply keeps_resolve; assumption).
    exact (K _ _ _ Qe Hq). }
  destruct (updateFromData_updates E
              (Note.make row (Note.joined_mentions w1 (NoteRow.id row)))
              _ _ _ _ _ _ _ _ _ _ u Qf H)
    as [row' [Hrow' [_ [Hid [Hc [Hv [Hs Hsp]]]]]]].
  exists row'. repeat split; assumption.
Qed.

Lemma second_resolution_by_uri (E : Env) (fuel : nat) (u : string)
    (row : NoteRow.t) (w1 : World) :
  Js.truthy u = true ->
  rows_with_uri u (notes w1) = [row] ->
  Note.resolve E (S fuel) (Some u) None w1 =
  (Ok (Some (Note.make row (Note.joined_mentions w1 (NoteRow.id row)))), w1).
Proof.
  intros Ht Hrow. simpl. unfold Note.resolve_with, bind.
  cbn [truthy_text User.content_of]. rewrite Ht.
  now rewrite (Note_fromSql_by_uri w1 u None None row eq_refl Hrow).
Qed.

Lemma connect_mentions (noteId : string) (ms : list User.t)
    (rest : list (option User.t)) :
  forall w,
    for_each (map Some ms ++ rest)
      (fun mention => userId <- Note.mention_id mention ;;
                      Db.insert_mention noteId userId) w
    = for_each rest
        (fun mention => userId <- Note.mention_id mention ;;
                        Db.insert_mention noteId userId)
        (set_noteToMentions
           (fun l => l ++ map (fun u => (noteId, UserRow.id u)) ms) w).
Proof.
  induction ms as [|m ms IH]; intros w.
  - simpl. f_equal. destruct w; unfold set_noteToMentions; simpl.
    now rewrite app_nil_r.
  - simpl. unfold bind at 1. unfold Note.mention_id at 1. unfold bind at 1.
    unfold ret at 1. unfold Db.insert_mention at 1. unfold modify at 1.
    rewrite IH. f_equal. unfold set_noteToMentions. simpl.
    now rewrite <- app_assoc.
Qed.

Lemma connect_all_mentions (noteId : string) (ms : list User.t) (w : World) :
  for_each (map Some ms)
    (fun mention => userId <- Note.mention_id mention ;;
                    Db.insert_mention noteId userId) w
  = (Ok tt,
     set_noteToMentions
       (fun l => l ++ map (fun u => (noteId, UserRow.id u)) ms) w).
Proof.
  pose proof (connect_mentions noteId ms [] w) as H.
  rewrite app_nil_r in H. exact H.
Qed.

Lemma notify_mentions (E : Env) (author : User.t) (noteId : string)
    (ms : list User.t) :
  forall w, exists w' ns,
    for_each (map Some ms) (mention_notification E author noteId) w
    = (Ok tt, w') /\
    notifications w' = notifications w ++ ns /\
    map NotificationRow.notifiedId ns
    = map UserRow.id (filter User.isLocal ms) /\
    Forall (fun n => NotificationRow.type n = type_mention /\
                     NotificationRow.accountId n = UserRow.id author /\
                     NotificationRow.noteId n = Some noteId) ns /\
    users w' = users w /\ notes w' = notes w /\
    noteToMentions w' = noteToMentions w /\
    relationships w' = relationships w /\ trace w' = trace w.
Proof.
  induction ms as [|m ms IH]; intros w.
  - exists w, []. simpl. rewrite app_nil_r. repeat split. constructor.
  - simpl. unfold bind. destruct (User.isLocal m) eqn:El.
    + unfold Db.insert_notification.
      match goal with
      | |- context [for_each _ _ ?w1] =>
          destruct (IH w1) as [w' [ns [Hrun [Hn [Hm [Hf Hrest]]]]]]
      end.
      exists w'. eexists (_ :: ns). split; [exact Hrun|].
      split; [rewrite Hn; cbn [notifications set_notifications set_next_id];
              now rewrite <- app_assoc|].
      split; [simpl; now rewrite Hm|].
      split; [constructor; [repeat split | exact Hf]|].
      exact Hrest.
    + unfold ret at 1. destruct (IH w) as [w' [ns [Hrun Hrest]]].
      exists w', ns. split; [exact Hrun | exact Hrest].
Qed.

Lemma in_hd_error_map {A B} (f : A -> B) (l : list A) (x : A) :
  In x l -> exists y, hd_error (map f l) = Some (f y) /\ In y l.
Proof.
  destruct l as [|y l]; [intros []|]. intros _. exists y. split;
    [reflexivity | now left].
Qed.

Lemma known_actor_is_stored (w : World) (uri : string) (actor : User.t) :
  known_actor w uri actor -> Note.stored_user uri w = true.
Proof. unfold known_actor, Note.stored_user. now intros ->. Qed.

Lemma map_all_known_actors (E : Env) (w : World) (uris : list string) :
  (forall m, In m uris -> exists a, known_actor w m a) ->
  exists ms, map_all uris (User.resolve E) w = (Ok (map Some ms), w).
Proof.
  induction uris as [|m uris IH]; intros H.
  - exists []. reflexivity.
  - destruct (H m (or_introl eq_refl)) as [a Ha].
    destruct IH as [ms Hms]; [intros x Hx; apply H; now right|].
    exists (a :: ms). simpl.
    rewrite (bind_run _ _ _ _ _ (resolve_known_actor E w m a Ha)).
    rewrite (bind_run _ _ _ _ _ Hms). reflexivity.
Qed.

Lemma resolve_all_known_actors (E : Env) (w : World) (uris : list string) :
  (forall m, In m uris -> exists a, known_actor w m a) ->
  exists ms, Note.resolve_all E uris w = (Ok (map Some ms), w).
Proof.
  intros H. unfold Note.resolve_all.
  replace (forallb (fun uri => Note.stored_user uri w) uris) with true.
  - rewrite orb_true_r. now apply map_all_known_actors.
  - symmetry. apply forallb_forall. intros m Hm.
    destruct (H m Hm) as [a Ha]. now apply (known_actor_is_stored w m a).
Qed.

Lemma fromData_runs (E : Env) (author : User.t) (content : string)
    (visibility : Visibility) (is_sensitive : bool)
    (spoiler_text uri : string) (ms : list User.t)
    (replyId quoteId : option string) (w : World) :
  Db.uri_free NoteRow.uri (notes w) (Note.text_or_null uri) = true ->
  gen_id E (next_id w) <> EmptyString ->
  exists created w' row,
    Note.fromData E author content visibility is_sensitive spoiler_text uri
      (map Some ms) replyId quoteId w = (Ok (Some created), w') /\
    notes w' = notes w ++ [row] /\
    NoteRow.id row = gen_id E (next_id w) /\
    NoteRow.uri row = Note.text_or_null uri /\
    NoteRow.content row = contentToHtml E content /\
    users w' = users w.
Proof.
  intros Hfree Hid. unfold Note.fromData, Note.insert.
  unfold bind at 1. unfold Db.insert_note. cbn [NoteRow.uri]. rewrite Hfree.
  unfold bind at 1.
  cbn [NoteRow.id]. rewrite connect_all_mentions. unfold bind at 1.
  fold (mention_notification E author (gen_id E (next_id w))).
  match goal with
  | |- context [for_each _ _ ?w1] =>
      destruct (notify_mentions E author (gen_id E (next_id w)) ms w1)
        as [w' [ns [Hrun [Hn [Hm [Hf [Hu [Hno [Hme [_ Ht]]]]]]]]]]
  end.
  cbn [NoteRow.id]. rewrite Hrun.
  match goal with
  | |- context [Note.fromId (Some ?i) ?uid w'] =>
      destruct (Note_fromId_cases i uid w') as [r [Hr Hc]]; rewrite Hr
  end.
  destruct r as [created|].
  - do 3 eexists. split; [reflexivity|].
    split; [rewrite Hno; reflexivity|].
    split; [reflexivity|]. split; [reflexivity|]. split; [reflexivity|].
    rewrite Hu. reflexivity.
  - exfalso. destruct Hc as [Hc|Hc]; [now apply Hid|].
    eapply Hc;
      [rewrite Hno; cbn [notes set_noteToMentions set_notes set_next_id];
       apply in_or_app; right; left; reflexivity
      | reflexivity].
Qed.

Lemma updateFromData_runs (E : Env) (this : Note.t)
    (content : string) (visibility : Visibility) (is_sensitive : bool)
    (spoiler_text : string) (ms : list User.t)
    (replyId quoteId : option string) (w : World) :
  (exists n, In n (notes w) /\ NoteRow.id n = Note.id this) ->
  Note.id this <> EmptyString ->
  exists updated w',
    Note.updateFromData E this content visibility is_sensitive spoiler_text
      (map Some ms) replyId quoteId w = (Ok (Some updated), w') /\
    map NoteRow.id (notes w') = map NoteRow.id (notes w).
Proof.
  intros [n [Hn Hid]] Hne. unfold Note.updateFromData.
  unfold bind at 1. unfold Note.update. unfold bind at 1.
  unfold Db.update_notes, Db.update_rows.
  change (in_scope Notes (eq_text Notes_id (Note.id this))) with true.
  cbv iota. unfold ret at 1. unfold bind at 1.
  unfold Db.delete_mentions at 1. unfold modify at 1.
  unfold bind at 1. rewrite connect_all_mentions.
  match goal with
  | |- context [hd_error (map ?f ?l)] =>
      destruct (in_hd_error_map f l n) as [y [Hy Hyin]];
        [apply filter_In; split;
           [exact Hn | now rewrite holds_notes_id, Hid, String.eqb_refl]
        | rewrite Hy]
  end.
  apply filter_In in Hyin. destruct Hyin as [Hyin Hyh].
  rewrite holds_notes_id in Hyh. apply String.eqb_eq in Hyh.
  match goal with
  | |- context [Note.fromId (Some ?i) ?uid ?w'] =>
      destruct (Note_fromId_cases i uid w') as [r [Hr Hc]]; rewrite Hr
  end.
  cbn [NoteRow.id Note.apply_partial] in Hc.
  destruct r as [updated|].
  - do 2 eexists. split; [reflexivity|].
    cbn [notes set_noteToMentions set_notes].
    rewrite map_map. apply map_ext. intros x. now destruct (holds _ _).
  - exfalso. destruct Hc as [Hc|Hc]; [rewrite Hyh in Hc; now apply Hne|].
    cbn [notes set_noteToMentions set_notes] in Hc.
    eapply (Hc (Note.apply_partial _ y)); [|reflexivity].
    apply in_map_iff. exists y. split; [|exact Hyin].
    now rewrite holds_notes_id, Hyh, String.eqb_refl.
Qed.

Lemma uri_free_notes (ns : list NoteRow.t) (uri : string) :
  (forall n, In n ns -> NoteRow.uri n <> Some uri) ->
  Db.uri_free NoteRow.uri ns (Some uri) = true.
Proof.
  intros H. unfold Db.uri_free. apply negb_true_iff.
  destruct (existsb _ ns) eqn:Ee; [|reflexivity].
  apply existsb_exists in Ee. destruct Ee as [n [Hn Hi]].
  apply uri_is_true in Hi. now destruct (H n Hn).
Qed.

Lemma plain_payload_same_users (w w' : World) (p : NoteEntity) :
  users w' = users w -> plain_payload w p -> plain_payload w' p.
Proof.
  intros Hu [Ht [Ha [[a Hk] [Hm [Hr Hq]]]]]. repeat split; try assumption.
  - exists a. now apply (known_actor_same_users w).
  - intros m Hin. destruct (Hm m Hin) as [x Hx]. exists x.
    now apply (known_actor_same_users w).
Qed.

(** The part of [saveFromRemote] that follows the reading of the payload,
    on a plain payload. *)
Lemma plain_payload_saved (E : Env)
    (resolve : option string -> option NoteEntity -> M (option Note.t))
    (p : NoteEntity) (w : World) (k : User.t -> list (option User.t) ->
       option string -> option string -> M (option Note.t)) :
  plain_payload w p ->
  exists author ms,
    known_actor w (ne_author p) author /\
    (if negb (String.eqb (ne_type p) "Note")
     then throw (JsError "Invalid object type")
     else if negb (Js.truthy (ne_author p))
     then throw (JsError "Invalid object author")
     else
       bind (User.resolve E (ne_author p)) (fun author =>
         match author with
         | None => throw (JsError "Invalid object author")
         | Some author =>
             bind (Note.resolve_all E (ne_mentions p)) (fun mentions =>
             bind (Note.resolved_id resolve (ne_replies_to p)) (fun replyId =>
             bind (Note.resolved_id resolve (ne_quotes p)) (fun quoteId =>
               k author mentions replyId quoteId)))
         end)) w
    = k author (map Some ms) None None w.
Proof.
  intros [Ht [Ha [[a Hk] [Hm [Hr Hq]]]]].
  destruct (resolve_all_known_actors E w (ne_mentions p) Hm) as [ms Hms].
  exists a, ms. split; [exact Hk|].
  rewrite Ht, Ha, Hr, Hq. cbn [String.eqb Ascii.eqb Bool.eqb negb].
  rewrite (bind_run _ _ _ _ _ (resolve_known_actor E w _ a Hk)).
  rewrite (bind_run _ _ _ _ _ Hms). reflexivity.
Qed.

Lemma first_resolution_runs (E : Env) (fuel : nat) (u : string) (w0 : World)
    (p : NoteEntity) :
  Js.truthy u = true ->
  Js.startsWith u (base_url E) = false ->
  (forall r, In r (notes w0) -> NoteRow.uri r <> Some u) ->
  canParse E u = true ->
  fetch_note E u = inr p ->
  ne_uri p = u ->
  plain_payload w0 p ->
  gen_id E (next_id w0) <> EmptyString ->
  exists n w1 row,
    Note.resolve E (S fuel) (Some u) None w0 = (Ok (Some n), w1) /\
    notes w1 = notes w0 ++ [row] /\
    NoteRow.id row = gen_id E (next_id w0) /\
    NoteRow.uri row = Some u /\
    users w1 = users w0.
Proof.
  intros Ht Hremote Hnew Hcan Hp Hpu Hplain Hid.
  simpl. unfold Note.resolve_with. cbn [truthy_text User.content_of].
  rewrite Ht.
  rewrite (bind_run _ _ _ _ _
             (Note_fromSql_not_stored w0 u None None eq_refl Hnew)).
  rewrite Hremote. unfold Note.saveFromRemote_with.
  cbn [truthy_text truthy_object negb andb Note.lookup_uri User.content_of].
  rewrite Ht. cbn [negb andb].
  rewrite (bind_run _ _ _ _ _
             (Note_fromSql_not_stored w0 u None None eq_refl Hnew)).
  rewrite Hcan, Hp. cbn [negb].
  pose (w := set_trace (fun t => t ++ [Fetch u]) w0).
  assert (Hf : bind (emit (Fetch u)) (fun _ => ret (Some p)) w0
               = (Ok (Some p), w)) by reflexivity.
  rewrite (bind_run _ _ _ _ _ Hf).
  assert (Hplain' : plain_payload w p)
    by (apply (plain_payload_same_users w0); [reflexivity | exact Hplain]).
  match goal with
  | |- context [Note.fromData E _ ?c ?v ?s ?sp ?ur _ _ _] =>
      destruct (plain_payload_saved E (Note.resolve E fuel) p w
                  (fun author mentions replyId quoteId =>
                     bind (Note.fromData E author c v s sp ur mentions
                             replyId quoteId)
                       (fun createdNote =>
                          match createdNote with
                          | None => throw (JsError "Failed to create status")
                          | Some createdNote => ret (Some createdNote)
                          end)) Hplain')
        as [author [ms [Hk Hrun]]]
  end.
  rewrite Hrun. clear Hrun.
  destruct (fromData_runs E author (User.content_of (ne_content p))
              (ne_visibility p)
              match ne_is_sensitive p with Some b => b | None => false end
              (User.content_of (ne_subject p)) (ne_uri p) ms None None w)
    as [created [w1 [row [Hrun [Hnotes [Hrid [Hruri [Hc Hu]]]]]]]].
  - rewrite Hpu. unfold Note.text_or_null. rewrite Ht.
    now apply uri_free_notes.
  - exact Hid.
  - rewrite (bind_run _ _ _ _ _ Hrun). exists created, w1, row.
    split; [reflexivity|]. split; [exact Hnotes|]. split; [exact Hrid|].
    split; [|exact Hu].
    rewrite Hruri, Hpu. unfold Note.text_or_null. now rewrite Ht.
Qed.

Lemma payload_resolution_runs (E : Env) (fuel : nat) (u : string)
    (row : NoteRow.t) (w1 : World) (p : NoteEntity) :
  rows_with_uri u (notes w1) = [row] ->
  NoteRow.id row <> EmptyString ->
  ne_uri p = u ->
  plain_payload w1 p ->
  exists n w2,
    Note.resolve E (S fuel) None (Some p) w1 = (Ok (Some n), w2) /\
    map NoteRow.id (notes w2) = map NoteRow.id (notes w1).
Proof.
  intros Hrow Hid Hpu Hplain.
  simpl. unfold Note.resolve_with. cbn [truthy_text].
  rewrite (bind_run (ret (@None Note.t)) _ w1 w1 None eq_refl).
  unfold Note.saveFromRemote_with.
  cbn [truthy_text truthy_object negb andb Note.lookup_uri].
  rewrite Hpu.
  rewrite (bind_run _ _ _ _ _
             (Note_fromSql_by_uri w1 u None None row eq_refl Hrow)).
  rewrite (bind_run (ret (Some p)) _ w1 w1 (Some p) eq_refl).
  match goal with
  | |- context [Note.updateFromData E ?t ?c ?v ?s ?sp _ _ _] =>
      destruct (plain_payload_saved E (Note.resolve E fuel) p w1
                  (fun author mentions replyId quoteId =>
                     Note.updateFromData E t c v s sp mentions
                       replyId quoteId) Hplain)
        as [author [ms [Hk Hrun]]]
  end.
  rewrite Hrun. clear Hrun.
  assert (Hin : In row (notes w1)).
  { assert (H : In row (rows_with_uri u (notes w1)))
      by (rewrite Hrow; now left).
    apply filter_In in H. tauto. }
  apply updateFromData_runs.
  - exists row. split; [exact Hin | reflexivity].
  - exact Hid.
Qed.




(* ================================================================== *)
(** * Further properties of the code *)

(** ** Lookups *)

(** X1.  Lookup by id.  [User.fromId] and [Note.fromId] only read.  What
    they return is a stored row with the id asked for (a note with the
    mentions joined to it), the id not being empty; they return null for
    the empty id, and otherwise only when no stored row has the id. *)
Theorem lookup_by_id (i : string) (userId : option string) (w : World) :
  (exists r, User.fromId (Some i) w = (Ok r, w) /\
     match r with
     | Some u => In u (users w) /\ UserRow.id u = i /\ i <> EmptyString
     | None => i = EmptyString \/
               forall u, In u (users w) -> UserRow.id u <> i
     end) /\
  (exists r, Note.fromId (Some i) userId w = (Ok r, w) /\
     match r with
     | Some n => In (Note.status n) (notes w) /\ Note.id n = i /\
                 Note.mentions n = Note.joined_mentions w i /\
                 i <> EmptyString
     | None => i = EmptyString \/
               forall n, In n (notes w) -> NoteRow.id n <> i
     end).
Proof. split; [apply User_fromId_cases | apply Note_fromId_cases]. Qed.

(** ** Threads *)

Lemma last_cons_default {A} (l : list A) :
  forall x c : A, last (x :: l) c = last l x.
Proof.
  induction l as [|y l IH]; intros x c; [reflexivity|].
  change (last (x :: y :: l) c) with (last (y :: l) c).
  now rewrite (IH y c), (IH y x).
Qed.

Lemma parents_snoc (w : World) (c : NoteRow.t) (more : list Note.t) :
  parents w c more ->
  forall p, In (Note.status p) (notes w) ->
    NoteRow.replyId (last (map Note.status more) c) = Some (Note.id p) ->
    parents w c (more ++ [p]).
Proof.
  induction 1 as [c | c q more Hq Hr Hp IH]; intros p Hin Hl.
  - simpl in *. apply parents_cons; [exact Hin | exact Hl | apply parents_nil].
  - simpl. apply parents_cons; [exact Hq | exact Hr |].
    apply IH; [exact Hin|].
    rewrite <- Hl. f_equal. simpl map.
    symmetry. apply last_cons_default.
Qed.

Lemma getAncestors_loop_walk (fetcher : option User.t) (w : World)
    (start : NoteRow.t) (fuel : nat) :
  forall (cur : Note.t) (acc r : list Note.t) (w' : World),
    parents w start acc ->
    Note.status cur = last (map Note.status acc) start ->
    Note.getAncestors_loop fuel cur fetcher acc w = (Ok r, w') ->
    w' = w /\ parents w start r.
Proof.
  induction fuel as [|fuel IH]; intros cur acc r w' Hp Hc; simpl;
    [discriminate|].
  destruct (NoteRow.replyId (Note.status cur)) as [i|] eqn:Er; simpl;
    [|intros [= <- <-]; auto].
  destruct (Js.truthy i) eqn:Et; [|intros [= <- <-]; auto].
  unfold bind.
  destruct (Note_fromId_cases i (Note.fetcher_id fetcher) w) as [p [Hrun Hcase]].
  rewrite Hrun. destruct p as [p|]; [|intros [= <- <-]; auto].
  destruct Hcase as [Hin [Hid _]]. intros Hloop.
  apply (IH p (acc ++ [p]) r w'); [| |exact Hloop].
  - apply parents_snoc; [exact Hp | exact Hin |].
    rewrite <- Hc, Er, Hid. reflexivity.
  - rewrite map_app. simpl. now rewrite last_last.
Qed.

Lemma parents_reply_path (w : World) (c : NoteRow.t) (more : list Note.t) :
  parents w c more ->
  forall k n, In c (notes w) -> reply_path w (NoteRow.id c) k n ->
  forall j p, nth_error more j = Some p ->
    reply_path w (Note.id p) (k + S j) n.
Proof.
  induction 1 as [c | c q more Hq Hr Hp IH]; intros k n Hc Hpath j p Hj.
  - destruct j; discriminate.
  - assert (Hup : reply_path w (Note.id q) (S k) n)
      by (apply reply_path_under_child with (c := c); assumption).
    destruct j as [|j]; simpl in Hj.
    + injection Hj as <-. now replace (k + 1) with (S k) by lia.
    + replace (k + S (S j)) with (S k + S j) by lia.
      apply (IH (S k) n Hq Hup j p Hj).
Qed.

Lemma parents_in (w : World) (c : NoteRow.t) (more : list Note.t) :
  parents w c more -> forall p, In p more -> In (Note.status p) (notes w).
Proof.
  induction 1 as [c | c q more Hq Hr Hp IH]; intros p [].
  - now subst.
  - now apply IH.
Qed.

(** X2.  [getAncestors] only reads, and what it returns are stored notes
    the queried note replies to, directly or through replies: the note at
    index [i] of a result of [n] notes is [n - i] reply links above the
    queried note, so the list runs from the farthest ancestor down to the
    parent. *)
Theorem ancestors_are_the_reply_chain (fuel : nat) (this : Note.t)
    (fetcher : option User.t) (w w' : World) (l : list Note.t) :
  In (Note.status this) (notes w) ->
  Note.getAncestors fuel this fetcher w = (Ok l, w') ->
  w' = w /\
  forall i a, nth_error l i = Some a ->
    In (Note.status a) (notes w) /\
    reply_path w (Note.id a) (length l - i) (Note.status this).
Proof.
  intros Hthis. unfold Note.getAncestors. intros H.
  apply bind_ok in H. destruct H as [anc [w1 [Hloop H]]].
  unfold bind, query, ret in H. rewrite filter_viewable_keeps_all in H.
  injection H as <- <-.
  destruct (getAncestors_loop_walk fetcher w (Note.status this) fuel this [] anc
              w1 (parents_nil w _) eq_refl Hloop) as [-> Hp].
  split; [reflexivity|]. intros i a Hi.
  assert (Hlt : i < length anc).
  { rewrite <- length_rev. apply nth_error_Some. congruence. }
  rewrite nth_error_rev in Hi.
  destruct (Nat.ltb_spec i (length anc)) as [_|]; [|lia].
  split; [apply (parents_in w _ anc Hp), (nth_error_In _ _ Hi)|].
  rewrite length_rev.
  destruct anc as [|p more]; [simpl in Hlt; lia|].
  inversion Hp as [|c p' more' Hq Hr Hrest]; subst.
  simpl length in *.
  destruct (S (length more) - S i) as [|j] eqn:Ej.
  - simpl in Hi. injection Hi as <-.
    replace (S (length more) - i) with 1 by lia.
    now apply reply_child.
  - simpl in Hi.
    replace (S (length more) - i) with (1 + S j) by lia.
    apply (parents_reply_path w _ more Hrest 1 (Note.status this) Hq);
      [now apply reply_child | exact Hi].
Qed.

Lemma ancestors_are_the_reply_chain_witness :
  Scenario.chain_world 2 = Scenario.chain_world 2 /\
  forall i a,
    nth_error [Note.make (Scenario.chain_note 0) [];
               Note.make (Scenario.chain_note 1) []] i = Some a ->
    In (Note.status a) (notes (Scenario.chain_world 2)) /\
    reply_path (Scenario.chain_world 2) (Note.id a) (2 - i)
               (Scenario.chain_note 2).
Proof.
  apply (ancestors_are_the_reply_chain 3
           (Note.make (Scenario.chain_note 2) []) None
           (Scenario.chain_world 2) (Scenario.chain_world 2)).
  - simpl. auto.
  - reflexivity.
Defined.

(** X3.  The walk of [getAncestors] ends only at a note without a stored
    parent.  From a note whose parents stay within a set of notes that
    all have a stored parent (a note that replies to itself, notes that
    reply to each other), no number of iterations gives a result. *)
Theorem ancestors_of_a_cycle_never_return (within : Note.t -> Prop)
    (fetcher : option User.t) (w : World) (this : Note.t) :
  (forall n, within n ->
     exists i p, NoteRow.replyId (Note.status n) = Some i /\
                 Js.truthy i = true /\
                 fst (Note.fromId (Some i) (Note.fetcher_id fetcher) w)
                   = Ok (Some p) /\ within p) ->
  within this ->
  forall fuel, Note.getAncestors fuel this fetcher w = (Diverges, w).
Proof.
  intros HS Hthis fuel. unfold Note.getAncestors.
  assert (Hloop : forall cur acc, within cur ->
            Note.getAncestors_loop fuel cur fetcher acc w = (Diverges, w)).
  { induction fuel as [|fuel IH]; intros cur acc Hc; [reflexivity|].
    destruct (HS cur Hc) as [i [p [Hr [Ht [Hf Hp]]]]].
    simpl. rewrite Hr. simpl. rewrite Ht. simpl. unfold bind.
    rewrite (reads_only_run _ w (Note_fromId_reads _ _)), Hf.
    apply IH, Hp. }
  unfold bind. now rewrite (Hloop this [] Hthis).
Qed.

Lemma ancestors_of_a_cycle_never_return_witness :
  Note.getAncestors 1000 (Note.make Scenario.loop_a []) None
    Scenario.loop_world
  = (Diverges, Scenario.loop_world).
Proof.
  apply (ancestors_of_a_cycle_never_return
           (fun n => n = Note.make Scenario.loop_a [] \/
                     n = Note.make Scenario.loop_b [])).
  - intros n [-> | ->].
    + exists "b", (Note.make Scenario.loop_b []). repeat split.
      right. reflexivity.
    + exists "a", (Note.make Scenario.loop_a []). repeat split.
      left. reflexivity.
  - left. reflexivity.
Defined.

Lemma holds_notes_replyId_of (n : NoteRow.t) (s : string) :
  NoteRow.replyId n = Some s ->
  holds (NoteRow.col n) (eq_text Notes_replyId s) = true.
Proof.
  intros H. unfold holds, eq_text. simpl. rewrite H. simpl.
  now rewrite String.eqb_refl.
Qed.

Lemma getReplyChildren_complete (this : Note.t) (userId : option string)
    (w : World) (children : list Note.t) :
  Note.getReplyChildren this userId w = (Ok children, w) ->
  forall n, In n (notes w) -> NoteRow.replyId n = Some (Note.id this) ->
    exists c, In c children /\ Note.status c = n.
Proof.
  unfold Note.getReplyChildren, Note.manyFromSql, Note.findManyNotes, query.
  unfold select. simpl negb. cbv iota.
  intros [= <-] n Hn Hr.
  exists (Note.make n (Note.joined_mentions w (NoteRow.id n))).
  split; [|reflexivity].
  apply in_map with (f := fun r => Note.make r (Note.joined_mentions w (NoteRow.id r))).
  apply in_sort_rows, filter_In. split; [exact Hn|].
  now apply holds_notes_replyId_of.
Qed.

Lemma getDescendants_loop_complete (descend : Note.t -> M (list Note.t))
    (children : list Note.t) (w : World) :
  forall l,
    (forall c, In c children -> exists lc, descend c w = (Ok lc, w)) ->
    Note.getDescendants_loop descend children w = (Ok l, w) ->
    forall c, In c children ->
      In c l /\ forall lc, descend c w = (Ok lc, w) -> incl lc l.
Proof.
  induction children as [|x rest IH]; intros l Hd Hl c Hc; [destruct Hc|].
  simpl in Hl. unfold bind in Hl.
  destruct (Hd x (or_introl eq_refl)) as [lx Hx]. rewrite Hx in Hl.
  destruct (Note.getDescendants_loop descend rest w) as [[others|e|] w1] eqn:Er;
    try discriminate.
  unfold ret in Hl. injection Hl as <- <-.
  destruct Hc as [<- | Hc].
  - split; [left; reflexivity|]. intros lc Hlc. rewrite Hx in Hlc.
    injection Hlc as <-. intros y Hy. right. apply in_or_app. now left.
  - destruct (IH others (fun c H => Hd c (or_intror H)) eq_refl c Hc) as [Hin Hincl].
    split; [right; apply in_or_app; now right|].
    intros lc Hlc y Hy. right. apply in_or_app. right. now apply (Hincl lc).
Qed.

Lemma reply_path_split (w : World) (a : string) (k : nat) (n : NoteRow.t) :
  reply_path w a k n ->
  (k = 1 /\ In n (notes w) /\ NoteRow.replyId n = Some a) \/
  exists c j, k = S j /\ 1 <= j /\ In c (notes w) /\
              NoteRow.replyId c = Some a /\ reply_path w (NoteRow.id c) j n.
Proof.
  induction 1 as [n Hn Hr | k m n Hp IH Hn Hr]; [left; auto|].
  right. destruct IH as [[-> [Hm Hrm]] | [c [j [-> [Hj [Hc [Hrc Hpc]]]]]]].
  - exists m, 1. repeat split; auto. now apply reply_child.
  - exists c, (S j). split; [reflexivity|]. split; [lia|].
    split; [exact Hc|]. split; [exact Hrc|].
    now apply reply_below with (m := m).
Qed.

Lemma getDescendants_from_complete (fuel : nat) :
  forall (this : Note.t) (fetcher : option User.t) (depth : nat) (w : World)
         (l : list Note.t),
    20 - depth < fuel -> depth <= 20 ->
    Note.getDescendants_from fuel this fetcher depth w = (Ok l, w) ->
    forall k n, 1 <= k <= S (20 - depth) ->
      reply_path w (Note.id this) k n ->
      exists x, In x l /\ Note.status x = n.
Proof.
  induction fuel as [|fuel IH]; intros this fetcher depth w l Hf Hd Hrun k n Hk Hp;
    [lia|].
  cbn [Note.getDescendants_from] in Hrun.
  apply bind_ok in Hrun. destruct Hrun as [children [w1 [Hch Hrun]]].
  destruct (getReplyChildren_spec this (Note.fetcher_id fetcher) w)
    as [children' [Hch' _]].
  rewrite Hch' in Hch. injection Hch as <- <-.
  apply bind_ok in Hrun. destruct Hrun as [l0 [w2 [Hloop Hrun]]].
  unfold query in Hrun. rewrite filter_viewable_keeps_all in Hrun.
  injection Hrun as <- <-.
  set (descend := fun child =>
         if Nat.ltb depth 20
         then Note.getDescendants_from fuel child fetcher (depth + 1)
         else ret []) in *.
  assert (Hdesc : forall c, exists lc, descend c w2 = (Ok lc, w2) /\
            (depth < 20 -> forall j m, 1 <= j <= 20 - depth ->
               reply_path w2 (Note.id c) j m ->
               exists x, In x lc /\ Note.status x = m)).
  { intros c. unfold descend. destruct (Nat.ltb_spec depth 20) as [Hlt|Hge].
    - destruct (getDescendants_from_levels fuel c fetcher (depth + 1) w2)
        as [lc [Hlc _]]; [lia|].
      exists lc. split; [exact Hlc|]. intros _ j m Hj Hpm.
      assert (H1 : 20 - (depth + 1) < fuel) by lia.
      assert (H2 : depth + 1 <= 20) by lia.
      apply (IH c fetcher (depth + 1) w2 lc H1 H2 Hlc j m); [lia | exact Hpm].
    - exists []. split; [reflexivity | lia]. }
  assert (Hall : forall c, In c children' ->
            In c l0 /\ forall lc, descend c w2 = (Ok lc, w2) -> incl lc l0).
  { apply getDescendants_loop_complete; [|exact Hloop].
    intros c _. destruct (Hdesc c) as [lc [Hlc _]]. now exists lc. }
  destruct (reply_path_split w2 _ k n Hp)
    as [[-> [Hn Hr]] | [c [j [-> [Hj [Hc [Hrc Hpc]]]]]]].
  - destruct (getReplyChildren_complete this _ w2 children' Hch' n Hn Hr)
      as [x [Hx Hs]].
    exists x. split; [apply (Hall x Hx) | exact Hs].
  - destruct (getReplyChildren_complete this _ w2 children' Hch' c Hc Hrc)
      as [x [Hx Hs]].
    destruct (Hdesc x) as [lc [Hlc Hcomp]].
    assert (Hpx : reply_path w2 (Note.id x) j n)
      by (unfold Note.id; rewrite Hs; exact Hpc).
    assert (Hlt : depth < 20) by lia.
    assert (Hjb : 1 <= j <= 20 - depth) by lia.
    destruct (Hcomp Hlt j n Hjb Hpx) as [y [Hy Hys]].
    exists y. split; [|exact Hys].
    apply (proj2 (Hall x Hx) lc Hlc), Hy.
Qed.

(** X4.  [getDescendants], called at depth 0, always returns and only
    reads; the rows of the notes it returns are exactly the stored notes
    that are between 1 and 21 reply links below the queried note. *)
Theorem descendants_are_the_notes_within_21_levels (this : Note.t)
    (fetcher : option User.t) (w : World) :
  exists l,
    Note.getDescendants this fetcher 0 w = (Ok l, w) /\
    forall n : NoteRow.t,
      In n (map Note.status l) <->
      exists k, 1 <= k <= 21 /\ reply_path w (Note.id this) k n.
Proof.
  unfold Note.getDescendants.
  destruct (getDescendants_from_levels 21 this fetcher 0 w) as [l [Hl Hs]];
    [simpl; lia|].
  exists l. split; [exact Hl|]. intros n. split.
  - intros Hn. apply in_map_iff in Hn. destruct Hn as [x [<- Hx]].
    destruct (Hs x Hx) as [k [Hk Hp]]. exists k. split; [simpl in Hk; lia | exact Hp].
  - intros [k [Hk Hp]].
    destruct (getDescendants_from_complete 21 this fetcher 0 w l) with (k := k) (n := n)
      as [x [Hx Hxs]]; try (simpl; lia); try assumption.
    apply in_map_iff. now exists x.
Qed.

(** X5.  [isViewableByUser], case by case.  For a private note and a
    viewer: true for the author; for any other viewer the query of the
    relationships is refused.  In every other case the call only reads,
    and its value is truthy exactly when the viewer is the author, or the
    note is public or unlisted, or the note is direct and the viewer is
    among its mentions. *)
Theorem isViewableByUser_cases (this : Note.t) (user : option User.t)
    (w : World) :
  let is_author :=
    match user with
    | Some u => String.eqb (Note.getAuthor_id this) (UserRow.id u)
    | None => false
    end in
  match NoteRow.visibility (Note.status this), user with
  | private, Some _ =>
      Note.isViewableByUser this user w
      = if is_author then (Ok (js_bool true), w) else (Throw QueryError, w)
  | visibility, _ =>
      exists v,
        Note.isViewableByUser this user w = (Ok v, w) /\
        ToBoolean (js_value v) =
        (is_author ||
         match visibility with
         | public | unlisted => true
         | private => false
         | direct =>
             match user with
             | Some u =>
                 existsb (fun m => String.eqb (UserRow.id m) (UserRow.id u))
                         (Note.mentions this)
             | None => false
             end
         end)
  end.
Proof.
  intros is_author. unfold is_author.
  assert (Hother : NoteRow.visibility (Note.status this) <> private ->
            exists v,
              Note.isViewableByUser this user w = (Ok v, w) /\
              ToBoolean (js_value v) =
              (match user with
               | Some u => String.eqb (Note.getAuthor_id this) (UserRow.id u)
               | None => false
               end
               || match NoteRow.visibility (Note.status this) with
                  | public | unlisted => true
                  | private => false
                  | direct =>
                      match user with
                      | Some u =>
                          existsb (fun m => String.eqb (UserRow.id m)
                                              (UserRow.id u))
                                  (Note.mentions this)
                      | None => false
                      end
                  end))
    by (intros H; apply isViewableByUser_other_branches; now left).
  destruct (NoteRow.visibility (Note.status this)) eqn:Ev.
  - apply Hother. discriminate.
  - apply Hother. discriminate.
  - destruct user as [u|].
    + destruct (String.eqb (Note.getAuthor_id this) (UserRow.id u)) eqn:Ea.
      * unfold Note.isViewableByUser. cbv beta iota. now rewrite Ea.
      * apply isViewableByUser_private_not_author; [exact Ev|].
        now apply String.eqb_neq.
    + pose proof (isViewableByUser_other_branches this None w
                    (or_intror (or_introl eq_refl))) as H.
      rewrite Ev in H. exact H.
  - apply Hother. discriminate.
Qed.

(** ** Outbound federation *)

Lemma for_each_emit {A} (f : A -> Event) (xs : list A) :
  forall w, exists w',
    for_each xs (fun x => emit (f x)) w = (Ok tt, w') /\
    same_store w w' /\ trace w' = trace w ++ map f xs.
Proof.
  induction xs as [|x xs IH]; intros w.
  - exists w. split; [reflexivity|]. split; [repeat split|].
    simpl. now rewrite app_nil_r.
  - simpl. unfold bind, emit, modify.
    destruct (IH (set_trace (fun t => t ++ [f x]) w)) as [w' [Hrun [Hs Ht]]].
    exists w'. split; [exact Hrun|]. split; [exact Hs|].
    rewrite Ht. simpl. now rewrite <- app_assoc.
Qed.

Lemma in_remote_followers (id : string) (w : World) (u : User.t) :
  In u (User.remote_followers id w) <->
  In u (users w) /\ User.isRemote u = true /\
  exists r, In r (relationships w) /\
            RelationshipRow.subjectId r = id /\
            RelationshipRow.ownerId r = UserRow.id u /\
            RelationshipRow.following r = true.
Proof.
  unfold User.remote_followers. rewrite in_sort_rows, filter_In.
  unfold User.isRemote. rewrite andb_true_iff, existsb_exists.
  split.
  - intros [Hu [[r [Hr Hc]] Hl]]. split; [exact Hu|]. split; [exact Hl|].
    apply andb_true_iff in Hc. destruct Hc as [Hc Hf].
    apply andb_true_iff in Hc. destruct Hc as [Hs Ho].
    apply String.eqb_eq in Hs, Ho. exists r. auto.
  - intros [Hu [Hl [r [Hr [Hs [Ho Hf]]]]]]. split; [exact Hu|].
    split; [|exact Hl]. exists r. split; [exact Hr|].
    rewrite Hs, Ho, Hf, !String.eqb_refl. reflexivity.
Qed.

Lemma insert_sorted_permutation {A} (leb : A -> A -> bool) (x : A)
    (l : list A) : Permutation (insert_sorted leb x l) (x :: l).
Proof.
  induction l as [|y l IH]; simpl; [apply Permutation_refl|].
  destruct (leb x y); [apply Permutation_refl|].
  apply perm_trans with (y :: x :: l); [now apply perm_skip | apply perm_swap].
Qed.

Lemma sort_rows_permutation {A} (leb : A -> A -> bool) (l : list A) :
  Permutation (sort_rows leb l) l.
Proof.
  induction l as [|x l IH]; [apply perm_nil|].
  change (sort_rows leb (x :: l)) with (insert_sorted leb x (sort_rows leb l)).
  apply perm_trans with (x :: sort_rows leb l);
    [apply insert_sorted_permutation | now apply perm_skip].
Qed.

Section SortedRows.
Variable A : Type.
Variable leb : A -> A -> bool.
Hypothesis leb_total : forall x y, leb x y = false -> leb y x = true.

Lemma insert_sorted_sorted (x : A) (l : list A) :
  Sorted (fun a b => leb a b = true) l ->
  Sorted (fun a b => leb a b = true) (insert_sorted leb x l).
Proof.
  induction l as [|y l IH]; intros Hs; simpl.
  - repeat constructor.
  - destruct (leb x y) eqn:Exy.
    + constructor; [exact Hs | now constructor].
    + inversion Hs as [|? ? Hl Hhd]; subst. constructor; [now apply IH|].
      destruct l as [|z l]; simpl.
      * constructor. now apply leb_total.
      * destruct (leb x z); constructor;
          [now apply leb_total | now inversion Hhd].
Qed.

Lemma sort_rows_sorted (l : list A) :
  Sorted (fun a b => leb a b = true) (sort_rows leb l).
Proof.
  induction l as [|x l IH]; [constructor|].
  change (sort_rows leb (x :: l)) with (insert_sorted leb x (sort_rows leb l)).
  now apply insert_sorted_sorted.
Qed.

End SortedRows.

Lemma string_leb_total (a b : string) :
  String.leb a b = false -> String.leb b a = true.
Proof. intros H. destruct (String.leb_total a b); congruence. Qed.

(** X6.  [federateToFollowers] writes nothing to the store and sends one
    delivery per selected follower, in the order of the selection and
    nothing else: the followers delivered to are, each as often as the
    table of users holds it, the stored remote users that own a
    relationship with [following = true] whose subject is the sender, by
    descending id. *)
Theorem followers_federated_to (this object : User.t) (w : World) :
  exists followers w',
    User.federateToFollowers this object w = (Ok tt, w') /\
    same_store w w' /\
    trace w' = trace w ++
      map (fun u => Deliver (UserRow.id this) (UserRow.id u)) followers /\
    Permutation followers
      (filter
         (fun u =>
            User.isRemote u &&
            existsb (fun r =>
                       String.eqb (RelationshipRow.subjectId r)
                                  (UserRow.id this) &&
                       String.eqb (RelationshipRow.ownerId r) (UserRow.id u) &&
                       RelationshipRow.following r)
                    (relationships w))
         (users w)) /\
    Sorted (fun x y => String.leb (UserRow.id y) (UserRow.id x) = true)
           followers.
Proof.
  exists (User.remote_followers (UserRow.id this) w).
  unfold User.federateToFollowers, bind, query.
  destruct (for_each_emit (fun u => Deliver (UserRow.id this) (UserRow.id u))
              (User.remote_followers (UserRow.id this) w) w) as [w' [Hrun [Hs Ht]]].
  exists w'. split; [exact Hrun|]. split; [exact Hs|]. split; [exact Ht|].
  unfold User.remote_followers. split.
  - eapply perm_trans; [apply sort_rows_permutation|].
    erewrite filter_ext; [apply Permutation_refl|].
    intros u. unfold User.isRemote. apply andb_comm.
  - apply (sort_rows_sorted UserRow.t
             (fun x y : UserRow.t =>
                order_leb User.default_order
                  (eval (UserRow.col x) User.default_order)
                  (eval (UserRow.col y) User.default_order))).
    intros x y. simpl. apply string_leb_total.
Qed.

(** *** Deduplication by id *)

Lemma findIndex_first {A} (q : A -> bool) (pre : list A) (x : A)
    (suf : list A) :
  q x = true ->
  (Js.findIndex q (pre ++ x :: suf) = Some (length pre) <->
   forall y, In y pre -> q y = false).
Proof.
  intros Hx. induction pre as [|z pre IH]; simpl.
  - rewrite Hx. split; [intros _ y [] | reflexivity].
  - destruct (q z) eqn:Ez.
    + split; [discriminate|]. intros H. specialize (H z (or_introl eq_refl)).
      congruence.
    + destruct (Js.findIndex q (pre ++ x :: suf)) as [i|]; simpl.
      * split.
        -- intros [= Hi]. intros y [<-|Hy]; [exact Ez|].
           apply IH; [now rewrite Hi | exact Hy].
        -- intros H.
           assert (Hi : Some i = Some (length pre))
             by (apply IH; intros y Hy; apply H; now right).
           congruence.
      * split; [discriminate|]. intros H.
        assert (Hi : @None nat = Some (length pre))
          by (apply IH; intros y Hy; apply H; now right).
        discriminate.
Qed.

Section Dedup.
Variable xs : list UserRow.t.

Lemma first_of_its_id_iff (pre suf : list UserRow.t) (x : UserRow.t) :
  xs = pre ++ x :: suf ->
  (first_of_its_id xs x (length pre) = true <->
   ~ In (UserRow.id x) (map UserRow.id pre)).
Proof.
  intros Hxs. unfold first_of_its_id.
  pose proof (findIndex_first
                (fun t => String.eqb (UserRow.id t) (UserRow.id x))
                pre x suf (String.eqb_refl _)) as Hf.
  rewrite <- Hxs in Hf.
  destruct (Js.findIndex _ xs) as [i|] eqn:Ei; cbv beta iota.
  - rewrite Nat.eqb_eq. split.
    + intros <-. intros Hin. apply in_map_iff in Hin.
      destruct Hin as [y [Hy Hin]].
      pose proof (proj1 Hf eq_refl y Hin) as Hq. simpl in Hq.
      rewrite Hy, String.eqb_refl in Hq. discriminate.
    + intros Hn.
      assert (Hi : Some i = Some (length pre)).
      { apply Hf. intros y Hy.
        destruct (String.eqb (UserRow.id y) (UserRow.id x)) eqn:Ey;
          [|reflexivity].
        exfalso. apply Hn. apply String.eqb_eq in Ey. rewrite <- Ey.
        now apply in_map. }
      now injection Hi.
  - split; [discriminate|]. intros Hn. exfalso.
    assert (Hi : @None nat = Some (length pre)); [|discriminate].
    apply Hf. intros y Hy.
    destruct (String.eqb (UserRow.id y) (UserRow.id x)) eqn:Ey; [|reflexivity].
    exfalso. apply Hn. apply String.eqb_eq in Ey. rewrite <- Ey.
    now apply in_map.
Qed.

Lemma filter_from_first (suf : list UserRow.t) :
  forall pre, xs = pre ++ suf ->
    let kept := Js.filter_from (first_of_its_id xs) (length pre) suf in
    incl kept suf /\
    NoDup (map UserRow.id kept) /\
    (forall i, In i (map UserRow.id kept) -> ~ In i (map UserRow.id pre)) /\
    (forall i, In i (map UserRow.id suf) ->
               In i (map UserRow.id pre) \/ In i (map UserRow.id kept)).
Proof.
  induction suf as [|x suf IH]; intros pre Hxs; simpl.
  - split; [intros y []|]. split; [apply NoDup_nil|].
    split; intros i [].
  - assert (Hxs' : xs = (pre ++ [x]) ++ suf) by (now rewrite <- app_assoc).
    destruct (IH (pre ++ [x]) Hxs') as [Hincl [Hnd [Hdis Hcov]]].
    rewrite length_app, Nat.add_1_r in *. simpl in *.
    pose proof (first_of_its_id_iff pre suf x Hxs) as Hfirst.
    destruct (first_of_its_id xs x (length pre)) eqn:Ef; simpl.
    + assert (Hfresh : ~ In (UserRow.id x) (map UserRow.id pre))
        by (now apply Hfirst).
      split; [intros y [<-|Hy]; [now left | right; now apply Hincl]|].
      split.
      { constructor; [|exact Hnd]. intros Hin. apply (Hdis _ Hin).
        rewrite map_app. apply in_or_app. right. now left. }
      split.
      { intros i [<-|Hi]; [exact Hfresh|]. intros Hp. apply (Hdis _ Hi).
        rewrite map_app. apply in_or_app. now left. }
      intros i [<-|Hi]; [right; now left|].
      destruct (Hcov i Hi) as [Hp|Hk]; [|right; now right].
      rewrite map_app in Hp. apply in_app_or in Hp.
      destruct Hp as [Hp|[<-|[]]]; [now left | right; now left].
    + assert (Hold : In (UserRow.id x) (map UserRow.id pre)).
      { destruct (in_dec string_dec (UserRow.id x) (map UserRow.id pre))
          as [H|H]; [exact H|].
        apply Hfirst in H. discriminate. }
      split; [intros y Hy; right; now apply Hincl|].
      split; [exact Hnd|]. split.
      { intros i Hi Hp. apply (Hdis _ Hi). rewrite map_app.
        apply in_or_app. now left. }
      intros i [<-|Hi]; [now left|].
      destruct (Hcov i Hi) as [Hp|Hk]; [|now right].
      rewrite map_app in Hp. apply in_app_or in Hp.
      destruct Hp as [Hp|[<-|[]]]; now left.
Qed.

End Dedup.

Lemma in_remote_users (p : User.t -> bool) (w : World) (u : User.t) :
  In u (Note.remote_users p w) <->
  In u (users w) /\ User.isRemote u = true /\ p u = true.
Proof.
  unfold Note.remote_users. rewrite in_sort_rows, filter_In, andb_true_iff.
  reflexivity.
Qed.

(** X7.  [getUsersToFederateTo] only reads.  The list it returns holds no
    two users of the same id and only stored remote users, and it holds
    every stored remote user: the second selection has no condition but
    [isNotNull(Users.instanceId)]. *)
Theorem users_to_federate_to (this : Note.t) (w : World) :
  exists l,
    Note.getUsersToFederateTo this w = (Ok l, w) /\
    NoDup (map UserRow.id l) /\
    (forall u, In u l -> In u (users w) /\ User.isRemote u = true) /\
    (forall u, In u (users w) -> User.isRemote u = true ->
               In (UserRow.id u) (map UserRow.id l)).
Proof.
  unfold Note.getUsersToFederateTo, bind.
  set (mentioned := if Js.nonempty (Note.mentions this)
                    then query (fun w => Ok (Note.remote_users
                           (Note.inArray (map UserRow.id (Note.mentions this))) w))
                    else ret []).
  assert (Hm : exists ms, mentioned w = (Ok ms, w) /\
            forall u, In u ms -> In u (users w) /\ User.isRemote u = true).
  { unfold mentioned. destruct (Js.nonempty _).
    - eexists. split; [reflexivity|]. intros u Hu.
      apply in_remote_users in Hu. tauto.
    - exists []. split; [reflexivity | intros u []]. }
  destruct Hm as [ms [-> Hms]]. unfold query, ret.
  eexists. split; [reflexivity|].
  set (fused := ms ++ Note.remote_users (fun _ => true) w).
  destruct (filter_from_first fused fused [] eq_refl) as [Hincl [Hnd [_ Hcov]]].
  unfold Js.filter_indexed. simpl length in *.
  change (fun (user : User.t) (index : nat) =>
            match Js.findIndex
                    (fun t => String.eqb (UserRow.id t) (UserRow.id user)) fused
            with Some found => Nat.eqb index found | None => false end)
    with (first_of_its_id fused).
  split; [exact Hnd|]. split.
  - intros u Hu. apply Hincl in Hu. unfold fused in Hu.
    apply in_app_or in Hu. destruct Hu as [Hu|Hu]; [now apply Hms|].
    apply in_remote_users in Hu. tauto.
  - intros u Hu Hr.
    destruct (Hcov (UserRow.id u)) as [[]|H]; [|exact H].
    apply in_map. unfold fused. apply in_or_app. right.
    apply in_remote_users. auto.
Qed.

(** ** Resolving a remote user *)

Lemma User_fromSql_single (w : World) (cond : SQL) (u : User.t) :
  in_scope Users cond = true ->
  filter (fun r => holds (UserRow.col r) cond) (users w) = [u] ->
  User.fromSql cond User.default_order w = (Ok (Some u), w).
Proof.
  intros Hs Hf. unfold User.fromSql, User.findFirstUser, bind, query, select.
  rewrite Hs, Hf. reflexivity.
Qed.

Lemma uri_free_users (us : list UserRow.t) (uri : string) :
  (forall u, In u us -> UserRow.uri u <> Some uri) ->
  Db.uri_free UserRow.uri us (Some uri) = true.
Proof.
  intros H. unfold Db.uri_free. apply negb_true_iff.
  destruct (existsb _ us) eqn:Ee; [|reflexivity].
  apply existsb_exists in Ee. destruct Ee as [u [Hu Hi]].
  apply uri_is_true in Hi. now destruct (H u Hu).
Qed.

Lemma filter_fresh_id (us : list UserRow.t) (row : UserRow.t) :
  (forall u, In u us -> UserRow.id u <> UserRow.id row) ->
  filter (fun r => holds (UserRow.col r) (eq_text Users_id (UserRow.id row)))
         (us ++ [row]) = [row].
Proof.
  intros H. rewrite filter_app, filter_none.
  - simpl. now rewrite holds_users_id, String.eqb_refl.
  - intros u Hu. rewrite holds_users_id. apply String.eqb_neq. now apply H.
Qed.

Lemma filter_new_uri (us : list UserRow.t) (row : UserRow.t) (uri : string) :
  (forall u, In u us -> UserRow.uri u <> Some uri) ->
  UserRow.uri row = Some uri ->
  filter (fun r => holds (UserRow.col r) (eq_text Users_uri uri))
         (us ++ [row]) = [row].
Proof.
  intros H Hr. rewrite filter_app, filter_none.
  - simpl. rewrite holds_users_uri, Hr. simpl. now rewrite String.eqb_refl.
  - intros u Hu. rewrite holds_users_uri.
    destruct (Db.uri_is uri (UserRow.uri u)) eqn:Ei; [|reflexivity].
    apply uri_is_true in Ei. now destruct (H u Hu).
Qed.

Lemma truthy_nonempty (s : string) : s <> EmptyString -> Js.truthy s = true.
Proof. destruct s; [congruence | reflexivity]. Qed.

(** X8.  A remote actor is fetched once.  For a uri that is not local,
    parses and is not stored, whose fetched actor carries it, and when the
    store gives the new row an id not in use and not empty: [User.resolve]
    fetches the uri, appends one row built from the payload, registers it
    with the search index and returns it.  A second [User.resolve] of the
    uri returns that row and leaves the world as it is, whatever the
    remote serves by then. *)
Theorem remote_user_fetched_once (E E' : Env) (w : World) (uri : string)
    (data : UserEntity) :
  Js.startsWith uri (base_url E) = false ->
  canParse E uri = true ->
  fetch_user E uri = inr data ->
  ue_uri data = uri ->
  (forall u, In u (users w) -> UserRow.uri u <> Some uri) ->
  (forall u, In u (users w) -> UserRow.id u <> gen_id E (next_id w)) ->
  gen_id E (next_id w) <> EmptyString ->
  exists u w1,
    User.resolve E uri w = (Ok (Some u), w1) /\
    users w1 = users w ++ [u] /\
    UserRow.id u = gen_id E (next_id w) /\
    UserRow.uri u = Some uri /\
    User.isRemote u = true /\
    UserRow.publicKey u = ue_public_key data /\
    trace w1 = trace w ++ [Fetch uri; SearchIndex (UserRow.id u)] /\
    User.resolve E' uri w1 = (Ok (Some u), w1).
Proof.
  intros Hremote Hparse Hfetch Hu Hnew Hfresh Hid.
  pose (row := UserRow.make (gen_id E (next_id w)) (Some uri)
                 (ue_username data) (User.content_of (ue_display_name data))
                 (ue_bio data) (User.content_of (ue_avatar data))
                 (User.content_of (ue_header data)) (ue_public_key data)
                 false (Some (addInstanceIfNotExists E uri))
                 (Some (ue_endpoints data))).
  pose (w1 := set_trace (fun t => t ++ [SearchIndex (UserRow.id row)])
                (set_users (fun l => l ++ [row])
                   (set_next_id S (set_trace (fun t => t ++ [Fetch uri]) w)))).
  assert (Hagain : forall w0, users w0 = users w ++ [row] ->
            User.resolve E' uri w0 = (Ok (Some row), w0)).
  { intros w0 H0. unfold User.resolve, bind.
    rewrite (User_fromSql_single w0 (eq_text Users_uri uri) row eq_refl);
      [reflexivity|].
    rewrite H0. apply (filter_new_uri (users w)); [exact Hnew | reflexivity]. }
  exists row, w1. split.
  - unfold User.resolve at 1. unfold bind at 1.
    rewrite (User_fromSql_not_stored w uri Hnew), Hremote.
    unfold User.saveFromRemote. rewrite Hparse. cbn [negb].
    unfold bind at 1. unfold emit, modify. rewrite Hfetch, Hu.
    unfold bind at 1.
    rewrite (User_fromSql_not_stored
               (set_trace (fun t => t ++ [Fetch uri]) w) uri Hnew).
    unfold bind at 1. unfold Db.insert_user.
    cbn [UserRow.uri users set_trace next_id].
    rewrite (uri_free_users _ uri Hnew).
    unfold bind at 1. unfold User.fromId.
    cbn [UserRow.id truthy_text]. rewrite (truthy_nonempty _ Hid). cbn [negb].
    match goal with
    | |- context [User.fromSql ?c ?o ?w0] =>
        rewrite (User_fromSql_single w0 c row eq_refl)
    end.
    + reflexivity.
    + cbn [users set_users set_next_id set_trace].
      apply (filter_fresh_id (users w) row). exact Hfresh.
  - split; [reflexivity|]. split; [reflexivity|]. split; [reflexivity|].
    split; [reflexivity|]. split; [reflexivity|].
    split; [cbn; now rewrite <- app_assoc|].
    apply Hagain. reflexivity.
Qed.

Lemma remote_user_fetched_once_witness :
  exists u w1,
    User.resolve Scenario.serving_dave Scenario.dave_uri
      (Scenario.world [Scenario.alice; Scenario.bob] [] [] [])
    = (Ok (Some u), w1) /\
    users w1 = [Scenario.alice; Scenario.bob] ++ [u] /\
    UserRow.id u = "id-0" /\
    UserRow.uri u = Some Scenario.dave_uri /\
    User.isRemote u = true /\
    UserRow.publicKey u = "key-dave" /\
    trace w1 = [] ++ [Fetch Scenario.dave_uri; SearchIndex (UserRow.id u)] /\
    User.resolve Scenario.plain_env Scenario.dave_uri w1 = (Ok (Some u), w1).
Proof.
  apply (remote_user_fetched_once Scenario.serving_dave Scenario.plain_env
           (Scenario.world [Scenario.alice; Scenario.bob] [] [] [])
           Scenario.dave_uri
           (Scenario.served_user Scenario.dave_uri "key-dave")).
  - reflexivity.
  - reflexivity.
  - reflexivity.
  - reflexivity.
  - intros u [<-|[<-|[]]]; discriminate.
  - intros u [<-|[<-|[]]]; discriminate.
  - discriminate.
Defined.

Lemma known_actor_stored (w : World) (uri : string) (actor : User.t) :
  known_actor w uri actor ->
  In actor (users w) /\ UserRow.uri actor = Some uri.
Proof.
  unfold known_actor, User.fromSql, User.findFirstUser, bind, query.
  destruct (select Users UserRow.col (users w) (eq_text Users_uri uri)
              (Some User.default_order) (Some 1)) as [l|e|] eqn:Es;
    try discriminate.
  unfold ret. destruct l as [|x l]; simpl; [discriminate|].
  intros [= ->].
  destruct (select_in _ _ _ _ _ _ _ Es actor (or_introl eq_refl)) as [Hin Hh].
  split; [exact Hin|]. rewrite holds_users_uri in Hh.
  now apply uri_is_true.
Qed.

Lemma known_actor_run (w w0 : World) (uri : string) (actor : User.t) :
  users w0 = users w -> known_actor w uri actor ->
  User.fromSql (eq_text Users_uri uri) User.default_order w0
  = (Ok (Some actor), w0).
Proof.
  intros Hu Hk. apply (known_actor_same_users w w0 uri actor Hu) in Hk.
  rewrite (reads_only_run _ w0 (User_fromSql_reads _ _)). now rewrite Hk.
Qed.

Lemma refreshed_id (data : UserEntity) (u : User.t) :
  UserRow.id (refreshed data u) = UserRow.id u.
Proof. reflexivity. Qed.

Lemma saveFromRemote_of_stored_remote (E : Env) (w : World) (uri : string)
    (data : UserEntity) (found : User.t) :
  canParse E uri = true ->
  fetch_user E uri = inr data ->
  known_actor w (ue_uri data) found ->
  User.isRemote found = true ->
  (forall u, In u (users w) -> UserRow.id u = UserRow.id found -> u = found) ->
  UserRow.id found <> EmptyString ->
  exists w',
    User.saveFromRemote E uri w
    = (Throw (JsError "Cannot convert remote user to Lysand format"), w') /\
    users w' = map (fun u => if String.eqb (UserRow.id u) (UserRow.id found)
                             then refreshed data u else u) (users w) /\
    trace w' = trace w ++ [Fetch uri] /\
    notes w' = notes w /\ relationships w' = relationships w /\
    notifications w' = notifications w.
Proof.
  intros Hparse Hfetch Hk Hrem Huniq Hid.
  destruct (known_actor_stored w _ found Hk) as [Hin Huri].
  pose (w0 := set_trace (fun t => t ++ [Fetch uri]) w).
  pose (P := {| User.set_displayName :=
                  Some (User.content_of (ue_display_name data));
                User.set_note := Some (ue_bio data);
                User.set_avatar := Some (User.content_of (ue_avatar data));
                User.set_header := Some (User.content_of (ue_header data));
                User.set_publicKey := Some (ue_public_key data);
                User.set_endpoints := Some (ue_endpoints data) |}).
  pose (us := map (fun u => if holds (UserRow.col u)
                                 (eq_text Users_id (UserRow.id found))
                            then User.apply_partial P u else u) (users w)).
  pose (w' := set_users (fun _ => us) w0).
  exists w'. split.
  - unfold User.saveFromRemote. rewrite Hparse. cbn [negb].
    unfold bind at 1. unfold emit, modify. rewrite Hfetch.
    unfold bind at 1. fold w0.
    rewrite (known_actor_run w w0 _ found eq_refl Hk).
    unfold bind at 1. unfold User.update. unfold bind at 1.
    unfold Db.update_users, Db.update_rows.
    change (in_scope Users (eq_text Users_id (UserRow.id found))) with true.
    cbv iota. fold P.
    match goal with
    | |- context [hd_error ?l] =>
        assert (Hhd : hd_error l = Some (User.apply_partial P found))
    end.
    { cbn [users w0 set_trace].
      destruct (filter _ (users w)) as [|x l] eqn:Ef.
      - assert (Hf : In found (filter (fun r => holds (UserRow.col r)
                          (eq_text Users_id (UserRow.id found))) (users w)))
          by (apply filter_In; split;
              [exact Hin | now rewrite holds_users_id, String.eqb_refl]).
        rewrite Ef in Hf. destruct Hf.
      - assert (Hx : In x (filter (fun r => holds (UserRow.col r)
                          (eq_text Users_id (UserRow.id found))) (users w)))
          by (rewrite Ef; now left).
        apply filter_In in Hx. destruct Hx as [Hx Hh].
        rewrite holds_users_id in Hh. apply String.eqb_eq in Hh.
        rewrite (Huniq x Hx Hh). reflexivity. }
    rewrite Hhd. unfold bind at 1.
    match goal with
    | |- context [User.fromId (Some ?i) ?wx] =>
        destruct (User_fromId_cases i wx) as [r [Hrun Hcase]]; rewrite Hrun
    end.
    assert (Hr : r = Some (User.apply_partial P found)).
    { destruct r as [u'|].
      - destruct Hcase as [Hu' [Hid' _]]. f_equal.
        cbn [users w0 set_users set_trace] in Hu'.
        apply in_map_iff in Hu'. destruct Hu' as [u0 [<- Hu0]].
        assert (H0 : UserRow.id u0 = UserRow.id found)
          by (destruct (holds _ _) in Hid'; exact Hid').
        rewrite (Huniq u0 Hu0 H0), holds_users_id, String.eqb_refl.
        reflexivity.
      - exfalso. destruct Hcase as [He|Hno]; [now apply Hid|].
        apply (Hno (User.apply_partial P found)); [|reflexivity].
        cbn [users w0 set_users set_trace]. apply in_map_iff.
        exists found. split; [|exact Hin].
        now rewrite holds_users_id, String.eqb_refl. }
    rewrite Hr. cbn [truthy_object User.set_endpoints P].
    rewrite !orb_true_r. unfold bind at 1. unfold User.toLysand.
    replace (User.isRemote (User.apply_partial P found)) with true
      by (symmetry; exact Hrem).
    reflexivity.
  - split.
    + cbn [users w' set_users]. unfold us. apply map_ext. intros u.
      now rewrite holds_users_id.
    + repeat split.
Qed.

(** X9.  Refreshing a stored remote actor fails after the write.  When the
    fetched actor is stored as a remote user (its id not empty and of no
    other row), [User.saveFromRemote] rewrites the row from the payload
    and then throws: [update] federates the change, and [toLysand] refuses
    a remote user.  An authenticated User activity is answered 500 with
    that message, and the row stays rewritten. *)
Theorem refresh_of_a_stored_remote_user_fails (E : Env) (fuel : nat)
    (req : Inbox.Request) (w : World) (user : User.t) (uri : string)
    (data : UserEntity) (found : User.t) :
  authenticated E req w user ->
  Inbox.body req = Inbox.User_ uri ->
  canParse E uri = true ->
  fetch_user E uri = inr data ->
  known_actor w (ue_uri data) found ->
  User.isRemote found = true ->
  (forall u, In u (users w) -> UserRow.id u = UserRow.id found -> u = found) ->
  UserRow.id found <> EmptyString ->
  exists w',
    fst (User.saveFromRemote E uri w)
    = Throw (JsError "Cannot convert remote user to Lysand format") /\
    Inbox.inbox E fuel req w
    = (Ok (Inbox.jsonResponse "Failed to process request"
             "Cannot convert remote user to Lysand format" 500), w') /\
    users w' = map (fun u => if String.eqb (UserRow.id u) (UserRow.id found)
                             then refreshed data u else u) (users w) /\
    trace w' = trace w ++ [Fetch uri].
Proof.
  intros Ha Hb Hparse Hfetch Hk Hrem Huniq Hid.
  destruct (saveFromRemote_of_stored_remote E w uri data found Hparse Hfetch
              Hk Hrem Huniq Hid) as [w' [Hrun [Hu [Ht _]]]].
  exists w'. split; [now rewrite Hrun|]. split; [|split; assumption].
  rewrite (inbox_authenticated E fuel req w user Ha), Hb.
  unfold Inbox.dispatch, try_catch, Inbox.parseBody, Inbox.on_user, bind.
  rewrite Hrun. reflexivity.
Qed.

Lemma refresh_of_a_stored_remote_user_fails_witness :
  exists w',
    fst (User.saveFromRemote Scenario.serving_bob Scenario.bob_uri
           (Scenario.world [Scenario.alice; Scenario.bob] [] [] []))
    = Throw (JsError "Cannot convert remote user to Lysand format") /\
    Inbox.inbox Scenario.serving_bob 1 Scenario.bob_refreshes
      (Scenario.world [Scenario.alice; Scenario.bob] [] [] [])
    = (Ok (Inbox.jsonResponse "Failed to process request"
             "Cannot convert remote user to Lysand format" 500), w') /\
    users w' = map (fun u => if String.eqb (UserRow.id u)
                                  (UserRow.id Scenario.bob)
                             then refreshed
                                    (Scenario.served_user Scenario.bob_uri
                                       "key-bob-2") u
                             else u)
                   (users (Scenario.world [Scenario.alice; Scenario.bob]
                             [] [] [])) /\
    trace w' = trace (Scenario.world [Scenario.alice; Scenario.bob] [] [] [])
               ++ [Fetch Scenario.bob_uri].
Proof.
  apply (refresh_of_a_stored_remote_user_fails Scenario.serving_bob 1
           Scenario.bob_refreshes
           (Scenario.world [Scenario.alice; Scenario.bob] [] [] [])
           Scenario.alice Scenario.bob_uri
           (Scenario.served_user Scenario.bob_uri "key-bob-2") Scenario.bob).
  - repeat split.
  - reflexivity.
  - reflexivity.
  - reflexivity.
  - reflexivity.
  - reflexivity.
  - intros u [<-|[<-|[]]]; [discriminate | reflexivity].
  - discriminate.
Defined.

(** X10.  Failures of a remote resolution reach the caller.  For a uri
    that is not local and not stored: if it does not parse, [User.resolve]
    and [Note.resolve] throw before any fetch and the world is unchanged;
    if the fetch fails, they throw what the fetch threw, the fetch being
    their only effect. *)
Theorem remote_failures_propagate (E : Env) (fuel : nat) (uri : string)
    (w : World) :
  uri <> EmptyString ->
  Js.startsWith uri (base_url E) = false ->
  (forall u, In u (users w) -> UserRow.uri u <> Some uri) ->
  (forall n, In n (notes w) -> NoteRow.uri n <> Some uri) ->
  (canParse E uri = false ->
   User.resolve E uri w = (Throw (JsError ("Invalid URI to parse " ++ uri)), w) /\
   Note.resolve E (S fuel) (Some uri) None w
   = (Throw (JsError ("Invalid URI to parse " ++ uri)), w)) /\
  (canParse E uri = true ->
   (forall e, fetch_user E uri = inl e ->
      User.resolve E uri w
      = (Throw e, set_trace (fun t => t ++ [Fetch uri]) w)) /\
   (forall e, fetch_note E uri = inl e ->
      Note.resolve E (S fuel) (Some uri) None w
      = (Throw e, set_trace (fun t => t ++ [Fetch uri]) w))).
Proof.
  intros Hne Hremote Husers Hnotes.
  assert (Ht : Js.truthy uri = true) by now apply truthy_nonempty.
  assert (Hu : forall r,
            User.saveFromRemote E uri w = r -> User.resolve E uri w = r).
  { intros r <-. unfold User.resolve, bind.
    now rewrite (User_fromSql_not_stored w uri Husers), Hremote. }
  assert (Hn : exists k, Note.resolve E (S fuel) (Some uri) None w
               = bind (if negb (canParse E uri)
                       then throw (JsError ("Invalid URI to parse " ++ uri))
                       else emit (Fetch uri) ;;;
                            match fetch_note E uri with
                            | inl e => throw e
                            | inr fetched => ret (Some fetched)
                            end)
                      k w).
  { eexists. cbn [Note.resolve]. unfold Note.resolve_with.
    cbn [truthy_text User.content_of]. rewrite Ht. unfold bind at 1.
    rewrite (Note_fromSql_not_stored w uri None None eq_refl Hnotes), Hremote.
    unfold Note.saveFromRemote_with.
    cbn [truthy_text truthy_object negb andb Note.lookup_uri User.content_of].
    rewrite Ht. cbn [negb andb]. unfold bind at 1.
    rewrite (Note_fromSql_not_stored w uri None None eq_refl Hnotes).
    reflexivity. }
  destruct Hn as [k Hn].
  split; intros Hparse.
  - split.
    + apply Hu. unfold User.saveFromRemote. now rewrite Hparse.
    + rewrite Hn, Hparse. reflexivity.
  - split; intros e He.
    + apply Hu. unfold User.saveFromRemote. rewrite Hparse. cbn [negb].
      unfold bind, emit, modify. now rewrite He.
    + rewrite Hn, Hparse. cbn [negb]. unfold bind, emit, modify.
      now rewrite He.
Qed.

Lemma remote_failures_propagate_witness :
  (canParse Scenario.plain_env Scenario.dave_uri = false ->
   User.resolve Scenario.plain_env Scenario.dave_uri
     (Scenario.world [Scenario.alice; Scenario.bob] [] [] [])
   = (Throw (JsError ("Invalid URI to parse " ++ Scenario.dave_uri)),
      Scenario.world [Scenario.alice; Scenario.bob] [] [] []) /\
   Note.resolve Scenario.plain_env 1 (Some Scenario.dave_uri) None
     (Scenario.world [Scenario.alice; Scenario.bob] [] [] [])
   = (Throw (JsError ("Invalid URI to parse " ++ Scenario.dave_uri)),
      Scenario.world [Scenario.alice; Scenario.bob] [] [] [])) /\
  (canParse Scenario.plain_env Scenario.dave_uri = true ->
   (forall e, fetch_user Scenario.plain_env Scenario.dave_uri = inl e ->
      User.resolve Scenario.plain_env Scenario.dave_uri
        (Scenario.world [Scenario.alice; Scenario.bob] [] [] [])
      = (Throw e, set_trace (fun t => t ++ [Fetch Scenario.dave_uri])
                    (Scenario.world [Scenario.alice; Scenario.bob] [] [] []))) /\
   (forall e, fetch_note Scenario.plain_env Scenario.dave_uri = inl e ->
      Note.resolve Scenario.plain_env 1 (Some Scenario.dave_uri) None
        (Scenario.world [Scenario.alice; Scenario.bob] [] [] [])
      = (Throw e, set_trace (fun t => t ++ [Fetch Scenario.dave_uri])
                    (Scenario.world [Scenario.alice; Scenario.bob] [] [] [])))).
Proof.
  apply (remote_failures_propagate Scenario.plain_env 0 Scenario.dave_uri
           (Scenario.world [Scenario.alice; Scenario.bob] [] [] [])).
  - discriminate.
  - reflexivity.
  - intros u [<-|[<-|[]]]; discriminate.
  - intros n [].
Defined.

(** ** Deletion *)

Lemma select_same_matches {Row} (t : table) (cols : Row -> column -> sql_value)
    (rows rows' : list Row) (cond : SQL) (orderBy : option SQL)
    (limit : option nat) :
  filter (fun r => holds (cols r) cond) rows
  = filter (fun r => holds (cols r) cond) rows' ->
  select t cols rows cond orderBy limit = select t cols rows' cond orderBy limit.
Proof. intros H. unfold select. now rewrite H. Qed.

Lemma filter_both {A} (f g : A -> bool) (l : list A) :
  filter f (filter g l) = filter (fun x => f x && g x) l.
Proof.
  induction l as [|x l IH]; [reflexivity|]. simpl.
  destruct (g x); simpl; [|now rewrite andb_false_r].
  rewrite andb_true_r. destruct (f x); now rewrite IH.
Qed.

Lemma User_fromId_after_delete (this : string) (w w' : World) :
  users w' = filter (fun u => negb (String.eqb (UserRow.id u) this)) (users w) ->
  fst (User.fromId (Some this) w') = Ok None /\
  forall i, i <> this ->
    fst (User.fromId (Some i) w') = fst (User.fromId (Some i) w).
Proof.
  intros Hu. split.
  - destruct (User_fromId_cases this w') as [r [Hrun Hcase]]. rewrite Hrun.
    destruct r as [u|]; [|reflexivity]. destruct Hcase as [Hin [Hid _]].
    rewrite Hu in Hin. apply filter_In in Hin. destruct Hin as [_ Hne].
    rewrite Hid, String.eqb_refl in Hne. discriminate.
  - intros i Hi. unfold User.fromId. destruct (negb (truthy_text (Some i)));
      [reflexivity|].
    unfold User.fromSql, User.findFirstUser, bind, query.
    rewrite (select_same_matches Users UserRow.col (users w') (users w)
               (eq_text Users_id i) (Some User.default_order) (Some 1)).
    + destruct (select _ _ _ _ _ _) as [l|e|]; try reflexivity.
      unfold ret. now destruct (hd_error l).
    + rewrite Hu, filter_both. apply filter_ext. intros u.
      rewrite holds_users_id.
      destruct (String.eqb (UserRow.id u) i) eqn:Ei; [|reflexivity].
      apply String.eqb_eq in Ei. rewrite Ei.
      apply String.eqb_neq in Hi. now rewrite Hi.
Qed.

Lemma Note_fromId_after_delete (this : string) (userId : option string)
    (w w' : World) :
  notes w' = filter (fun n => negb (String.eqb (NoteRow.id n) this)) (notes w) ->
  users w' = users w -> noteToMentions w' = noteToMentions w ->
  fst (Note.fromId (Some this) userId w') = Ok None /\
  forall i, i <> this ->
    fst (Note.fromId (Some i) userId w') = fst (Note.fromId (Some i) userId w).
Proof.
  intros Hn Hu Hm. split.
  - destruct (Note_fromId_cases this userId w') as [r [Hrun Hcase]].
    rewrite Hrun.
    destruct r as [n|]; [|reflexivity]. destruct Hcase as [Hin [Hid _]].
    rewrite Hn in Hin. apply filter_In in Hin. destruct Hin as [_ Hne].
    unfold Note.id in Hid. rewrite Hid, String.eqb_refl in Hne. discriminate.
  - intros i Hi. unfold Note.fromId. destruct (negb (truthy_text (Some i)));
      [reflexivity|].
    unfold Note.fromSql, Note.findManyNotes, bind, query.
    rewrite (select_same_matches Notes NoteRow.col (notes w') (notes w)
               (eq_text Notes_id i) (Some (Note.or_default None)) (Some 1)).
    + unfold Note.joined_mentions. rewrite Hu, Hm.
      destruct (select _ _ _ _ _ _) as [l|e|]; try reflexivity.
      now destruct (map _ l).
    + rewrite Hn, filter_both. apply filter_ext. intros n.
      rewrite holds_notes_id.
      destruct (String.eqb (NoteRow.id n) i) eqn:Ei; [|reflexivity].
      apply String.eqb_eq in Ei. rewrite Ei.
      apply String.eqb_neq in Hi. now rewrite Hi.
Qed.

(** X11.  [User.delete] removes the user rows that have the id of the
    receiver and no other user row, and returns the first of them in the
    order of the table (null when there is none); afterwards the lookup of
    that id gives null and the lookup of every other user id gives what it
    gave before.  [Note.delete] returns the first stored row that has the
    id of the receiver (null when there is none), and afterwards the lookup
    of that id gives null. *)
Theorem deleted_rows_are_gone (w : World) (userId : option string) :
  (forall this : User.t, exists r w',
     User.delete this w = (Ok r, w') /\
     users w' = filter (fun u => negb (String.eqb (UserRow.id u)
                                         (UserRow.id this))) (users w) /\
     r = hd_error (filter (fun u => String.eqb (UserRow.id u)
                                      (UserRow.id this)) (users w)) /\
     fst (User.fromId (Some (UserRow.id this)) w') = Ok None /\
     forall i, i <> UserRow.id this ->
       fst (User.fromId (Some i) w') = fst (User.fromId (Some i) w)) /\
  (forall this : Note.t, exists r w',
     Note.delete this w = (Ok r, w') /\
     r = hd_error (filter (fun n => String.eqb (NoteRow.id n)
                                      (Note.id this)) (notes w)) /\
     fst (Note.fromId (Some (Note.id this)) userId w') = Ok None).
Proof.
  split; intros this.
  - unfold User.delete, bind, Db.delete_users, Db.delete_rows.
    change (in_scope Users (eq_text Users_id (UserRow.id this))) with true.
    cbv iota. do 2 eexists. split; [reflexivity|].
    assert (Hu : forall f : UserRow.t -> bool,
              users (set_users (fun _ => filter f (users w)) w)
              = filter f (users w)) by reflexivity.
    split.
    { rewrite Hu. apply filter_ext. intros u. now rewrite holds_users_id. }
    split.
    { f_equal. apply filter_ext. intros u. apply holds_users_id. }
    apply User_fromId_after_delete. rewrite Hu. apply filter_ext.
    intros u. now rewrite holds_users_id.
  - unfold Note.delete, bind, Db.delete_notes, Db.delete_rows.
    change (in_scope Notes (eq_text Notes_id (Note.id this))) with true.
    cbv iota. do 2 eexists. split; [reflexivity|].
    assert (Hu : forall f : NoteRow.t -> bool,
              notes (set_notes (fun _ => filter f (notes w)) w)
              = filter f (notes w)) by reflexivity.
    split.
    { f_equal. apply filter_ext. intros n. apply holds_notes_id. }
    apply (Note_fromId_after_delete (Note.id this) userId w); [|reflexivity..].
    rewrite Hu. apply filter_ext. intros u. now rewrite holds_notes_id.
Qed.

(** ** Writing a note and its mentions *)

Lemma uri_free_rows (ns : list NoteRow.t) (u : string) :
  Db.uri_free NoteRow.uri ns (Some u) = true ->
  forall n, In n ns -> NoteRow.uri n <> Some u.
Proof.
  intros H n Hn Hu. apply rows_with_uri_free in H.
  assert (Hin : In n (rows_with_uri u ns)).
  { apply filter_In. split; [exact Hn|]. now apply uri_is_true. }
  rewrite H in Hin. destruct Hin.
Qed.





(** ** What a payload must be *)

Lemma Note_fromSql_uri_ok (u : string) (w : World) :
  exists r, Note.fromSql (eq_text Notes_uri u) None None w = (Ok r, w).
Proof.
  unfold Note.fromSql, Note.findManyNotes, bind, query, select.
  cbn [Note.or_default in_scope eq_text Note.default_order column_table
       table_eqb andb negb].
  destruct (map _ _); eexists; reflexivity.
Qed.

Lemma payload_check (E : Env) (note : NoteEntity)
    (k : User.t -> M (option Note.t)) (w : World) :
  ne_type note <> "Note" \/ ne_author note = EmptyString ->
  exists e,
    (if negb (String.eqb (ne_type note) "Note")
     then throw (JsError "Invalid object type")
     else if negb (Js.truthy (ne_author note))
     then throw (JsError "Invalid object author")
     else author <- User.resolve E (ne_author note) ;;
          match author with
          | None => throw (JsError "Invalid object author")
          | Some author => k author
          end) w = (Throw e, w) /\
    (e = JsError "Invalid object type" \/ e = JsError "Invalid object author").
Proof.
  intros Hbad. destruct (String.eqb (ne_type note) "Note") eqn:Et; cbn [negb].
  - apply String.eqb_eq in Et. destruct Hbad as [Hbad|Hbad]; [congruence|].
    rewrite Hbad. cbn. eexists. split; [reflexivity | now right].
  - eexists. split; [reflexivity | now left].
Qed.

(** X14.  An object that is not of type Note, or that names no author,
    is refused before anything is resolved or written.  Given as a
    payload, [Note.saveFromRemote] and [Note.resolve] throw and leave the
    world as it is; fetched from a remote uri that is not stored,
    [Note.resolve] throws after the fetch, its only effect. *)
Theorem note_payload_refused (E : Env) (fuel : nat) (note : NoteEntity)
    (w : World) :
  ne_type note <> "Note" \/ ne_author note = EmptyString ->
  (exists e,
     Note.saveFromRemote E fuel None (Some note) w = (Throw e, w) /\
     Note.resolve E (S fuel) None (Some note) w = (Throw e, w) /\
     (e = JsError "Invalid object type" \/
      e = JsError "Invalid object author")) /\
  (forall uri, uri <> EmptyString ->
     Js.startsWith uri (base_url E) = false ->
     canParse E uri = true -> fetch_note E uri = inr note ->
     (forall n, In n (notes w) -> NoteRow.uri n <> Some uri) ->
     exists e,
       Note.resolve E (S fuel) (Some uri) None w
       = (Throw e, set_trace (fun t => t ++ [Fetch uri]) w) /\
       (e = JsError "Invalid object type" \/
        e = JsError "Invalid object author")).
Proof.
  intros Hbad. split.
  - destruct (Note_fromSql_uri_ok (ne_uri note) w) as [found Hfound].
    assert (Hs : forall resolve, exists e,
              Note.saveFromRemote_with E resolve None (Some note) w
              = (Throw e, w) /\
              (e = JsError "Invalid object type" \/
               e = JsError "Invalid object author")).
    { intros resolve. unfold Note.saveFromRemote_with.
      cbn [truthy_text truthy_object negb andb Note.lookup_uri].
      unfold bind at 1. rewrite Hfound. unfold bind at 1. unfold ret at 1.
      apply payload_check; assumption. }
    destruct (Hs (Note.resolve E fuel)) as [e [He Hmsg]].
    exists e. split; [exact He|]. split; [|exact Hmsg].
    cbn [Note.resolve]. unfold Note.resolve_with. cbn [truthy_text].
    unfold bind at 1. unfold ret at 1. exact He.
  - intros uri Hne Hremote Hparse Hfetch Hnew.
    assert (Ht : Js.truthy uri = true) by now apply truthy_nonempty.
    cbn [Note.resolve]. unfold Note.resolve_with.
    cbn [truthy_text User.content_of]. rewrite Ht. unfold bind at 1.
    rewrite (Note_fromSql_not_stored w uri None None eq_refl Hnew), Hremote.
    unfold Note.saveFromRemote_with.
    cbn [truthy_text truthy_object negb andb Note.lookup_uri User.content_of].
    rewrite Ht. cbn [negb andb]. unfold bind at 1.
    rewrite (Note_fromSql_not_stored w uri None None eq_refl Hnew).
    rewrite Hparse. cbn [negb]. unfold bind at 1. unfold bind at 1.
    unfold emit, modify. rewrite Hfetch. unfold ret at 1.
    apply payload_check; assumption.
Qed.

Lemma note_payload_refused_witness :
  (exists e,
     Note.saveFromRemote Scenario.plain_env 0 None (Some Scenario.a_like)
       (Scenario.world [Scenario.alice; Scenario.bob] [] [] [])
     = (Throw e, Scenario.world [Scenario.alice; Scenario.bob] [] [] []) /\
     Note.resolve Scenario.plain_env 1 None (Some Scenario.a_like)
       (Scenario.world [Scenario.alice; Scenario.bob] [] [] [])
     = (Throw e, Scenario.world [Scenario.alice; Scenario.bob] [] [] []) /\
     (e = JsError "Invalid object type" \/
      e = JsError "Invalid object author")) /\
  (forall uri, uri <> EmptyString ->
     Js.startsWith uri (base_url Scenario.plain_env) = false ->
     canParse Scenario.plain_env uri = true ->
     fetch_note Scenario.plain_env uri = inr Scenario.a_like ->
     (forall n, In n (notes (Scenario.world [Scenario.alice; Scenario.bob]
                               [] [] [])) ->
                NoteRow.uri n <> Some uri) ->
     exists e,
       Note.resolve Scenario.plain_env 1 (Some uri) None
         (Scenario.world [Scenario.alice; Scenario.bob] [] [] [])
       = (Throw e, set_trace (fun t => t ++ [Fetch uri])
                     (Scenario.world [Scenario.alice; Scenario.bob] [] [] [])) /\
       (e = JsError "Invalid object type" \/
        e = JsError "Invalid object author")).
Proof.
  apply (note_payload_refused Scenario.plain_env 0 Scenario.a_like
           (Scenario.world [Scenario.alice; Scenario.bob] [] [] [])).
  left. discriminate.
Defined.

(** ** The checks of the handler *)

(** X15.  A request to the inbox of an id that no stored user has is
    answered 404 and leaves the world as it is, whatever its headers and
    body (its origin not being blocked). *)
Theorem unknown_inbox_not_found (E : Env) (fuel : nat) (req : Inbox.Request)
    (w : World) :
  Inbox.origin_blocked E (Inbox.origin req) = false ->
  (forall u, In u (users w) -> UserRow.id u <> Inbox.uuid req) ->
  Inbox.inbox E fuel req w
  = (Ok (Inbox.errorResponse "User not found" 404), w).
Proof.
  intros Hb Hno. unfold Inbox.inbox. rewrite Hb. unfold bind.
  destruct (User_fromId_cases (Inbox.uuid req) w) as [r [Hrun Hcase]].
  rewrite Hrun. destruct r as [u|]; [|reflexivity].
  destruct Hcase as [Hin [Hid _]]. now destruct (Hno u Hin).
Qed.

Lemma unknown_inbox_not_found_witness :
  Inbox.inbox Scenario.plain_env 1 Scenario.signed_follow
    (Scenario.world [Scenario.bob; Scenario.carol] [] [] [])
  = (Ok (Inbox.errorResponse "User not found" 404),
     Scenario.world [Scenario.bob; Scenario.carol] [] [] []).
Proof.
  apply (unknown_inbox_not_found Scenario.plain_env 1 Scenario.signed_follow
           (Scenario.world [Scenario.bob; Scenario.carol] [] [] [])).
  - reflexivity.
  - intros u [<-|[<-|[]]]; discriminate.
Defined.

(** ** Reading the headers *)

Lemma string_append_empty (s : string) : (s ++ EmptyString)%string = s.
Proof. induction s as [|c s IH]; simpl; [reflexivity | now rewrite IH]. Qed.

Lemma string_append_assoc (a b c : string) :
  ((a ++ b) ++ c)%string = (a ++ (b ++ c))%string.
Proof. induction a as [|x a IH]; simpl; [reflexivity | now rewrite IH]. Qed.

Lemma split_from_without (sep : string) (s : string) :
  forall cur, Js.includes s sep = false ->
    Js.split_from sep s 0 cur = [(cur ++ s)%string].
Proof.
  induction s as [|c s IH]; intros cur H.
  - simpl. now rewrite string_append_empty.
  - cbn [Js.includes] in H. apply orb_false_iff in H. destruct H as [Hp Hi].
    cbn [Js.split_from]. rewrite Hp. rewrite (IH _ Hi).
    now rewrite string_append_assoc.
Qed.

Lemma split_without (s sep : string) :
  Js.includes s sep = false -> Js.split s sep = [s].
Proof. intros H. unfold Js.split. now rewrite split_from_without. Qed.

Lemma split_from_skip (sep a t : string) :
  forall cur, Js.split_from sep (a ++ t) (String.length a) cur
              = Js.split_from sep t 0 cur.
Proof.
  induction a as [|c a IH]; intros cur; simpl.
  - destruct t; reflexivity.
  - apply IH.
Qed.

Lemma prefix_append (a t : string) : String.prefix a (a ++ t) = true.
Proof.
  induction a as [|c a IH]; simpl; [destruct t; reflexivity|].
  destruct (ascii_dec c c); [exact IH | congruence].
Qed.

Lemma split_at_separator (sep t : string) :
  sep <> EmptyString ->
  Js.split (sep ++ t) sep = EmptyString :: Js.split t sep.
Proof.
  intros Hne. unfold Js.split. destruct sep as [|c sep]; [congruence|].
  change ((String c sep ++ t)%string) with (String c (sep ++ t)).
  cbn [Js.split_from].
  change (String c (sep ++ t)) with ((String c sep ++ t)%string).
  rewrite prefix_append. f_equal.
  cbn [String.length]. rewrite Nat.sub_succ, Nat.sub_0_r.
  apply split_from_skip.
Qed.

Lemma bearer_token_absent (authorization : option string) :
  authorization = None \/
  (exists a, authorization = Some a /\ Js.includes a "Bearer " = false) ->
  Inbox.bearer_token authorization = None.
Proof.
  intros [-> | [a [-> H]]]; [reflexivity|].
  unfold Inbox.bearer_token. now rewrite (split_without _ _ H).
Qed.

Lemma bearer_token_present (token : string) :
  Js.includes token "Bearer " = false ->
  Inbox.bearer_token (Some ("Bearer " ++ token)%string) = Some token.
Proof.
  intros H. unfold Inbox.bearer_token.
  rewrite (split_at_separator "Bearer " token) by discriminate.
  now rewrite (split_without _ _ H).
Qed.

(** X16.  The bridge applies only to requests that present a bearer
    token: when the bridge is disabled, or the request has no
    Authorization header, or the header does not contain the word Bearer
    followed by a space, the request is authenticated by its signature. *)
Theorem signature_verified_without_bearer (E : Env) (req : Inbox.Request) :
  bridge_enabled E = false \/
  Inbox.authorization req = None \/
  (exists a, Inbox.authorization req = Some a /\
             Js.includes a "Bearer " = false) ->
  Inbox.authenticate E req = Inbox.verify_signature E req.
Proof.
  intros H. unfold Inbox.authenticate, Inbox.bridge.
  destruct (bridge_enabled E); [|reflexivity].
  destruct H as [H|H]; [discriminate|].
  now rewrite (bearer_token_absent _ H).
Qed.

Lemma signature_verified_without_bearer_witness :
  Inbox.authenticate Scenario.bridge_env
    (Scenario.request "https://remote.example" (Some "Basic secret")
       Scenario.signed_by_bob None Scenario.bob_follows)
  = Inbox.verify_signature Scenario.bridge_env
      (Scenario.request "https://remote.example" (Some "Basic secret")
         Scenario.signed_by_bob None Scenario.bob_follows).
Proof.
  apply (signature_verified_without_bearer Scenario.bridge_env).
  right. right. exists "Basic secret". split; reflexivity.
Defined.

Lemma prefix_empty (t : string) : String.prefix EmptyString t = true.
Proof. destruct t; reflexivity. Qed.

Lemma prefix_char (c d : ascii) (t : string) :
  String.prefix (String c EmptyString) (String d t) = Ascii.eqb c d.
Proof.
  simpl. rewrite prefix_empty.
  destruct (ascii_dec c d) as [->|H]; [now rewrite Ascii.eqb_refl|].
  symmetry. now apply Ascii.eqb_neq.
Qed.

Lemma split_from_char (c : ascii) (q r : string) :
  forall cur, Js.includes q (String c EmptyString) = false ->
    exists l, Js.split_from (String c EmptyString) (q ++ String c r) 0 cur
              = (cur ++ q)%string :: l.
Proof.
  induction q as [|d q IH]; intros cur H.
  - cbn [append Js.split_from]. rewrite prefix_char, Ascii.eqb_refl.
    rewrite string_append_empty. eexists. reflexivity.
  - cbn [Js.includes] in H. apply orb_false_iff in H. destruct H as [Hp Hi].
    rewrite prefix_char in Hp.
    change ((String d q ++ String c r)%string) with (String d (q ++ String c r)).
    cbn [Js.split_from]. rewrite prefix_char, Hp.
    destruct (IH (cur ++ String d EmptyString)%string Hi) as [l Hl].
    exists l. rewrite Hl. now rewrite string_append_assoc.
Qed.

Lemma strip_dquotes_quoted (k : string) :
  Js.includes k (String Js.dquote EmptyString) = false ->
  Js.strip_dquotes (k ++ String Js.dquote EmptyString) = k.
Proof.
  induction k as [|c k IH]; intros H; [reflexivity|].
  cbn [Js.includes] in H. apply orb_false_iff in H. destruct H as [Hp Hi].
  rewrite prefix_char in Hp. cbn [append Js.strip_dquotes].
  rewrite Ascii.eqb_sym, Hp. now rewrite (IH Hi).
Qed.

(** X17.  The key id of a Signature header.  For a header made of
    [keyId=], the key id between double quotes, a comma and further
    fields, where the key id holds no double quote and no comma and
    [keyId=] occurs only once, [keyId_of] gives the key id without its
    quotes. *)
Theorem keyId_of_quoted (k rest : string) (w : World) :
  let q := String Js.dquote (k ++ String Js.dquote EmptyString) in
  Js.includes k (String Js.dquote EmptyString) = false ->
  Js.includes q "," = false ->
  Js.includes (q ++ String "," rest) "keyId=" = false ->
  Inbox.keyId_of ("keyId=" ++ q ++ String "," rest) w = (Ok k, w).
Proof.
  intros q Hk Hq Hrest. unfold Inbox.keyId_of.
  rewrite (split_at_separator "keyId=" (q ++ String "," rest)) by discriminate.
  rewrite (split_without _ _ Hrest). cbn [nth_error].
  unfold Js.split.
  destruct (split_from_char "," q rest EmptyString Hq) as [l Hl].
  rewrite Hl. cbn [append]. unfold q. cbn [Js.strip_dquotes].
  rewrite Ascii.eqb_refl, (strip_dquotes_quoted k Hk). reflexivity.
Qed.

Lemma keyId_of_quoted_witness :
  Inbox.keyId_of
    ("keyId=" ++ String Js.dquote ("https://remote.example/users/bob" ++
                                   String Js.dquote EmptyString)
              ++ String "," "algorithm=ed25519")
    (Scenario.world [] [] [] [])
  = (Ok "https://remote.example/users/bob", Scenario.world [] [] [] []).
Proof.
  apply (keyId_of_quoted "https://remote.example/users/bob"
           "algorithm=ed25519" (Scenario.world [] [] [] []));
    reflexivity.
Defined.

(** X18.  A Signature header without [keyId=]: when the signature is to be
    verified the handler throws a TypeError, since the second piece of the
    split is undefined; no response is built, and the world is as it
    was. *)
Theorem signature_without_keyId_throws (E : Env) (fuel : nat)
    (req : Inbox.Request) (w : World) (user : User.t) :
  Inbox.origin_blocked E (Inbox.origin req) = false ->
  fst (User.fromId (Some (Inbox.uuid req)) w) = Ok (Some user) ->
  Inbox.bridge E req = Inbox.bridge_continue true ->
  Js.includes (Inbox.signature req) "keyId=" = false ->
  Inbox.inbox E fuel req w = (Throw TypeError, w).
Proof.
  intros Hb Hu Hbr Hs.
  rewrite (inbox_reaches_checks E fuel req w user Hb Hu).
  unfold Inbox.authenticate. rewrite Hbr.
  unfold bind, Inbox.verify_signature, bind, Inbox.keyId_of.
  now rewrite (split_without _ _ Hs).
Qed.

Lemma signature_without_keyId_throws_witness :
  Inbox.inbox Scenario.plain_env 1
    (Scenario.request "https://remote.example" None "unsigned" None
       Scenario.bob_follows)
    (Scenario.world [Scenario.alice; Scenario.bob] [] [] [])
  = (Throw TypeError, Scenario.world [Scenario.alice; Scenario.bob] [] [] []).
Proof.
  apply (signature_without_keyId_throws Scenario.plain_env 1 _ _ Scenario.alice);
    reflexivity.
Defined.

(** X19.  A request whose key id is the uri of a stored actor and whose
    signature does not validate against the key of that actor is answered
    400 and leaves the world (store, id sequence, outbound trace) as it
    is, whatever its body. *)
Theorem invalid_signature_never_writes (E : Env) (fuel : nat)
    (req : Inbox.Request) (w : World) (user sender : User.t)
    (keyId : string) :
  Inbox.origin_blocked E (Inbox.origin req) = false ->
  fst (User.fromId (Some (Inbox.uuid req)) w) = Ok (Some user) ->
  Inbox.bridge E req = Inbox.bridge_continue true ->
  Inbox.keyId_of (Inbox.signature req) w = (Ok keyId, w) ->
  known_actor w keyId sender ->
  signature_valid E (UserRow.publicKey sender) (Inbox.signature req)
    (Inbox.date req) (Inbox.url req) (Inbox.text req) = false ->
  Inbox.inbox E fuel req w
  = (Ok (Inbox.errorResponse "Invalid signature" 400), w).
Proof.
  intros Hb Hu Hbr Hk Hs Hv.
  rewrite (inbox_reaches_checks E fuel req w user Hb Hu).
  unfold Inbox.authenticate. rewrite Hbr.
  unfold bind at 1. unfold Inbox.verify_signature. unfold bind at 1.
  rewrite Hk. unfold bind at 1.
  rewrite (resolve_known_actor E w keyId sender Hs), Hv. reflexivity.
Qed.

Lemma invalid_signature_never_writes_witness :
  Inbox.inbox Scenario.plain_env 1
    (Scenario.request "https://remote.example" None
       "keyId=https://remote.example/users/bob,signature=forged" None
       (Inbox.Undo_ "https://lysand.example/users/alice"))
    (Scenario.world [Scenario.alice; Scenario.bob] [] [] [])
  = (Ok (Inbox.errorResponse "Invalid signature" 400),
     Scenario.world [Scenario.alice; Scenario.bob] [] [] []).
Proof.
  apply (invalid_signature_never_writes Scenario.plain_env 1 _ _
           Scenario.alice Scenario.bob "https://remote.example/users/bob");
    reflexivity.
Defined.

(** X20.  A bridge request without address.  With the bridge enabled and
    the configured token presented, a request whose IP address is not
    available is answered 500 and leaves the world as it is, with or
    without an allow-list and whatever its signature and body. *)
Theorem bridge_without_address (E : Env) (fuel : nat) (req : Inbox.Request)
    (w : World) (user : User.t) :
  Inbox.origin_blocked E (Inbox.origin req) = false ->
  fst (User.fromId (Some (Inbox.uuid req)) w) = Ok (Some user) ->
  bridge_enabled E = true ->
  Inbox.bearer_token (Inbox.authorization req) = Some (bridge_token E) ->
  bridge_token E <> EmptyString ->
  Inbox.request_ip req = None \/ Inbox.request_ip req = Some EmptyString ->
  Inbox.inbox E fuel req w
  = (Ok (Inbox.errorResponse "Request IP address is not available" 500), w).
Proof.
  intros Hb Hu He Ht Hne Hip.
  rewrite (inbox_reaches_checks E fuel req w user Hb Hu).
  unfold Inbox.authenticate, Inbox.bridge. rewrite He, Ht.
  cbn [truthy_text User.content_of]. rewrite (truthy_nonempty _ Hne).
  rewrite String.eqb_refl. cbn [negb].
  destruct Hip as [-> | ->]; reflexivity.
Qed.

Lemma bridge_without_address_witness :
  Inbox.inbox Scenario.bridge_env 1
    (Scenario.request "https://remote.example" (Some "Bearer secret")
       Scenario.signed_by_bob None Scenario.bob_follows)
    (Scenario.world [Scenario.alice; Scenario.bob] [] [] [])
  = (Ok (Inbox.errorResponse "Request IP address is not available" 500),
     Scenario.world [Scenario.alice; Scenario.bob] [] [] []).
Proof.
  apply (bridge_without_address Scenario.bridge_env 1 _ _ Scenario.alice).
  - reflexivity.
  - reflexivity.
  - reflexivity.
  - reflexivity.
  - discriminate.
  - left. reflexivity.
Defined.

(** ** The activities *)

Lemma filter_map_kept {A} (p : A -> bool) (g : A -> A) (l : list A) :
  (forall x, p (g x) = p x) -> filter p (map g l) = map g (filter p l).
Proof.
  intros H. induction l as [|x l IH]; [reflexivity|]. simpl. rewrite H.
  destruct (p x); simpl; now rewrite IH.
Qed.

Lemma relationship_of_updated (owner subject : string)
    (g : RelationshipRow.t -> RelationshipRow.t) (r : RelationshipRow.t)
    (rs : list RelationshipRow.t) :
  (forall x, RelationshipRow.ownerId (g x) = RelationshipRow.ownerId x) ->
  (forall x, RelationshipRow.subjectId (g x) = RelationshipRow.subjectId x) ->
  hd_error (filter (pair_is owner subject) rs) = Some r ->
  hd_error (filter (pair_is owner subject)
    (map (fun x => if holds (RelationshipRow.col x)
                        (eq_text Relationships_id (RelationshipRow.id r))
                   then g x else x) rs))
  = Some (g r).
Proof.
  intros Ho Hs Hr. rewrite filter_map_kept.
  - destruct (filter _ rs) as [|x l]; [discriminate|]. injection Hr as ->.
    simpl. now rewrite holds_relationships_id, String.eqb_refl.
  - intros x. destruct (holds _ _); [|reflexivity].
    unfold pair_is. now rewrite Ho, Hs.
Qed.

Lemma relationship_of_pairs (w : World) (owner subject : string) :
  relationship_of w owner subject
  = hd_error (filter (pair_is owner subject) (relationships w)).
Proof. reflexivity. Qed.

Lemma on_follow_locked (E : Env) (user account : User.t) (author : string)
    (w : World) :
  known_actor w author account ->
  UserRow.isLocked user = true ->
  (forall r, relationship_of w (UserRow.id account) (UserRow.id user) = Some r ->
             RelationshipRow.following r = false) ->
  exists w' r n,
    Inbox.on_follow E user author w
      = (Ok (Inbox.response (Some "Follow request sent") 200), w') /\
    users w' = users w /\
    relationship_of w' (UserRow.id account) (UserRow.id user) = Some r /\
    RelationshipRow.following r = false /\
    RelationshipRow.requested r = true /\
    notifications w' = notifications w ++ [n] /\
    NotificationRow.accountId n = UserRow.id account /\
    NotificationRow.notifiedId n = UserRow.id user /\
    NotificationRow.type n = type_follow_request /\
    trace w' = trace w.
Proof.
  intros Hk Hl Hnf. unfold Inbox.on_follow, bind at 1.
  rewrite (resolve_known_actor E w author account Hk). unfold bind at 1.
  destruct (relationship_of w (UserRow.id account) (UserRow.id user))
    as [r0|] eqn:Er.
  - rewrite (getRelationship_found E account user w r0 Er).
    rewrite (Hnf r0 eq_refl), Hl.
    do 3 eexists. split; [reflexivity|]. split; [reflexivity|]. split.
    { rewrite relationship_of_pairs in *. cbn -[holds].
      apply relationship_of_updated; auto. }
    repeat split.
  - rewrite (getRelationship_absent E account user w Er).
    unfold Db.insert_relationship. cbn [RelationshipRow.following].
    rewrite Hl.
    do 3 eexists. split; [reflexivity|]. split; [reflexivity|]. split.
    { rewrite relationship_of_pairs in *. cbn -[holds].
      apply (relationship_of_updated
               (UserRow.id account) (UserRow.id user) _
               (RelationshipRow.make (gen_id E (next_id w))
                  (UserRow.id account) (UserRow.id user)
                  false false false false false false)); auto.
      rewrite filter_app.
      destruct (filter _ (relationships w)) as [|x l]; [|discriminate].
      cbn. unfold pair_is. cbn. now rewrite !String.eqb_refl. }
    repeat split.
Qed.

(** X21.  An authenticated Follow of a stored actor to a locked user that
    it does not follow yet leaves a pending request: the relationship of
    the pair has [requested = true] and [following = false], one
    notification of type follow_request is added, and no accept is
    sent. *)
Theorem follow_of_a_locked_user_waits (E : Env) (fuel : nat)
    (req : Inbox.Request) (w : World) (follower followee : User.t)
    (author : string) :
  authenticated E req w followee ->
  Inbox.body req = Inbox.Follow_ author ->
  known_actor w author follower ->
  UserRow.isLocked followee = true ->
  (forall r, relationship_of w (UserRow.id follower) (UserRow.id followee)
             = Some r -> RelationshipRow.following r = false) ->
  exists w' r n,
    Inbox.inbox E fuel req w
      = (Ok (Inbox.response (Some "Follow request sent") 200), w') /\
    relationship_of w' (UserRow.id follower) (UserRow.id followee) = Some r /\
    RelationshipRow.following r = false /\
    RelationshipRow.requested r = true /\
    notifications w' = notifications w ++ [n] /\
    NotificationRow.accountId n = UserRow.id follower /\
    NotificationRow.notifiedId n = UserRow.id followee /\
    NotificationRow.type n = type_follow_request /\
    trace w' = trace w.
Proof.
  intros Ha Hb Hk Hl Hnf.
  destruct (on_follow_locked E followee follower author w Hk Hl Hnf)
    as [w' [r [n [Hrun [_ Hrest]]]]].
  exists w', r, n. split; [|exact Hrest].
  exact (inbox_follow E fuel req w followee author _ w' Ha Hb Hrun).
Qed.

Lemma follow_of_a_locked_user_waits_witness :
  exists w' r n,
    Inbox.inbox Scenario.plain_env 1 Scenario.signed_follow
      (Scenario.world [Scenario.locked_alice; Scenario.bob] [] [] [])
    = (Ok (Inbox.response (Some "Follow request sent") 200), w') /\
    relationship_of w' (UserRow.id Scenario.bob)
                    (UserRow.id Scenario.locked_alice) = Some r /\
    RelationshipRow.following r = false /\
    RelationshipRow.requested r = true /\
    notifications w'
    = notifications (Scenario.world [Scenario.locked_alice; Scenario.bob]
                       [] [] []) ++ [n] /\
    NotificationRow.accountId n = UserRow.id Scenario.bob /\
    NotificationRow.notifiedId n = UserRow.id Scenario.locked_alice /\
    NotificationRow.type n = type_follow_request /\
    trace w' = trace (Scenario.world [Scenario.locked_alice; Scenario.bob]
                        [] [] []).
Proof.
  apply (follow_of_a_locked_user_waits Scenario.plain_env 1
           Scenario.signed_follow
           (Scenario.world [Scenario.locked_alice; Scenario.bob] [] [] [])
           Scenario.bob Scenario.locked_alice Scenario.bob_uri).
  - repeat split.
  - reflexivity.
  - reflexivity.
  - reflexivity.
  - intros r H. discriminate H.
Defined.

(** X22.  FollowAccept and FollowReject of a stored actor, the addressed
    user having a relationship to it.  Without a pending request the
    answer is 200 and the world is unchanged.  With one, the relationship
    gets [requested = false] and [following] set for an accept, unset for
    a reject, its other fields as they were; no row is added and nothing
    else is written or sent. *)
Theorem follow_answer_settles_the_request (E : Env) (fuel : nat)
    (req : Inbox.Request) (w : World) (user account : User.t)
    (author : string) (accept : bool) (r : RelationshipRow.t) :
  authenticated E req w user ->
  Inbox.body req = (if accept then Inbox.FollowAccept_ author
                    else Inbox.FollowReject_ author) ->
  known_actor w author account ->
  relationship_of w (UserRow.id user) (UserRow.id account) = Some r ->
  (RelationshipRow.requested r = false ->
   Inbox.inbox E fuel req w
   = (Ok (Inbox.response
            (Some (if accept then "There is no follow request to accept"
                   else "There is no follow request to reject")) 200), w)) /\
  (RelationshipRow.requested r = true ->
   exists w',
     Inbox.inbox E fuel req w
     = (Ok (Inbox.response
              (Some (if accept then "Follow request accepted"
                     else "Follow request rejected")) 200), w') /\
     relationship_of w' (UserRow.id user) (UserRow.id account)
     = Some (answer_follow accept r) /\
     length (relationships w') = length (relationships w) /\
     users w' = users w /\ notifications w' = notifications w /\
     trace w' = trace w).
Proof.
  intros Ha Hb Hk Hr.
  assert (Hin : Inbox.inbox E fuel req w
                = Inbox.dispatch E fuel user
                    (if accept then Inbox.FollowAccept_ author
                     else Inbox.FollowReject_ author) w)
    by (now rewrite (inbox_authenticated E fuel req w user Ha), Hb).
  assert (Hd : forall resp w',
            Inbox.on_follow_answer E accept user author w = (Ok resp, w') ->
            Inbox.inbox E fuel req w = (Ok resp, w')).
  { intros resp w' Hrun. rewrite Hin. apply dispatch_result.
    destruct accept; simpl; unfold bind; now rewrite Hrun. }
  split; intros Hq.
  - apply Hd. unfold Inbox.on_follow_answer, bind at 1.
    rewrite (resolve_known_actor E w author account Hk). unfold bind at 1.
    rewrite (getRelationship_found E user account w r Hr), Hq. reflexivity.
  - eexists. split.
    + apply Hd. unfold Inbox.on_follow_answer, bind at 1.
      rewrite (resolve_known_actor E w author account Hk). unfold bind at 1.
      rewrite (getRelationship_found E user account w r Hr), Hq.
      reflexivity.
    + split.
      { rewrite relationship_of_pairs in *. cbn -[holds].
        apply (relationship_of_updated (UserRow.id user) (UserRow.id account)
                 (fun x => answer_follow accept x) r); auto. }
      split; [cbn; apply length_map | repeat split].
Qed.

Lemma follow_answer_settles_the_request_witness :
  (RelationshipRow.requested Scenario.alice_asked_bob = false ->
   Inbox.inbox Scenario.plain_env 1
     (Scenario.signed (Inbox.FollowAccept_ Scenario.bob_uri))
     (Scenario.world [Scenario.alice; Scenario.bob] [] []
        [Scenario.alice_asked_bob])
   = (Ok (Inbox.response (Some "There is no follow request to accept") 200),
      Scenario.world [Scenario.alice; Scenario.bob] [] []
        [Scenario.alice_asked_bob])) /\
  (RelationshipRow.requested Scenario.alice_asked_bob = true ->
   exists w',
     Inbox.inbox Scenario.plain_env 1
       (Scenario.signed (Inbox.FollowAccept_ Scenario.bob_uri))
       (Scenario.world [Scenario.alice; Scenario.bob] [] []
          [Scenario.alice_asked_bob])
     = (Ok (Inbox.response (Some "Follow request accepted") 200), w') /\
     relationship_of w' (UserRow.id Scenario.alice) (UserRow.id Scenario.bob)
     = Some (answer_follow true Scenario.alice_asked_bob) /\
     length (relationships w')
     = length (relationships
                 (Scenario.world [Scenario.alice; Scenario.bob] [] []
                    [Scenario.alice_asked_bob])) /\
     users w' = users (Scenario.world [Scenario.alice; Scenario.bob] [] []
                         [Scenario.alice_asked_bob]) /\
     notifications w'
     = notifications (Scenario.world [Scenario.alice; Scenario.bob] [] []
                        [Scenario.alice_asked_bob]) /\
     trace w' = trace (Scenario.world [Scenario.alice; Scenario.bob] [] []
                         [Scenario.alice_asked_bob])).
Proof.
  apply (follow_answer_settles_the_request Scenario.plain_env 1
           (Scenario.signed (Inbox.FollowAccept_ Scenario.bob_uri))
           (Scenario.world [Scenario.alice; Scenario.bob] [] []
              [Scenario.alice_asked_bob])
           Scenario.alice Scenario.bob Scenario.bob_uri true
           Scenario.alice_asked_bob).
  - repeat split.
  - reflexivity.
  - reflexivity.
  - reflexivity.
Defined.

(** X23.  An authenticated Undo whose object is the uri of the addressed
    user (a local uri from which the id validator reads the id of the
    inbox, no note and no user being stored under it) deletes the user
    rows of that id and no other user row, sends nothing, and is answered
    200; every later request to that inbox is answered 404. *)
Theorem undo_of_the_own_actor (E : Env) (fuel : nat) (req : Inbox.Request)
    (w : World) (user : User.t) (target : string) :
  authenticated E req w user ->
  Inbox.body req = Inbox.Undo_ target ->
  (forall n, In n (notes w) -> NoteRow.uri n <> Some target) ->
  (forall u, In u (users w) -> UserRow.uri u <> Some target) ->
  Js.startsWith target (base_url E) = true ->
  match_idValidator E target = Some (Inbox.uuid req) ->
  exists w',
    Inbox.inbox E fuel req w
    = (Ok (Inbox.response (Some "Account deleted") 200), w') /\
    users w' = filter (fun u => negb (String.eqb (UserRow.id u)
                                        (UserRow.id user))) (users w) /\
    trace w' = trace w /\
    forall fuel' req',
      Inbox.uuid req' = Inbox.uuid req ->
      Inbox.origin_blocked E (Inbox.origin req') = false ->
      Inbox.inbox E fuel' req' w'
      = (Ok (Inbox.errorResponse "User not found" 404), w').
Proof.
  intros Ha Hb Hnotes Husers Hlocal Hmatch.
  pose proof Ha as [Hnb [Hu Hauth]].
  destruct (User_fromId_cases (Inbox.uuid req) w) as [r [Hrun Hcase]].
  rewrite Hrun in Hu. simpl in Hu. injection Hu as ->.
  destruct Hcase as [Hin [Hid Hne]].
  assert (Hres : User.resolve E target w = (Ok (Some user), w)).
  { unfold User.resolve, bind.
    rewrite (User_fromSql_not_stored w target Husers), Hlocal, Hmatch.
    now rewrite (truthy_nonempty _ Hne). }
  eexists. split.
  - rewrite (inbox_authenticated E fuel req w user Ha), Hb.
    apply dispatch_result. cbn [Inbox.parseBody]. unfold bind at 1.
    rewrite (on_undo_own_actor E user user target w Hnotes Hres eq_refl).
    reflexivity.
  - split; [reflexivity|]. split; [reflexivity|].
    intros fuel' req' Huuid Hnb'. unfold Inbox.inbox. rewrite Hnb'.
    unfold bind. rewrite Huuid, <- Hid.
    match goal with
    | |- context [User.fromId (Some ?i) ?w'] =>
        destruct (User_fromId_after_delete i w w' eq_refl) as [Hgone _];
        rewrite (reads_only_run _ w' (User_fromId_reads _)), Hgone
    end.
    reflexivity.
Qed.

Lemma undo_of_the_own_actor_witness :
  exists w',
    Inbox.inbox Scenario.plain_env 1 Scenario.undo_alice
      (Scenario.world [Scenario.alice; Scenario.bob; Scenario.carol]
         [Scenario.carols_note] [] [])
    = (Ok (Inbox.response (Some "Account deleted") 200), w') /\
    users w' = filter (fun u => negb (String.eqb (UserRow.id u)
                                        (UserRow.id Scenario.alice)))
                 (users (Scenario.world
                           [Scenario.alice; Scenario.bob; Scenario.carol]
                           [Scenario.carols_note] [] [])) /\
    trace w' = trace (Scenario.world
                        [Scenario.alice; Scenario.bob; Scenario.carol]
                        [Scenario.carols_note] [] []) /\
    forall fuel' req',
      Inbox.uuid req' = Inbox.uuid Scenario.undo_alice ->
      Inbox.origin_blocked Scenario.plain_env (Inbox.origin req') = false ->
      Inbox.inbox Scenario.plain_env fuel' req' w'
      = (Ok (Inbox.errorResponse "User not found" 404), w').
Proof.
  apply (undo_of_the_own_actor Scenario.plain_env 1 Scenario.undo_alice
           (Scenario.world [Scenario.alice; Scenario.bob; Scenario.carol]
              [Scenario.carols_note] [] [])
           Scenario.alice "https://lysand.example/users/alice").
  - repeat split.
  - reflexivity.
  - intros n [<-|[]]. discriminate.
  - intros u [<-|[<-|[<-|[]]]]; discriminate.
  - reflexivity.
  - reflexivity.
Defined.

(** X24.  An authenticated Undo whose object is the uri of another stored
    actor, and of no note, is answered 400 and leaves the world as it
    is. *)
Theorem undo_of_another_actor_refused (E : Env) (fuel : nat)
    (req : Inbox.Request) (w : World) (user actor : User.t)
    (target : string) :
  authenticated E req w user ->
  Inbox.body req = Inbox.Undo_ target ->
  (forall n, In n (notes w) -> NoteRow.uri n <> Some target) ->
  known_actor w target actor ->
  UserRow.id actor <> UserRow.id user ->
  Inbox.inbox E fuel req w
  = (Ok (Inbox.errorResponse "Cannot delete other users than self" 400), w).
Proof.
  intros Ha Hb Hnotes Hk Hne.
  rewrite (inbox_authenticated E fuel req w user Ha), Hb.
  apply dispatch_result. cbn [Inbox.parseBody]. unfold bind at 1.
  rewrite (on_undo_other_actor E user actor target w w Hnotes
             (resolve_known_actor E w target actor Hk) Hne).
  reflexivity.
Qed.

Lemma undo_of_another_actor_refused_witness :
  Inbox.inbox Scenario.plain_env 1
    (Scenario.signed (Inbox.Undo_ "https://remote.example/users/carol"))
    (Scenario.world [Scenario.alice; Scenario.bob; Scenario.carol]
       [Scenario.carols_note] [] [])
  = (Ok (Inbox.errorResponse "Cannot delete other users than self" 400),
     Scenario.world [Scenario.alice; Scenario.bob; Scenario.carol]
       [Scenario.carols_note] [] []).
Proof.
  apply (undo_of_another_actor_refused Scenario.plain_env 1
           (Scenario.signed (Inbox.Undo_ "https://remote.example/users/carol"))
           (Scenario.world [Scenario.alice; Scenario.bob; Scenario.carol]
              [Scenario.carols_note] [] [])
           Scenario.alice Scenario.carol "https://remote.example/users/carol").
  - repeat split.
  - reflexivity.
  - intros n [<-|[]]. discriminate.
  - reflexivity.
  - discriminate.
Defined.

(** X25.  The answer to an authenticated Note activity, once its author
    is resolved: 201 when [Note.resolve] returns a note; 500 when it
    returns null or throws, whatever it throws.  The world is the one
    [Note.resolve] left: what was written before a failure stays
    written. *)
Theorem note_activity_answers (E : Env) (fuel : nat) (req : Inbox.Request)
    (w w1 : World) (user account : User.t) (note : NoteEntity) :
  authenticated E req w user ->
  Inbox.body req = Inbox.Note_ note ->
  User.resolve E (ne_author note) w = (Ok (Some account), w1) ->
  Inbox.inbox E fuel req w =
  match Note.resolve E fuel None (Some note) w1 with
  | (Ok (Some _), w2) => (Ok (Inbox.response (Some "Note created") 201), w2)
  | (Ok None, w2) | (Throw _, w2) =>
      (Ok (Inbox.errorResponse "Failed to add status" 500), w2)
  | (Diverges, w2) => (Diverges, w2)
  end.
Proof.
  intros Ha Hb Hres.
  rewrite (inbox_authenticated E fuel req w user Ha), Hb.
  unfold Inbox.dispatch, try_catch, Inbox.parseBody, Inbox.on_note, bind.
  rewrite Hres. unfold try_catch.
  destruct (Note.resolve E fuel None (Some note) w1) as [[[n|]|e|] w2];
    reflexivity.
Qed.

Lemma note_activity_answers_witness :
  Inbox.inbox Scenario.plain_env 1
    (Scenario.signed (Inbox.Note_ Scenario.a_like))
    (Scenario.world [Scenario.alice; Scenario.bob] [] [] [])
  = match Note.resolve Scenario.plain_env 1 None (Some Scenario.a_like)
            (Scenario.world [Scenario.alice; Scenario.bob] [] [] []) with
    | (Ok (Some _), w2) => (Ok (Inbox.response (Some "Note created") 201), w2)
    | (Ok None, w2) | (Throw _, w2) =>
        (Ok (Inbox.errorResponse "Failed to add status" 500), w2)
    | (Diverges, w2) => (Diverges, w2)
    end.
Proof.
  apply (note_activity_answers Scenario.plain_env 1
           (Scenario.signed (Inbox.Note_ Scenario.a_like))
           (Scenario.world [Scenario.alice; Scenario.bob] [] [] [])
           (Scenario.world [Scenario.alice; Scenario.bob] [] [] [])
           Scenario.alice Scenario.bob Scenario.a_like).
  - repeat split.
  - reflexivity.
  - reflexivity.
Defined.

